(** * Kernel SVM (simplified SMO) of mlpack: a shallow embedding

    The development follows the three versions of
    [methods/kernel_svm/kernel_svm_impl.hpp] found in the repository:

    - [PrunedLabels]   : the binary classifier that stores [savedLabels],
                         zeroed for every point whose alpha does not exceed
                         the mean alpha, and skips zero labels when scoring;
    - [AlphaThreshold] : the binary classifier that stores
                         [trainCoefficients = 2 * labels - 1] and compares
                         alpha with the mean alpha when scoring;
    - [Multiclass]     : the one-vs-one ensemble over [KernelSVMFunction].

    The optimisation loop is textually the same in the two binary versions
    (up to the name of the label vector); it is embedded once, in [SMO].

    Arithmetic.  The C++ code computes in [double].  The code is embedded
    twice.  The modules [SMO], [PrunedLabels], [AlphaThreshold] and
    [Multiclass] compute in exact rationals [Q]: rounding, infinities and
    NaN are outside them, and they carry the statements that no rounding
    can change (what is read and written, which points are selected, what
    fails) together with what the algorithm does in exact arithmetic.  The
    module [Binary64] embeds the optimisation loop and the binary
    classifier that stores [savedLabels] once more, in IEEE 754 binary64
    (the primitive floats of the kernel, which compute as [double] does):
    it carries what rounding, overflow and NaN decide.  [size_t] values are
    [nat]; [int] labels are [Z].

    Armadillo.  Element access, [arma::mean] and [arma::as_scalar] are
    modelled with Armadillo's default run-time checks: an out-of-range index
    and the mean of an empty object raise [std::logic_error], which is the
    outcome [LogicError] here.

    Randomness.  [rand()] is a global stream; it is a function
    [rnd : nat -> nat] ([nat -> N] in [Binary64]) together with the
    position of the next draw. *)

From Stdlib Require Import QArith Qabs Qround Lqa Lia List Arith Bool ZArith FinFun.
From Stdlib Require Floats Uint63.
Import ListNotations.

Local Open Scope Q_scope.

(** ** Outcomes of a call *)

Inductive outcome (A : Type) : Type :=
| Done (a : A)      (* the call returns *)
| OutOfFuel         (* a loop did not finish within the fuel given *)
| LogicError.       (* an Armadillo run-time check threw std::logic_error *)

Arguments Done {A} a.
Arguments OutOfFuel {A}.
Arguments LogicError {A}.

Definition bind {A B : Type} (c : outcome A) (k : A -> outcome B) : outcome B :=
  match c with
  | Done a => k a
  | OutOfFuel => OutOfFuel
  | LogicError => LogicError
  end.

Notation "x <- c ;; k" := (bind c (fun x => k))
  (at level 61, c at next level, right associativity).
Notation "' pat <- c ;; k" := (bind c (fun x => match x with pat => k end))
  (at level 61, pat pattern, c at next level, right associativity).

(** A [for] loop over the indices [idx], threading the state. *)
Fixpoint for_loop {S : Type} (idx : list nat) (body : nat -> S -> outcome S)
    (s : S) : outcome S :=
  match idx with
  | [] => Done s
  | i :: rest => s' <- body i s ;; for_loop rest body s'
  end.

(** ** Scalars and vectors *)

Definition Qlt_bool (a b : Q) : bool := negb (Qle_bool b a).

(** [std::max(a, b)] is [(a < b) ? b : a]; [std::min(a, b)] is
    [(b < a) ? b : a]. *)
Definition std_max (a b : Q) : Q := if Qlt_bool a b then b else a.
Definition std_min (a b : Q) : Q := if Qlt_bool b a then b else a.

(** [v(i) = x] on a vector. *)
Fixpoint upd {A : Type} (i : nat) (x : A) (v : list A) : list A :=
  match v, i with
  | [], _ => []
  | _ :: t, O => x :: t
  | h :: t, S i' => h :: upd i' x t
  end.

(** Checked element access [v(i)]. *)
Definition get {A : Type} (v : list A) (i : nat) : outcome A :=
  match nth_error v i with
  | Some x => Done x
  | None => LogicError
  end.

(** [a % b], the element-wise product. *)
Fixpoint schur (a b : list Q) : list Q :=
  match a, b with
  | x :: a', y :: b' => x * y :: schur a' b'
  | _, _ => []
  end.

Definition arma_sum (v : list Q) : Q := fold_right Qplus 0 v.

Definition arma_zeros (n : nat) : list Q := repeat 0 n.

Definition Qnat (n : nat) : Q := inject_Z (Z.of_nat n).

(** [arma::as_scalar(arma::mean(v))]. *)
Definition arma_mean (v : list Q) : outcome Q :=
  match v with
  | [] => LogicError
  | _ => Done (arma_sum v / Qnat (length v))
  end.

(** [K(i, j)] and [K.col(j)] on a matrix stored as the list of its rows. *)
Definition at2 (K : list (list Q)) (i j : nat) : Q := nth j (nth i K []) 0.
Definition col (K : list (list Q)) (j : nat) : list Q :=
  map (fun row => nth j row 0) K.

(** ** The optimisation loop shared by the two binary versions *)

Module SMO.

Record state : Type := mkState {
  alpha : list Q;
  intercept : Q;
  randPos : nat;          (* number of values of rand() consumed so far *)
  changedAlphas : nat;
  divisors : list Q       (* ghost: every eta the loop has divided by *)
}.

Section Loop.
Variable n : nat.                    (* data.n_cols *)
Variable K : list (list Q).          (* the kernel matrix *)
Variable y : list Q.                 (* trainLabels / trainCoefficients *)
Variable regularization tol : Q.
Variable max_iter : nat.
Variable rnd : nat -> nat.

(** [intercept + sum(alpha % y % K.col(i)) - y(i)] *)
Definition E_at (st : state) (i : nat) : Q :=
  intercept st + arma_sum (schur (schur (alpha st) y) (col K i)) - nth i y 0.

Definition kkt_violated (st : state) (i : nat) (Ei : Q) : bool :=
  (Qlt_bool (nth i y 0 * Ei) (- tol)
     && Qlt_bool (nth i (alpha st) 0) regularization)
  || (Qlt_bool tol (nth i y 0 * Ei) && Qlt_bool 0 (nth i (alpha st) 0)).

(** [j = rand() % n; while (j == i) j = rand() % n;] *)
Fixpoint pick_j (fuel pos i : nat) : outcome (nat * nat) :=
  match fuel with
  | O => OutOfFuel
  | S fuel' =>
      let j := (rnd pos mod n)%nat in
      if (j =? i)%nat then pick_j fuel' (S pos) i else Done (j, S pos)
  end.

Definition bounds_LH (a : list Q) (i j : nat) : Q * Q :=
  if Qeq_bool (nth i y 0) (nth j y 0)
  then (std_max 0 (nth j a 0 + nth i a 0 - regularization),
        std_min regularization (nth j a 0 + nth i a 0))
  else (std_max 0 (nth j a 0 - nth i a 0),
        std_min regularization (regularization + nth j a 0 - nth i a 0)).

Definition eta_of (i j : nat) : Q := 2 * at2 K i j - at2 K i i - at2 K j j.

(** The body of [for (size_t i = 0; i < data.n_cols; i++)].  [E(i)] and
    [E(j)] are written before they are read and [j <> i], so the vector
    [E] is represented by the two values [Ei] and [Ej]. *)
Definition step (fuel : nat) (st : state) (i : nat) : outcome state :=
  let Ei := E_at st i in
  if kkt_violated st i Ei then
    '(j, pos) <- pick_j fuel (randPos st) i ;;
    let st := mkState (alpha st) (intercept st) pos (changedAlphas st)
                      (divisors st) in
    let Ej := E_at st j in
    let a := alpha st in
    let alphaIold := nth i a 0 in
    let alphaJold := nth j a 0 in
    let '(L, H) := bounds_LH a i j in
    if Qeq_bool L H then Done st
    else
      let eta := eta_of i j in
      if Qle_bool 0 eta then Done st
      else
        let log := eta :: divisors st in
        let a1 := upd j (nth j a 0 - (nth j y 0 * (Ei - Ej)) / eta) a in
        let a2 := upd j (std_min H (nth j a1 0)) a1 in
        let a3 := upd j (std_max L (nth j a2 0)) a2 in
        if Qlt_bool (Qabs (nth j a3 0 - alphaJold)) tol then
          Done (mkState (upd j alphaJold a3) (intercept st) pos
                        (changedAlphas st) log)
        else
          let a4 := upd i (nth i a3 0 + nth i y 0 * nth j y 0
                                         * (alphaJold - nth j a3 0)) a3 in
          let b1 := intercept st - Ei
                    - nth i y 0 * (nth i a4 0 - alphaIold) * at2 K i j
                    - nth j y 0 * (nth j a4 0 - alphaJold) * at2 K i j in
          let b2 := intercept st - Ej
                    - nth i y 0 * (nth i a4 0 - alphaIold) * at2 K i j
                    - nth j y 0 * (nth j a4 0 - alphaJold) * at2 K j j in
          let b :=
            if Qlt_bool 0 (nth i a4 0) && Qlt_bool (nth i a4 0) regularization
            then b1
            else if Qlt_bool 0 (nth j a4 0)
                    && Qlt_bool (nth j a4 0) regularization
                 then b2
                 else (b1 + b2) / 2 in
          Done (mkState a4 b pos (S (changedAlphas st)) log)
  else Done st.

(** One iteration of [while (count < max_iter)]: [changedAlphas = 0], then
    the [for] loop. *)
Definition pass (fuel : nat) (st : state) : outcome state :=
  for_loop (seq 0 n) (fun i st => step fuel st i)
    (mkState (alpha st) (intercept st) (randPos st) 0 (divisors st)).

(** The [while] loop; the result carries the final value of [count]. *)
Fixpoint train_loop (fuel pickFuel : nat) (st : state) (count : nat)
  : outcome (state * nat) :=
  if (count <? max_iter)%nat then
    match fuel with
    | O => OutOfFuel
    | S fuel' =>
        st' <- pass pickFuel st ;;
        train_loop fuel' pickFuel st'
          (if (changedAlphas st' =? 0)%nat then S count else O)
    end
  else Done (st, count).

End Loop.

End SMO.

(** ** The kernel matrix *)

Section KernelMatrix.
Variable point : Type.
Variable kernel : point -> point -> Q.     (* kernel.Evaluate *)

(** [K(i, j) = kernel.Evaluate(data.col(i), data.col(j))] *)
Definition kernel_matrix (data : list point) : list (list Q) :=
  map (fun xi => map (fun xj => kernel xi xj) data) data.

End KernelMatrix.

Arguments kernel_matrix {point} kernel data.

(** [labels.zeros(n)] followed by the two [if]s of the label loop of
    [Classify(data, labels, scores)]. *)
Definition threshold_label (threshold score : Q) : nat :=
  let l := 0%nat in
  let l := if Qle_bool threshold score then 1%nat else l in
  let l := if Qlt_bool score threshold then 0%nat else l in
  l.

(** ** The binary classifier that prunes the stored labels *)

Module PrunedLabels.

Section Model.
Variable point : Type.

Record KernelSVM : Type := mkKernelSVM {
  regularization : Q;
  fitIntercept : bool;
  kernel : point -> point -> Q;
  intercept : Q;
  trainLabels : list Z;
  alpha : list Q;
  savedLabels : list Q;
  trainingData : list point
}.

(** The loop that fills [trainLabels]: [labels(i) == 0] gives [-1],
    anything else gives [1]. *)
Fixpoint remap_labels (labels : list nat) (idx : list nat) : outcome (list Z) :=
  match idx with
  | [] => Done []
  | i :: rest =>
      match nth_error labels i with
      | None => LogicError
      | Some l =>
          tl <- remap_labels labels rest ;;
          Done ((if (l =? 0)%nat then (-1)%Z else 1%Z) :: tl)
      end
  end.

(** The loop that fills [savedLabels] from a vector of zeros. *)
Definition prune_labels (threshold : Q) (a : list Q) (tl : list Z) : list Q :=
  map (fun i => if Qlt_bool threshold (nth i a 0)
                then inject_Z (nth i tl 0%Z) else 0)
      (seq 0 (length a)).

(** [Train(data, labels, max_iter, tol)].  [rnd] and [pos] are the stream
    of [rand()] and the position of its next value; [fuel] bounds the
    number of passes and the length of each search for [j]. *)
Definition Train (fuel : nat) (rnd : nat -> nat) (pos : nat)
    (self : KernelSVM) (data : list point) (labels : list nat)
    (max_iter : nat) (tol : Q) : outcome KernelSVM :=
  let n := length data in
  tl <- remap_labels labels (seq 0 n) ;;
  let K := kernel_matrix (kernel self) data in
  let st0 := SMO.mkState (arma_zeros n) (intercept self) pos 0 [] in
  '(st, _) <- SMO.train_loop n K (map inject_Z tl) (regularization self) tol
                max_iter rnd fuel fuel st0 0 ;;
  threshold <- arma_mean (SMO.alpha st) ;;
  Done (mkKernelSVM (regularization self) (fitIntercept self) (kernel self)
          (SMO.intercept st) tl (SMO.alpha st)
          (prune_labels threshold (SMO.alpha st) tl) data).

(** The training constructor: [intercept = 0], then [Train]. *)
Definition KernelSVM_train (fuel : nat) (rnd : nat -> nat) (pos : nat)
    (data : list point) (labels : list nat) (regularization : Q)
    (fitIntercept : bool) (max_iter : nat) (tol : Q)
    (kernel : point -> point -> Q) : outcome KernelSVM :=
  Train fuel rnd pos
    (mkKernelSVM regularization fitIntercept kernel 0 [] [] [] [])
    data labels max_iter tol.

(** The constructor that does not train: [intercept = 0], the vectors and
    the stored points empty. *)
Definition KernelSVM_new (regularization : Q) (fitIntercept : bool)
    (kernel : point -> point -> Q) : KernelSVM :=
  mkKernelSVM regularization fitIntercept kernel 0 [] [] [] [].

(** The inner loop of [Classify(data, scores)] over the stored points. *)
Fixpoint predict (self : KernelSVM) (x : point) (idx : list nat)
    (prediction : Q) : Q :=
  match idx with
  | [] => prediction
  | j :: rest =>
      if Qeq_bool (nth j (savedLabels self) 0) 0
      then predict self x rest prediction
      else predict self x rest
             (prediction + nth j (alpha self) 0 * nth j (savedLabels self) 0
                           * match nth_error (trainingData self) j with
                             | Some xj => kernel self x xj
                             | None => 0
                             end)
  end.

(** [Classify(data, scores)] *)
Definition Classify_scores (self : KernelSVM) (data : list point) : list Q :=
  map (fun x =>
         let prediction :=
           predict self x (seq 0 (length (trainingData self))) 0 in
         if negb (fitIntercept self) then prediction
         else prediction + intercept self)
      data.

(** [Classify(data, labels, scores)] *)
Definition Classify (self : KernelSVM) (data : list point)
  : outcome (list nat * list Q) :=
  let scores := Classify_scores self data in
  threshold <- arma_mean scores ;;
  Done (map (threshold_label threshold) scores, scores).

(** [Classify(data, labels)] *)
Definition Classify_labels (self : KernelSVM) (data : list point)
  : outcome (list nat) :=
  '(labels, _) <- Classify self data ;; Done labels.

(** [Classify(point)]: the point is a matrix of one column. *)
Definition Classify_point (self : KernelSVM) (x : point) : outcome nat :=
  labels <- Classify_labels self [x] ;;
  match labels with
  | l :: _ => Done l
  | [] => LogicError
  end.

(** The loop of [ComputeAccuracy] that counts the correctly predicted
    labels. *)
Definition count_correct (testLabels labels : list nat) : outcome nat :=
  for_loop (seq 0 (length labels))
    (fun i count =>
       t <- get testLabels i ;;
       l <- get labels i ;;
       Done (if (t =? l)%nat then S count else count))
    0%nat.

(** [ComputeAccuracy(testData, testLabels)] *)
Definition ComputeAccuracy (self : KernelSVM) (testData : list point)
    (testLabels : list nat) : outcome Q :=
  labels <- Classify_labels self testData ;;
  count <- count_correct testLabels labels ;;
  Done (Qnat count / Qnat (length labels)).

End Model.

Arguments regularization {point} _.
Arguments fitIntercept {point} _.
Arguments kernel {point} _.
Arguments intercept {point} _.
Arguments trainLabels {point} _.
Arguments alpha {point} _.
Arguments savedLabels {point} _.
Arguments trainingData {point} _.
Arguments mkKernelSVM {point}.
Arguments Train {point}.
Arguments KernelSVM_train {point}.
Arguments KernelSVM_new {point}.
Arguments predict {point}.
Arguments Classify_scores {point}.
Arguments Classify {point}.
Arguments Classify_labels {point}.
Arguments Classify_point {point}.
Arguments ComputeAccuracy {point}.

End PrunedLabels.

(** ** The binary classifier that compares alpha with the mean alpha *)

Module AlphaThreshold.

Section Model.
Variable point : Type.

Record KernelSVM : Type := mkKernelSVM {
  regularization : Q;
  fitIntercept : bool;
  kernel : point -> point -> Q;
  intercept : Q;
  trainCoefficients : list Q;
  alpha : list Q;
  trainingData : list point
}.

(** [2.0 * arma::conv_to<arma::rowvec>::from(labels) - 1] *)
Definition remap_labels (labels : list nat) : list Q :=
  map (fun l => 2 * Qnat l - 1) labels.

(** [Train(data, labels, maxIter, tol)].  The element-wise products of the
    loop body need [alpha] and [trainCoefficients] of one size, which
    Armadillo checks the first time the body runs.  After the loop the
    function prints [trainCoefficients(21)]; the printing is not modelled,
    the checked read is. *)
Definition Train (fuel : nat) (rnd : nat -> nat) (pos : nat)
    (self : KernelSVM) (data : list point) (labels : list nat)
    (maxIter : nat) (tol : Q) : outcome KernelSVM :=
  let n := length data in
  let tc := remap_labels labels in
  let K := kernel_matrix (kernel self) data in
  let st0 := SMO.mkState (arma_zeros n) (intercept self) pos 0 [] in
  if ((length labels =? n) || (n =? 0) || (maxIter =? 0))%nat then
    '(st, _) <- SMO.train_loop n K tc (regularization self) tol
                  maxIter rnd fuel fuel st0 0 ;;
    match nth_error tc 21 with
    | None => LogicError
    | Some _ =>
        Done (mkKernelSVM (regularization self) (fitIntercept self)
                (kernel self) (SMO.intercept st) tc (SMO.alpha st) data)
    end
  else LogicError.

(** The inner loop of [Classify(data, scores)] over the stored points. *)
Fixpoint predict (self : KernelSVM) (threshold : Q) (x : point)
    (idx : list nat) (prediction : Q) : Q :=
  match idx with
  | [] => prediction
  | j :: rest =>
      if Qle_bool (nth j (alpha self) 0) threshold
      then predict self threshold x rest prediction
      else predict self threshold x rest
             (prediction + nth j (alpha self) 0
                           * nth j (trainCoefficients self) 0
                           * match nth_error (trainingData self) j with
                             | Some xj => kernel self x xj
                             | None => 0
                             end)
  end.

(** [Classify(data, scores)] *)
Definition Classify_scores (self : KernelSVM) (data : list point)
  : outcome (list Q) :=
  threshold <- arma_mean (alpha self) ;;
  Done (map (fun x =>
               let prediction :=
                 predict self threshold x
                   (seq 0 (length (trainingData self))) 0 in
               if negb (fitIntercept self) then prediction
               else prediction + intercept self)
            data).

(** [Classify(data, labels, scores)] *)
Definition Classify (self : KernelSVM) (data : list point)
  : outcome (list nat * list Q) :=
  scores <- Classify_scores self data ;;
  threshold <- arma_mean scores ;;
  Done (map (threshold_label threshold) scores, scores).

End Model.

Arguments regularization {point} _.
Arguments fitIntercept {point} _.
Arguments kernel {point} _.
Arguments intercept {point} _.
Arguments trainCoefficients {point} _.
Arguments alpha {point} _.
Arguments trainingData {point} _.
Arguments mkKernelSVM {point}.
Arguments Train {point}.
Arguments predict {point}.
Arguments Classify_scores {point}.
Arguments Classify {point}.

End AlphaThreshold.

(** ** The one-vs-one ensemble *)

(** A loop that fills one entry of its result per index. *)
Fixpoint for_map {B : Type} (idx : list nat) (f : nat -> outcome B)
    : outcome (list B) :=
  match idx with
  | [] => Done []
  | i :: rest => b <- f i ;; bs <- for_map rest f ;; Done (b :: bs)
  end.

(** Conversion of a non-negative [double] to [size_t]. *)
Definition to_size_t (q : Q) : nat := Z.to_nat (Qfloor q).

(** [arma::find(cond)]: the indices at which the condition holds. *)
Definition arma_find {A : Type} (cond : A -> bool) (v : list A) : list nat :=
  filter (fun i => match nth_error v i with
                   | Some x => cond x
                   | None => false
                   end)
         (seq 0 (length v)).

(** [m.cols(indices)] *)
Definition arma_cols {A : Type} (m : list A) (indices : list nat)
    : outcome (list A) :=
  for_map indices (get m).

(** The scan of [arma::index_max] down one column: the running maximum
    starts below every value and is replaced on a strictly greater entry. *)
Fixpoint index_max_scan (v : list nat) (i : nat) (best : option nat)
    (best_i : nat) : nat :=
  match v with
  | [] => best_i
  | x :: rest =>
      match best with
      | Some b =>
          if (b <? x)%nat then index_max_scan rest (S i) (Some x) i
          else index_max_scan rest (S i) best best_i
      | None => index_max_scan rest (S i) (Some x) i
      end
  end.

Definition index_max (v : list nat) : nat := index_max_scan v 0 None 0.

Module Multiclass.

Section Model.
Variable point : Type.

(** The binary classifier [KernelSVMFunction] is declared in a file that
    is not part of the sources at hand: its type, its training constructor
    and its scoring function are parameters. *)
Variable KernelSVMFunction : Type.
Variable KernelSVMFunction_train :
  list point -> list nat -> Q -> bool -> nat -> nat -> nat -> Q ->
  outcome KernelSVMFunction.
Variable KernelSVMFunction_Classify :
  KernelSVMFunction -> list point -> list Q.

Record KernelSVM : Type := mkKernelSVM {
  regularization : Q;
  fitIntercept : bool;
  numClass : nat;
  numClassifier : nat;
  classesClassifier : list (nat * nat);     (* numClassifier rows, 2 columns *)
  network : list KernelSVMFunction
}.

(** [classesClassifier(r, c) = v] *)
Definition set_entry (m : list (nat * nat)) (r c v : nat)
    : outcome (list (nat * nat)) :=
  '(a, b) <- get m r ;;
  Done (upd r (if (c =? 0)%nat then (v, b) else (a, v)) m).

(** [classesClassifier(r, c)] *)
Definition entry (m : list (nat * nat)) (r c : nat) : outcome nat :=
  '(a, b) <- get m r ;; Done (if (c =? 0)%nat then a else b).

(** The loop state of [Train]: [classesClassifier], [network],
    [countClass] and [val]. *)
Definition train_state : Type :=
  (list (nat * nat) * list KernelSVMFunction * nat * nat)%type.

(** The body of the inner loop of [Train]. *)
Definition train_pair (self : KernelSVM) (data : list point)
    (labels : list nat) (maxIter : nat) (tol : Q) (i j : nat)
    (s : train_state) : outcome train_state :=
  let '(cc, net, countClass, val) := s in
  cc <- set_entry cc countClass 0 i ;;
  cc <- set_entry cc countClass 1 j ;;
  let sel := arma_find (fun l => (l =? i) || (l =? j))%nat labels in
  d <- arma_cols data sel ;;
  l <- arma_cols labels sel ;;
  svm <- KernelSVMFunction_train d l (regularization self)
           (fitIntercept self) i j maxIter tol ;;
  Done (cc, net ++ [svm], S countClass, S val).

(** [Train(data, labels, maxIter, tol)]; the result is [val] and the object
    after the call. *)
Definition Train (self : KernelSVM) (data : list point) (labels : list nat)
    (maxIter : nat) (tol : Q) : outcome (nat * KernelSVM) :=
  let K := numClass self in
  let cc0 := repeat (0, 0)%nat (numClassifier self) in
  '(cc, net, _, val) <-
    for_loop (seq 0 K)
      (fun i s =>
         for_loop (seq (S i) (K - S i))
           (fun j s => train_pair self data labels maxIter tol i j s) s)
      (cc0, network self, 0, 0)%nat ;;
  Done (val, mkKernelSVM (regularization self) (fitIntercept self)
               K (numClassifier self) cc net).

(** The training constructor:
    [numClassifier = numClass * ((numClass - 1) / 2)], computed in
    [double], then [Train]. *)
Definition KernelSVM_train (data : list point) (labels : list nat)
    (regularization : Q) (fitIntercept : bool) (numClass : nat)
    (maxIter : nat) (tol : Q) : outcome KernelSVM :=
  let numClassifier := to_size_t (Qnat numClass * ((Qnat numClass - 1) / 2)) in
  '(_, self) <- Train (mkKernelSVM regularization fitIntercept numClass
                         numClassifier [] [])
                  data labels maxIter tol ;;
  Done self.

(** The constructor that does not train:
    [numClassifier = numClass * (numClass - 1) / 2]. *)
Definition KernelSVM_new (regularization : Q) (fitIntercept : bool)
    (numClass : nat) : KernelSVM :=
  mkKernelSVM regularization fitIntercept numClass
    (to_size_t (Qnat numClass * (Qnat numClass - 1) / 2)) [] [].

(** [Classify(data, scores)]: row [k] of [scores] is what classifier [k]
    returns, which must have one entry per query. *)
Definition Classify_scores (self : KernelSVM) (data : list point)
    : outcome (list (list Q)) :=
  for_map (seq 0 (numClassifier self))
    (fun k =>
       svm <- get (network self) k ;;
       let row := KernelSVMFunction_Classify svm data in
       if (length row =? length data)%nat then Done row else LogicError).

(** [prediction(c, i) += 1] on column [i] of [prediction]. *)
Definition add_vote (column : list nat) (c : nat) : outcome (list nat) :=
  v <- get column c ;; Done (upd c (S v) column).

(** The body of the loop over the classifiers for query [i]. *)
Definition vote (self : KernelSVM) (scores : list (list Q)) (i k : nat)
    (column : list nat) : outcome (list nat) :=
  row <- get scores k ;;
  threshold <- arma_mean row ;;
  s <- get row i ;;
  column <- (if Qle_bool threshold s
             then c <- entry (classesClassifier self) k 0 ;; add_vote column c
             else Done column) ;;
  (if Qlt_bool s threshold
   then c <- entry (classesClassifier self) k 1 ;; add_vote column c
   else Done column).

(** Column [i] of [prediction] once every classifier has voted. *)
Definition votes (self : KernelSVM) (scores : list (list Q)) (i : nat)
    : outcome (list nat) :=
  for_loop (seq 0 (numClassifier self)) (vote self scores i)
    (repeat 0%nat (numClass self)).

(** [Classify(data, labels, scores)]; [arma::index_max(prediction, 0)] of
    a matrix without rows is empty. *)
Definition Classify (self : KernelSVM) (data : list point)
    : outcome (list nat * list (list Q)) :=
  scores <- Classify_scores self data ;;
  prediction <- for_map (seq 0 (length data)) (votes self scores) ;;
  Done (if (numClass self =? 0)%nat then [] else map index_max prediction,
        scores).

(** [Classify(data, labels)] *)
Definition Classify_labels (self : KernelSVM) (data : list point)
    : outcome (list nat) :=
  '(labels, _) <- Classify self data ;; Done labels.

(** [Classify(point)]: the point is a matrix of one column. *)
Definition Classify_point (self : KernelSVM) (x : point) : outcome nat :=
  labels <- Classify_labels self [x] ;;
  get labels 0.

End Model.

Arguments regularization {KernelSVMFunction} _.
Arguments fitIntercept {KernelSVMFunction} _.
Arguments numClass {KernelSVMFunction} _.
Arguments numClassifier {KernelSVMFunction} _.
Arguments classesClassifier {KernelSVMFunction} _.
Arguments network {KernelSVMFunction} _.
Arguments mkKernelSVM {KernelSVMFunction}.
Arguments Train {point KernelSVMFunction}.
Arguments KernelSVM_train {point KernelSVMFunction}.
Arguments KernelSVM_new {KernelSVMFunction}.
Arguments Classify_scores {point KernelSVMFunction}.
Arguments vote {KernelSVMFunction}.
Arguments votes {KernelSVMFunction}.
Arguments Classify {point KernelSVMFunction}.
Arguments Classify_labels {point KernelSVMFunction}.
Arguments Classify_point {point KernelSVMFunction}.

End Multiclass.

(** ** A kernel and a stream of [rand()] for the concrete runs *)

(** The linear kernel on points of dimension one. *)
Definition linear_kernel (a b : Q) : Q := a * b.

(** A stream of [rand()] that counts up from zero. *)
Definition counting_rand (p : nat) : nat := p.

(** Twenty-two points on the line, the negative ones of class 0 and the
    positive ones of class 1. *)
Definition training_points : list Q :=
  [-3; -5; -2; 2; -1; -1; 1; -4; -2; 4; -2;
   2; 2; -5; 4; 4; -5; 2; 3; -3; 2; -2].

Definition training_labels : list nat :=
  [0; 0; 0; 1; 0; 0; 1; 0; 0; 1; 0; 1; 1; 0; 1; 1; 0; 1; 1; 0; 1; 0]%nat.

(** ** Vocabulary of the statements about the optimisation loop *)

Module Spec.

Section Vocabulary.
Variable n : nat.
Variable K : list (list Q).
Variable y : list Q.
Variable C tol : Q.

(** The value [alpha(j)] has after the clip. *)
Definition clipped (st : SMO.state) (i j : nat) : Q :=
  let a := SMO.alpha st in
  let '(L, H) := SMO.bounds_LH y C a i j in
  std_max L (std_min H
    (nth j a 0 - (nth j y 0 * (SMO.E_at K y st i - SMO.E_at K y st j))
                 / SMO.eta_of K i j)).

(** What an iteration of the [for] loop can do to the state: leave the
    coefficients, the intercept and the change counter as they are, or
    move [alpha(j)] to its clipped value and [alpha(i)] along with it. *)
Inductive step_effect (st : SMO.state) (i : nat) (st' : SMO.state) : Prop :=
| effect_skip :
    SMO.alpha st' = SMO.alpha st ->
    SMO.intercept st' = SMO.intercept st ->
    SMO.changedAlphas st' = SMO.changedAlphas st ->
    (SMO.divisors st' = SMO.divisors st \/
     exists j, SMO.eta_of K i j < 0 /\
               SMO.divisors st' = SMO.eta_of K i j :: SMO.divisors st) ->
    step_effect st i st'
| effect_move (j : nat) :
    (j < n)%nat -> j <> i ->
    SMO.eta_of K i j < 0 ->
    ~ fst (SMO.bounds_LH y C (SMO.alpha st) i j)
      == snd (SMO.bounds_LH y C (SMO.alpha st) i j) ->
    tol <= Qabs (clipped st i j - nth j (SMO.alpha st) 0) ->
    SMO.alpha st' =
      upd i (nth i (SMO.alpha st) 0
             + nth i y 0 * nth j y 0
               * (nth j (SMO.alpha st) 0 - clipped st i j))
          (upd j (clipped st i j) (SMO.alpha st)) ->
    SMO.changedAlphas st' = S (SMO.changedAlphas st) ->
    SMO.divisors st' = SMO.eta_of K i j :: SMO.divisors st ->
    step_effect st i st'.

Definition divisions_safe (st : SMO.state) : Prop :=
  length (SMO.alpha st) = n /\ Forall (fun eta => eta < 0) (SMO.divisors st).

Definition pm1 (q : Q) : Prop := q == 1 \/ q == -1.

Definition in_box (a : list Q) : Prop :=
  length a = n /\ Forall (fun x => 0 <= x <= C) a.

(** [sumn m f] is [f 0 + ... + f (m - 1)]. *)
Fixpoint sumn (m : nat) (f : nat -> Q) : Q :=
  match m with
  | O => 0
  | S m' => sumn m' f + f m'
  end.

(** [K(k, l)] and [alpha(k) * y(k)] as functions of the indices. *)
Definition signed (a : list Q) (k : nat) : Q := nth k a 0 * nth k y 0.

(** The dual objective the loop ascends:
    [sum_k alpha(k) - 1/2 sum_k sum_l alpha(k) y(k) alpha(l) y(l) K(k, l)]. *)
Definition dual (a : list Q) : Q :=
  sumn n (fun k => nth k a 0)
  - (1 # 2) * sumn n (fun k => signed a k
                               * sumn n (fun l => signed a l * at2 K k l)).

(** The kernel matrix is symmetric. *)
Definition symmetric : Prop :=
  forall i j, (i < n)%nat -> (j < n)%nat -> at2 K i j == at2 K j i.

(** No search for [j <> i] goes on for ever: from every position of the
    stream of [rand()] on, and for every [i], some later value is accepted. *)
Definition fair (rnd : nat -> nat) : Prop :=
  forall pos i, (i < n)%nat ->
    exists q, (rnd (pos + q) mod n)%nat <> i.

(** The smallest [- f k] among the negative [f k], [k < m]; 1 when there
    is none. *)
Fixpoint least_drop (m : nat) (f : nat -> Q) : Q :=
  match m with
  | O => 1
  | S m' =>
      if Qlt_bool (f m') 0 then std_min (least_drop m' f) (- f m')
      else least_drop m' f
  end.

(** A lower bound of [- eta] over the pairs [i, j] with [eta < 0]. *)
Definition curvature : Q :=
  least_drop n (fun i => - least_drop n (fun j => SMO.eta_of K i j)).

(** What a counted change adds to the dual objective, at least. *)
Definition gain : Q := curvature * tol * tol / 2.

(** An upper bound of the dual objective on the box. *)
Definition dual_max : Q :=
  Qnat n * C
  + (1 # 2) * C * C * sumn n (fun k => sumn n (fun l => Qabs (at2 K k l))).

(** What a pass keeps true of the state, relative to the state [st0] it
    started from. *)
Definition ascending (st0 st : SMO.state) : Prop :=
  in_box (SMO.alpha st)
  /\ dual (SMO.alpha st0) <= dual (SMO.alpha st)
  /\ (SMO.changedAlphas st <> O ->
      dual (SMO.alpha st0) + gain <= dual (SMO.alpha st)).

(** What a pass keeps true of the state, relative to the state [st0] it
    started from: a state without counted change has the coefficients and
    the intercept of [st0]; a state with one has gained. *)
Definition rests_or_gains (st0 st : SMO.state) : Prop :=
  in_box (SMO.alpha st)
  /\ dual (SMO.alpha st0) <= dual (SMO.alpha st)
  /\ (SMO.changedAlphas st = O ->
      SMO.alpha st = SMO.alpha st0 /\ SMO.intercept st = SMO.intercept st0)
  /\ (SMO.changedAlphas st <> O ->
      dual (SMO.alpha st0) + gain <= dual (SMO.alpha st)).

(** The least natural number above [q]. *)
Definition nat_above (q : Q) : nat := Z.to_nat (Qfloor q + 1).

(** A number of passes within which the [while] loop ends. *)
Definition pass_bound (max_iter : nat) : nat :=
  (nat_above (dual_max / gain) * max_iter + max_iter)%nat.

End Vocabulary.

(** The pairs of classes [(a, b)], [a < b < K], in the order in which the
    loops of the ensemble's [Train] meet them. *)
Definition class_pairs (K : nat) : list (nat * nat) :=
  flat_map (fun i => map (fun j => (i, j)) (seq (S i) (K - S i))) (seq 0 K).

(** A doubly nested [for] loop, as one loop over the pairs of indices. *)
Fixpoint for_pairs {S : Type} (ps : list (nat * nat))
    (body : nat -> nat -> S -> outcome S) (s : S) : outcome S :=
  match ps with
  | [] => Done s
  | (i, j) :: rest => s' <- body i j s ;; for_pairs rest body s'
  end.

(** The class that classifier [k] votes for on query [i]: the first class
    of its pair when the score is at or above the mean of row [k] of the
    scores, the second class otherwise. *)
Definition ballot (cc : list (nat * nat)) (scores : list (list Q))
    (i k : nat) : option nat :=
  match nth_error scores k, nth_error cc k with
  | Some row, Some (a, b) =>
      match nth_error row i with
      | Some s =>
          Some (if Qle_bool (arma_sum row / Qnat (length row)) s then a else b)
      | None => None
      end
  | _, _ => None
  end.

(** The number of classifiers among the first [m] that vote for class [c]
    on query [i]. *)
Definition tally (cc : list (nat * nat)) (scores : list (list Q))
    (i c m : nat) : nat :=
  length (filter (fun k => match ballot cc scores i k with
                           | Some c' => (c' =? c)%nat
                           | None => false
                           end)
                 (seq 0 m)).

(** Class [r] is elected for query [i]: no class has more votes, and every
    class of lower index has strictly fewer. *)
Definition elects {T : Type} (self : Multiclass.KernelSVM T)
    (scores : list (list Q)) (i r : nat) : Prop :=
  let votes_for c :=
    tally (Multiclass.classesClassifier self) scores i c
      (Multiclass.numClassifier self) in
  (r < Multiclass.numClass self)%nat
  /\ (forall c, (c < Multiclass.numClass self)%nat ->
                (votes_for c <= votes_for r)%nat)
  /\ (forall c, (c < r)%nat -> (votes_for c < votes_for r)%nat).

(** What C5 says of the ensemble after training on [K] classes. *)
Definition one_classifier_per_pair {T : Type} (K : nat)
    (self : Multiclass.KernelSVM T) : Prop :=
  length (Multiclass.network self) = (K * (K - 1) / 2)%nat
  /\ Multiclass.numClassifier self = (K * (K - 1) / 2)%nat
  /\ length (Multiclass.classesClassifier self) = (K * (K - 1) / 2)%nat
  /\ NoDup (Multiclass.classesClassifier self)
  /\ (forall a b, In (a, b) (Multiclass.classesClassifier self)
                  <-> (a < b < K)%nat).

(** The number of positions at which two vectors of labels agree. *)
Definition agreements (testLabels labels : list nat) : nat :=
  length (filter (fun p => (fst p =? snd p)%nat) (combine testLabels labels)).

(** The test [labels == i || labels == j] on one label. *)
Definition of_pair (i j l : nat) : bool := ((l =? i) || (l =? j))%nat.

(** The columns of [m] at the positions where the label is [i] or [j], in
    their order. *)
Definition members {A : Type} (i j : nat) (m : list A) (labels : list nat)
    : list A :=
  map fst (filter (fun p => of_pair i j (snd p)) (combine m labels)).

End Spec.

(** ** The optimisation loop and the binary classifier in binary64 *)

Module Binary64.
Import PrimFloat.
Local Open Scope float_scope.

(** [double(n)] for a [size_t] [n]. *)
Definition of_nat (n : nat) : float :=
  PrimFloat.of_uint63 (Uint63.of_Z (Z.of_nat n)).

(** [std::max(a, b)] is [(a < b) ? b : a]; [std::min(a, b)] is
    [(b < a) ? b : a]. *)
Definition std_max (a b : float) : float := if a <? b then b else a.
Definition std_min (a b : float) : float := if b <? a then b else a.

(** The order in which the elements of a vector are added is Armadillo's.
    Two orders are embedded, and every statement below is made for both:
    one running sum from left to right, and the two running sums over the
    even and the odd positions of [arma::accu], added at the end. *)
Definition accu_seq (v : list float) : float := fold_left PrimFloat.add v 0.

Fixpoint accu_pairs_from (v : list float) (val1 val2 : float) : float :=
  match v with
  | a :: b :: rest => accu_pairs_from rest (val1 + a) (val2 + b)
  | [a] => (val1 + a) + val2
  | [] => val1 + val2
  end.

Definition accu_pairs (v : list float) : float := accu_pairs_from v 0 0.

(** [a % b], the element-wise product. *)
Fixpoint schur (a b : list float) : list float :=
  match a, b with
  | x :: a', y :: b' => x * y :: schur a' b'
  | _, _ => []
  end.

Definition at2 (K : list (list float)) (i j : nat) : float :=
  nth j (nth i K []) 0.
Definition col (K : list (list float)) (j : nat) : list float :=
  map (fun row => nth j row 0) K.

Module SMO.

Record state : Type := mkState {
  alpha : list float;
  intercept : float;
  randPos : nat;          (* number of values of rand() consumed so far *)
  changedAlphas : nat
}.

Section Loop.
Variable accu : list float -> float. (* the order of arma::sum *)
Variable n : nat.                    (* data.n_cols *)
Variable K : list (list float).      (* the kernel matrix *)
Variable y : list float.             (* trainLabels, as double *)
Variable regularization tol : float.
Variable max_iter : nat.
Variable rnd : nat -> N.             (* the values of rand() *)

(** [intercept + sum(alpha % y % K.col(i)) - y(i)] *)
Definition E_at (st : state) (i : nat) : float :=
  intercept st + accu (schur (schur (alpha st) y) (col K i)) - nth i y 0.

Definition kkt_violated (st : state) (i : nat) (Ei : float) : bool :=
  ((nth i y 0 * Ei <? - tol) && (nth i (alpha st) 0 <? regularization))
  || ((tol <? nth i y 0 * Ei) && (0 <? nth i (alpha st) 0)).

(** [j = rand() % n; while (j == i) j = rand() % n;] *)
Fixpoint pick_j (fuel pos i : nat) : outcome (nat * nat) :=
  match fuel with
  | O => OutOfFuel
  | S fuel' =>
      let j := N.to_nat (rnd pos mod N.of_nat n) in
      if (j =? i)%nat then pick_j fuel' (S pos) i else Done (j, S pos)
  end.

Definition bounds_LH (a : list float) (i j : nat) : float * float :=
  if nth i y 0 =? nth j y 0
  then (std_max 0 (nth j a 0 + nth i a 0 - regularization),
        std_min regularization (nth j a 0 + nth i a 0))
  else (std_max 0 (nth j a 0 - nth i a 0),
        std_min regularization (regularization + nth j a 0 - nth i a 0)).

Definition eta_of (i j : nat) : float :=
  2 * at2 K i j - at2 K i i - at2 K j j.

(** The body of the [if] of the [for] loop once [j] is drawn, from the
    computation of [E(j)] on. *)
Definition move (st : state) (i j : nat) (Ei : float) : state :=
  let Ej := E_at st j in
  let a := alpha st in
  let alphaIold := nth i a 0 in
  let alphaJold := nth j a 0 in
  let '(L, H) := bounds_LH a i j in
  if L =? H then st
  else
    let eta := eta_of i j in
    if 0 <=? eta then st
    else
      let a1 := upd j (nth j a 0 - (nth j y 0 * (Ei - Ej)) / eta) a in
      let a2 := upd j (std_min H (nth j a1 0)) a1 in
      let a3 := upd j (std_max L (nth j a2 0)) a2 in
      if abs (nth j a3 0 - alphaJold) <? tol then
        mkState (upd j alphaJold a3) (intercept st) (randPos st)
          (changedAlphas st)
      else
        let a4 := upd i (nth i a3 0 + nth i y 0 * nth j y 0
                                       * (alphaJold - nth j a3 0)) a3 in
        let b1 := intercept st - Ei
                  - nth i y 0 * (nth i a4 0 - alphaIold) * at2 K i j
                  - nth j y 0 * (nth j a4 0 - alphaJold) * at2 K i j in
        let b2 := intercept st - Ej
                  - nth i y 0 * (nth i a4 0 - alphaIold) * at2 K i j
                  - nth j y 0 * (nth j a4 0 - alphaJold) * at2 K j j in
        let b :=
          if (0 <? nth i a4 0) && (nth i a4 0 <? regularization) then b1
          else if (0 <? nth j a4 0) && (nth j a4 0 <? regularization)
               then b2
               else (b1 + b2) / 2 in
        mkState a4 b (randPos st) (S (changedAlphas st)).

(** The body of [for (size_t i = 0; i < data.n_cols; i++)]. *)
Definition step (fuel : nat) (st : state) (i : nat) : outcome state :=
  let Ei := E_at st i in
  if kkt_violated st i Ei then
    '(j, pos) <- pick_j fuel (randPos st) i ;;
    Done (move (mkState (alpha st) (intercept st) pos (changedAlphas st))
            i j Ei)
  else Done st.

(** One iteration of [while (count < max_iter)]. *)
Definition pass (fuel : nat) (st : state) : outcome state :=
  for_loop (seq 0 n) (fun i st => step fuel st i)
    (mkState (alpha st) (intercept st) (randPos st) 0).

(** The [while] loop; the result carries the final value of [count]. *)
Fixpoint train_loop (fuel pickFuel : nat) (st : state) (count : nat)
  : outcome (state * nat) :=
  if (count <? max_iter)%nat then
    match fuel with
    | O => OutOfFuel
    | S fuel' =>
        st' <- pass pickFuel st ;;
        train_loop fuel' pickFuel st'
          (if (changedAlphas st' =? 0)%nat then S count else O)
    end
  else Done (st, count).

End Loop.

End SMO.

(** [arma::mean]: the sum over the number of elements and, when that is
    not finite, Armadillo's running mean. *)
Definition mean_robust (v : list float) : float :=
  fst (fold_left (fun '(r, k) x => (r + (x - r) / of_nat (S k), S k)) v
         (0, O)).

Definition arma_mean (accu : list float -> float) (v : list float)
  : outcome float :=
  match v with
  | [] => LogicError
  | _ => let r := accu v / of_nat (length v) in
         Done (if is_finite r then r else mean_robust v)
  end.

(** [labels.zeros(n)] followed by the two [if]s of the label loop of
    [Classify(data, labels, scores)]. *)
Definition threshold_label (threshold score : float) : nat :=
  let l := 0%nat in
  let l := if threshold <=? score then 1%nat else l in
  let l := if score <? threshold then 0%nat else l in
  l.

Module PrunedLabels.

Section Model.
Variable accu : list float -> float.
Variable point : Type.

Record KernelSVM : Type := mkKernelSVM {
  regularization : float;
  fitIntercept : bool;
  kernel : point -> point -> float;
  intercept : float;
  trainLabels : list float;      (* -1 or 1 *)
  alpha : list float;
  savedLabels : list float;
  trainingData : list point
}.

(** The constructor that does not train. *)
Definition KernelSVM_new (regularization : float) (fitIntercept : bool)
    (kernel : point -> point -> float) : KernelSVM :=
  mkKernelSVM regularization fitIntercept kernel 0 [] [] [] [].

Fixpoint remap_labels (labels : list nat) (idx : list nat)
  : outcome (list float) :=
  match idx with
  | [] => Done []
  | i :: rest =>
      match nth_error labels i with
      | None => LogicError
      | Some l =>
          tl <- remap_labels labels rest ;;
          Done ((if (l =? 0)%nat then -1 else 1) :: tl)
      end
  end.

Definition kernel_matrix (kernel : point -> point -> float)
    (data : list point) : list (list float) :=
  map (fun xi => map (fun xj => kernel xi xj) data) data.

Definition prune_labels (threshold : float) (a tl : list float)
  : list float :=
  map (fun i => if threshold <? nth i a 0 then nth i tl 0 else 0)
      (seq 0 (length a)).

(** [Train(data, labels, max_iter, tol)] *)
Definition Train (fuel : nat) (rnd : nat -> N) (pos : nat)
    (self : KernelSVM) (data : list point) (labels : list nat)
    (max_iter : nat) (tol : float) : outcome KernelSVM :=
  let n := length data in
  tl <- remap_labels labels (seq 0 n) ;;
  let K := kernel_matrix (kernel self) data in
  let st0 := SMO.mkState (repeat 0 n) (intercept self) pos 0 in
  '(st, _) <- SMO.train_loop accu n K tl (regularization self) tol max_iter
                rnd fuel fuel st0 0 ;;
  threshold <- arma_mean accu (SMO.alpha st) ;;
  Done (mkKernelSVM (regularization self) (fitIntercept self) (kernel self)
          (SMO.intercept st) tl (SMO.alpha st)
          (prune_labels threshold (SMO.alpha st) tl) data).

(** The inner loop of [Classify(data, scores)] over the stored points. *)
Fixpoint predict (self : KernelSVM) (x : point) (idx : list nat)
    (prediction : float) : float :=
  match idx with
  | [] => prediction
  | j :: rest =>
      if nth j (savedLabels self) 0 =? 0
      then predict self x rest prediction
      else predict self x rest
             (prediction + nth j (alpha self) 0 * nth j (savedLabels self) 0
                           * match nth_error (trainingData self) j with
                             | Some xj => kernel self x xj
                             | None => 0
                             end)
  end.

(** [Classify(data, scores)] *)
Definition Classify_scores (self : KernelSVM) (data : list point)
  : list float :=
  map (fun x =>
         let prediction :=
           predict self x (seq 0 (length (trainingData self))) 0 in
         if negb (fitIntercept self) then prediction
         else prediction + intercept self)
      data.

(** [Classify(data, labels, scores)] *)
Definition Classify (self : KernelSVM) (data : list point)
  : outcome (list nat * list float) :=
  let scores := Classify_scores self data in
  threshold <- arma_mean accu scores ;;
  Done (map (threshold_label threshold) scores, scores).

(** [Classify(data, labels)] *)
Definition Classify_labels (self : KernelSVM) (data : list point)
  : outcome (list nat) :=
  '(labels, _) <- Classify self data ;; Done labels.

(** [Classify(point)]: the point is a matrix of one column. *)
Definition Classify_point (self : KernelSVM) (x : point) : outcome nat :=
  labels <- Classify_labels self [x] ;;
  match labels with
  | l :: _ => Done l
  | [] => LogicError
  end.

End Model.

Arguments regularization {point} _.
Arguments fitIntercept {point} _.
Arguments kernel {point} _.
Arguments intercept {point} _.
Arguments trainLabels {point} _.
Arguments alpha {point} _.
Arguments savedLabels {point} _.
Arguments trainingData {point} _.
Arguments mkKernelSVM {point}.
Arguments KernelSVM_new {point}.
Arguments kernel_matrix {point}.
Arguments Train accu {point}.
Arguments predict {point}.
Arguments Classify_scores {point}.
Arguments Classify accu {point}.
Arguments Classify_labels accu {point}.
Arguments Classify_point accu {point}.

End PrunedLabels.

(** The linear kernel on the line: [arma::dot] of two vectors of one
    element, which adds the product to the first of its two accumulators
    and returns their sum. *)
Definition linear_kernel (a b : float) : float := (0 + a * b) + 0.

(** The first values of [rand()] in the GNU C library when [srand] has
    not been called (seed 1). *)
Definition glibc_rand (p : nat) : N :=
  nth p [1804289383; 846930886; 1681692777; 1714636915; 1957747793;
         424238335; 719885386; 1649760492; 596516649; 1189641421;
         1025202362; 1350490027; 783368690; 1102520059; 2044897763;
         1967513926; 1365180540; 1540383426; 304089172; 1303455736;
         35005211; 521595368]%N 0%N.

(** Three points on the line, [1.4], [-1.9] and [-0.3], of classes 0, 1
    and 0, with [C = 0.5] and [tol = 0.01]. *)
Definition leaving_points : list float :=
  [0x1.6666666666666p+0; -0x1.e666666666666p+0; -0x1.3333333333333p-2].
Definition leaving_labels : list nat := [0; 1; 0]%nat.
Definition leaving_model : PrunedLabels.KernelSVM float :=
  PrunedLabels.KernelSVM_new 0x1p-1 true linear_kernel.
Definition leaving_tol : float := 0x1.47ae147ae147bp-7.

(** Two points on the line, [2.4] and [2.4001], of classes 1 and 0, with
    [C = 1e9] and [tol = 0.001]. *)
Definition stalling_points : list float :=
  [0x1.3333333333333p+1; 0x1.33367a0f9096cp+1].
Definition stalling_labels : list nat := [1; 0]%nat.
Definition stalling_model : PrunedLabels.KernelSVM float :=
  PrunedLabels.KernelSVM_new 0x1.dcd65p+29 true linear_kernel.
Definition stalling_tol : float := 0x1.0624dd2f1a9fcp-10.

(** Three points on the line, [1], [1.5] and [0.2], of classes 1, 0 and 1,
    with [C = 10] and [tol = 0.01]; and the query [1e308]. *)
Definition overflowing_points : list float :=
  [1; 0x1.8p+0; 0x1.999999999999ap-3].
Definition overflowing_labels : list nat := [1; 0; 1]%nat.
Definition overflowing_model : PrunedLabels.KernelSVM float :=
  PrunedLabels.KernelSVM_new 10 true linear_kernel.
Definition overflowing_tol : float := 0x1.47ae147ae147bp-7.
Definition overflowing_query : float := 0x1.1ccf385ebc8ap+1023.

End Binary64.

(** * Properties *)

(** ** Comparisons, [std::min] and [std::max] *)

Lemma Qlt_bool_true (a b : Q) : Qlt_bool a b = true <-> a < b.
Proof.
  unfold Qlt_bool. rewrite negb_true_iff.
  split; intro H.
  - apply Qnot_le_lt. intro Hle. apply Qle_bool_iff in Hle. congruence.
  - destruct (Qle_bool b a) eqn:E; [|reflexivity].
    apply Qle_bool_iff in E. lra.
Qed.

Lemma Qlt_bool_false (a b : Q) : Qlt_bool a b = false <-> b <= a.
Proof.
  unfold Qlt_bool. rewrite negb_false_iff. apply Qle_bool_iff.
Qed.

Lemma Qle_bool_false (a b : Q) : Qle_bool a b = false <-> b < a.
Proof.
  split; intro H.
  - apply Qnot_le_lt. intro Hle. apply Qle_bool_iff in Hle. congruence.
  - destruct (Qle_bool a b) eqn:E; [|reflexivity].
    apply Qle_bool_iff in E. lra.
Qed.

Lemma Qeq_bool_false (a b : Q) : Qeq_bool a b = false <-> ~ a == b.
Proof.
  split; intro H.
  - intro Heq. apply Qeq_bool_iff in Heq. congruence.
  - destruct (Qeq_bool a b) eqn:E; [|reflexivity].
    apply Qeq_bool_iff in E. contradiction.
Qed.

(** Turns every boolean comparison of the context into its proposition. *)
Ltac bool_to_prop :=
  repeat match goal with
  | H : Qlt_bool _ _ = true |- _ => apply Qlt_bool_true in H
  | H : Qlt_bool _ _ = false |- _ => apply Qlt_bool_false in H
  | H : Qle_bool _ _ = true |- _ => apply Qle_bool_iff in H
  | H : Qle_bool _ _ = false |- _ => apply Qle_bool_false in H
  | H : Qeq_bool _ _ = true |- _ => apply Qeq_bool_iff in H
  | H : Qeq_bool _ _ = false |- _ => apply Qeq_bool_false in H
  | H : andb _ _ = true |- _ => apply andb_true_iff in H; destruct H
  end.

Lemma std_max_spec (a b : Q) :
  (a < b /\ std_max a b = b) \/ (b <= a /\ std_max a b = a).
Proof.
  unfold std_max. destruct (Qlt_bool a b) eqn:E; bool_to_prop; auto.
Qed.

Lemma std_min_spec (a b : Q) :
  (b < a /\ std_min a b = b) \/ (a <= b /\ std_min a b = a).
Proof.
  unfold std_min. destruct (Qlt_bool b a) eqn:E; bool_to_prop; auto.
Qed.

(** Splits on every [std_min] and [std_max] of the goal and context. *)
Ltac split_minmax :=
  repeat match goal with
  | |- context [std_max ?a ?b] =>
      let H := fresh "Hmax" in let E := fresh "Emax" in
      destruct (std_max_spec a b) as [[H E] | [H E]]; rewrite E in *; clear E
  | |- context [std_min ?a ?b] =>
      let H := fresh "Hmin" in let E := fresh "Emin" in
      destruct (std_min_spec a b) as [[H E] | [H E]]; rewrite E in *; clear E
  | _ : context [std_max ?a ?b] |- _ =>
      let H := fresh "Hmax" in let E := fresh "Emax" in
      destruct (std_max_spec a b) as [[H E] | [H E]]; rewrite E in *; clear E
  | _ : context [std_min ?a ?b] |- _ =>
      let H := fresh "Hmin" in let E := fresh "Emin" in
      destruct (std_min_spec a b) as [[H E] | [H E]]; rewrite E in *; clear E
  end.

(** ** Vector updates *)

Lemma upd_length {A} (i : nat) (x : A) (v : list A) :
  length (upd i x v) = length v.
Proof.
  revert i; induction v as [|h t IH]; intros [|i]; simpl; auto.
Qed.

Lemma nth_upd_eq {A} (i : nat) (x d : A) (v : list A) :
  (i < length v)%nat -> nth i (upd i x v) d = x.
Proof.
  revert i; induction v as [|h t IH]; intros [|i] Hi; simpl in *;
    try lia; auto.
  apply IH. lia.
Qed.

Lemma nth_upd_neq {A} (i j : nat) (x d : A) (v : list A) :
  i <> j -> nth i (upd j x v) d = nth i v d.
Proof.
  revert i j; induction v as [|h t IH]; intros [|i] [|j] Hij; simpl;
    try congruence; auto.
Qed.

Lemma upd_upd {A} (i : nat) (x x' : A) (v : list A) :
  upd i x (upd i x' v) = upd i x v.
Proof.
  revert i; induction v as [|h t IH]; intros [|i]; simpl; auto.
  now rewrite IH.
Qed.

Lemma upd_same {A} (i : nat) (d : A) (v : list A) :
  upd i (nth i v d) v = v.
Proof.
  revert i; induction v as [|h t IH]; intros [|i]; simpl; auto.
  now rewrite IH.
Qed.

Lemma Forall_upd {A} (P : A -> Prop) (i : nat) (x : A) (v : list A) :
  P x -> Forall P v -> Forall P (upd i x v).
Proof.
  intros Hx Hv. revert i.
  induction Hv as [|h t Hh Ht IH]; intros [|i]; simpl; auto.
Qed.

Lemma Forall_nth_in {A} (P : A -> Prop) (v : list A) (i : nat) (d : A) :
  Forall P v -> (i < length v)%nat -> P (nth i v d).
Proof.
  intros Hv Hi. rewrite Forall_forall in Hv. apply Hv. now apply nth_In.
Qed.

(** ** Loops *)

Lemma for_loop_invariant {S : Type} (P : S -> Prop) (idx : list nat)
    (body : nat -> S -> outcome S) :
  (forall i s s', In i idx -> P s -> body i s = Done s' -> P s') ->
  forall s s', P s -> for_loop idx body s = Done s' -> P s'.
Proof.
  induction idx as [|i rest IH]; intros Hbody s s' Hs Hrun; simpl in Hrun.
  - inversion Hrun; subst; exact Hs.
  - destruct (body i s) as [s1| |] eqn:E; simpl in Hrun; try discriminate.
    apply (IH (fun k a b Hk => Hbody k a b (or_intror Hk)) s1 s'); auto.
    apply (Hbody i s s1); simpl; auto.
Qed.

Lemma for_loop_monotone {S : Type} (idx : list nat)
    (body body' : nat -> S -> outcome S) :
  (forall i s s', body i s = Done s' -> body' i s = Done s') ->
  forall s s', for_loop idx body s = Done s' -> for_loop idx body' s = Done s'.
Proof.
  intros Hb. induction idx as [|i idx IH]; intros s s' H; simpl in *;
    [exact H|].
  destruct (body i s) as [s1| |] eqn:E; simpl in H; try discriminate.
  rewrite (Hb i s s1 E). simpl. apply IH, H.
Qed.

(** A loop whose body needs fuel returns when every iteration returns
    with some fuel and more fuel does not change what an iteration
    returns. *)
Lemma for_loop_total_fuel {S : Type} (P : S -> Prop) (idx : list nat)
    (body : nat -> nat -> S -> outcome S) :
  (forall f f' i s s', (f <= f')%nat ->
     body f i s = Done s' -> body f' i s = Done s') ->
  (forall i s, In i idx -> P s -> exists f s', body f i s = Done s' /\ P s') ->
  forall s, P s -> exists f s', for_loop idx (body f) s = Done s' /\ P s'.
Proof.
  intros Hmono. induction idx as [|i idx IH]; intros Hbody s Hs.
  - exists O, s. simpl. auto.
  - destruct (Hbody i s (or_introl eq_refl) Hs) as (f1 & s1 & E1 & Hs1).
    destruct (IH (fun k a Hk => Hbody k a (or_intror Hk)) s1 Hs1)
      as (f2 & s' & E2 & Hs').
    exists (Nat.max f1 f2), s'. split; [|exact Hs']. simpl.
    rewrite (Hmono f1 (Nat.max f1 f2) i s s1 (Nat.le_max_l _ _) E1). simpl.
    apply (for_loop_monotone idx (body f2)); [|exact E2].
    intros k a b. apply Hmono, Nat.le_max_r.
Qed.

(** ** Finite sums *)

Lemma sumn_ext (m : nat) (f g : nat -> Q) :
  (forall k, (k < m)%nat -> f k == g k) -> Spec.sumn m f == Spec.sumn m g.
Proof.
  induction m as [|m IH]; intros H; simpl; [reflexivity|].
  rewrite IH, (H m) by (auto with arith). reflexivity.
Qed.

Lemma sumn_le (m : nat) (f g : nat -> Q) :
  (forall k, (k < m)%nat -> f k <= g k) -> Spec.sumn m f <= Spec.sumn m g.
Proof.
  induction m as [|m IH]; intros H; simpl; [lra|].
  specialize (IH (fun k Hk => H k (Nat.lt_lt_succ_r _ _ Hk))).
  specialize (H m (Nat.lt_succ_diag_r m)). lra.
Qed.

Lemma sumn_plus (m : nat) (f g : nat -> Q) :
  Spec.sumn m (fun k => f k + g k) == Spec.sumn m f + Spec.sumn m g.
Proof.
  induction m as [|m IH]; simpl; [reflexivity|]. rewrite IH. ring.
Qed.

Lemma sumn_scal (m : nat) (c : Q) (f : nat -> Q) :
  Spec.sumn m (fun k => c * f k) == c * Spec.sumn m f.
Proof.
  induction m as [|m IH]; simpl; [ring|]. rewrite IH. ring.
Qed.

Lemma sumn_const (m : nat) (c : Q) :
  Spec.sumn m (fun _ => c) == Qnat m * c.
Proof.
  induction m as [|m IH]; [simpl; unfold Qnat; simpl; ring|].
  cbn [Spec.sumn]. rewrite IH. unfold Qnat.
  rewrite Nat2Z.inj_succ, <- Z.add_1_r, inject_Z_plus. ring.
Qed.

Lemma sumn_zero (m : nat) (f : nat -> Q) :
  (forall k, (k < m)%nat -> f k == 0) -> Spec.sumn m f == 0.
Proof.
  intros H. rewrite (sumn_ext m f (fun _ => 0) H), sumn_const. ring.
Qed.

(** A sum against the indicator of [i] picks the term of index [i]. *)
Lemma sumn_pick (m i : nat) (f : nat -> Q) :
  (i < m)%nat ->
  Spec.sumn m (fun k => (if (k =? i)%nat then 1 else 0) * f k) == f i.
Proof.
  induction m as [|m IH]; intros Hi; [lia|]. cbn [Spec.sumn].
  destruct (Nat.eq_dec i m) as [->|Hne].
  - rewrite Nat.eqb_refl, sumn_zero; [ring|].
    intros k Hk. destruct (Nat.eqb_spec k m); [lia|ring].
  - rewrite IH by lia. destruct (Nat.eqb_spec m i); [lia|ring].
Qed.

Lemma sumn_shift (m : nat) (f : nat -> Q) :
  Spec.sumn (S m) f == f O + Spec.sumn m (fun k => f (S k)).
Proof.
  induction m as [|m IH]; [simpl; ring|].
  change (Spec.sumn (S (S m)) f) with (Spec.sumn (S m) f + f (S m)).
  rewrite IH. simpl. ring.
Qed.

Lemma arma_sum_sumn (v : list Q) :
  arma_sum v == Spec.sumn (length v) (fun k => nth k v 0).
Proof.
  induction v as [|x v IH]; [reflexivity|].
  cbn [length]. rewrite sumn_shift. simpl. rewrite IH. reflexivity.
Qed.

Lemma schur_length (a b : list Q) :
  length a = length b -> length (schur a b) = length a.
Proof.
  revert b; induction a as [|x a IH]; intros [|z b] H; simpl in *;
    try discriminate; auto.
Qed.

Lemma nth_schur (a b : list Q) (k : nat) :
  nth k (schur a b) 0 == nth k a 0 * nth k b 0.
Proof.
  revert b k; induction a as [|x a IH]; intros b k.
  - destruct k; simpl; ring.
  - destruct b as [|z b]; destruct k; simpl; try ring. apply IH.
Qed.

Lemma least_drop_pos (m : nat) (f : nat -> Q) : 0 < Spec.least_drop m f.
Proof.
  induction m as [|m IH]; simpl; [reflexivity|].
  destruct (Qlt_bool (f m) 0) eqn:E; [|exact IH].
  bool_to_prop. split_minmax; lra.
Qed.

Lemma least_drop_le (m : nat) (f : nat -> Q) (k : nat) :
  (k < m)%nat -> f k < 0 -> Spec.least_drop m f <= - f k.
Proof.
  induction m as [|m IH]; intros Hk Hneg; [lia|]. simpl.
  destruct (Nat.eq_dec k m) as [->|Hne].
  - destruct (Qlt_bool (f m) 0) eqn:E; bool_to_prop; [|lra].
    split_minmax; lra.
  - specialize (IH ltac:(lia) Hneg).
    destruct (Qlt_bool (f m) 0) eqn:E; [|exact IH].
    split_minmax; lra.
Qed.

Lemma product_bound (c p q x : Q) :
  - c <= p <= c -> - c <= q <= c -> (- p) * (q * x) <= c * c * Qabs x.
Proof.
  intros Hp Hq.
  assert (H1 : 0 <= (c - p) * (c - q)) by (apply Qmult_le_0_compat; lra).
  assert (H2 : 0 <= (c + p) * (c + q)) by (apply Qmult_le_0_compat; lra).
  assert (H3 : 0 <= (c - p) * (c + q)) by (apply Qmult_le_0_compat; lra).
  assert (H4 : 0 <= (c + p) * (c - q)) by (apply Qmult_le_0_compat; lra).
  apply Qabs_case; intros Hx.
  - assert (H5 : 0 <= (c * c + p * q) * x) by (apply Qmult_le_0_compat; lra).
    lra.
  - assert (H5 : 0 <= (c * c - p * q) * (- x))
      by (apply Qmult_le_0_compat; lra).
    lra.
Qed.

Lemma nat_above_spec (q : Q) : q < Qnat (Spec.nat_above q).
Proof.
  unfold Spec.nat_above, Qnat.
  pose proof (Qlt_floor q) as Hq.
  destruct (Z_le_gt_dec 0 (Qfloor q + 1)) as [Hz|Hz].
  - now rewrite Z2Nat.id.
  - replace (Z.to_nat (Qfloor q + 1)) with O by lia.
    apply Qlt_trans with (1 := Hq).
    unfold Qlt; simpl. lia.
Qed.

Lemma Qnat_succ (m : nat) : Qnat (S m) == Qnat m + 1.
Proof.
  unfold Qnat. rewrite Nat2Z.inj_succ, <- Z.add_1_r, inject_Z_plus.
  reflexivity.
Qed.

(** ** One step of the optimisation loop *)

Section LoopFacts.
Variable n : nat.
Variable K : list (list Q).
Variable y : list Q.
Variable C tol : Q.
Variable max_iter : nat.
Variable rnd : nat -> nat.

Local Abbreviation clipped := (Spec.clipped K y C).
Local Abbreviation step_effect := (Spec.step_effect n K y C tol).
Local Abbreviation divisions_safe := (Spec.divisions_safe n).
Local Abbreviation pm1 := Spec.pm1.
Local Abbreviation in_box := (Spec.in_box n C).
Local Abbreviation signed := (Spec.signed y).
Local Abbreviation dual := (Spec.dual n K y).
Local Abbreviation gain := (Spec.gain n K tol).
Local Abbreviation dual_max := (Spec.dual_max n K C).
Local Abbreviation ascending := (Spec.ascending n K y C tol).

Lemma pick_j_spec (fuel pos i j pos' : nat) :
  (i < n)%nat ->
  SMO.pick_j n rnd fuel pos i = Done (j, pos') ->
  (j < n)%nat /\ j <> i.
Proof.
  intros Hi. revert pos.
  induction fuel as [|fuel IH]; intros pos Hp; simpl in Hp; [discriminate|].
  destruct (rnd pos mod n =? i)%nat eqn:E.
  - eapply IH; eauto.
  - inversion Hp; subst. apply Nat.eqb_neq in E. split; [|exact E].
    apply Nat.mod_upper_bound. lia.
Qed.

Lemma step_inv (fuel i : nat) (st st' : SMO.state) :
  (i < n)%nat ->
  length (SMO.alpha st) = n ->
  SMO.step n K y C tol rnd fuel st i = Done st' ->
  step_effect st i st'.
Proof.
  intros Hi Hlen Hs. unfold SMO.step in Hs.
  destruct (SMO.kkt_violated y C tol st i (SMO.E_at K y st i)).
  2:{ inversion Hs; subst. apply Spec.effect_skip; auto. }
  destruct (SMO.pick_j n rnd fuel (SMO.randPos st) i) as [[j pos]| |] eqn:Ep;
    cbn [bind] in Hs; try discriminate.
  destruct (pick_j_spec _ _ _ _ _ Hi Ep) as [Hj Hji].
  pose proof (eq_refl (clipped st i j)) as Hc. unfold clipped in Hc at 2.
  assert (HE : forall p c d k,
             SMO.E_at K y (SMO.mkState (SMO.alpha st) (SMO.intercept st) p c d) k
             = SMO.E_at K y st k) by reflexivity.
  cbn [SMO.alpha SMO.intercept SMO.randPos SMO.changedAlphas SMO.divisors]
    in Hs.
  rewrite HE in Hs. clear HE.
  destruct (SMO.bounds_LH y C (SMO.alpha st) i j) as [L H] eqn:ELH.
  destruct (Qeq_bool L H) eqn:EqLH.
  { inversion Hs; subst. apply Spec.effect_skip; auto. }
  destruct (Qle_bool 0 (SMO.eta_of K i j)) eqn:Eeta.
  { inversion Hs; subst. apply Spec.effect_skip; auto. }
  bool_to_prop.
  assert (Hj' : (j < length (SMO.alpha st))%nat) by lia.
  assert (Hi' : (i < length (SMO.alpha st))%nat) by lia.
  rewrite !nth_upd_eq in Hs by (rewrite ?upd_length; lia).
  rewrite !upd_upd in Hs.
  rewrite <- Hc in Hs.
  destruct (Qlt_bool (Qabs (clipped st i j - nth j (SMO.alpha st) 0)) tol)
    eqn:Etol.
  - inversion Hs; subst. apply Spec.effect_skip; cbn [SMO.alpha SMO.intercept
      SMO.changedAlphas SMO.divisors]; auto.
    + apply upd_same.
    + right. exists j. split; auto.
  - bool_to_prop. rewrite (nth_upd_neq i j) in Hs by congruence.
    inversion Hs; subst.
    apply (Spec.effect_move _ _ _ _ _ _ _ _ j); cbn [SMO.alpha SMO.intercept
      SMO.changedAlphas SMO.divisors]; auto.
    rewrite ELH. exact EqLH.
Qed.

Lemma step_effect_length (st st' : SMO.state) (i : nat) :
  step_effect st i st' -> length (SMO.alpha st') = length (SMO.alpha st).
Proof.
  intros [Ha _ _ _ | j _ _ _ _ _ Ha _ _]; rewrite Ha; auto.
  now rewrite !upd_length.
Qed.

Lemma pass_counts_changes (fuel : nat) (st st' : SMO.state) :
  length (SMO.alpha st) = n ->
  SMO.pass n K y C tol rnd fuel st = Done st' ->
  SMO.changedAlphas st' = O -> SMO.alpha st' = SMO.alpha st.
Proof.
  intros Hlen Hp. unfold SMO.pass in Hp.
  apply (for_loop_invariant
           (fun s => length (SMO.alpha s) = n
                     /\ (SMO.changedAlphas s = O
                         -> SMO.alpha s = SMO.alpha st))) in Hp.
  - apply Hp.
  - intros i s s' Hi [Hl Hs] Hstep. apply in_seq in Hi.
    pose proof (step_inv fuel i s s' ltac:(lia) Hl Hstep) as He.
    split; [rewrite (step_effect_length _ _ _ He); exact Hl|].
    destruct He as [Ha _ Hc _ | j _ _ _ _ _ _ Hc _]; rewrite Hc;
      [rewrite Ha; exact Hs | discriminate].
  - cbn [SMO.alpha SMO.changedAlphas]. auto.
Qed.

(** More fuel for the search for [j] does not change what is returned. *)
Lemma pick_j_monotone (i : nat) :
  forall (fuel fuel' pos : nat) (r : nat * nat),
  (fuel <= fuel')%nat ->
  SMO.pick_j n rnd fuel pos i = Done r -> SMO.pick_j n rnd fuel' pos i = Done r.
Proof.
  induction fuel as [|fuel IH]; intros fuel' pos r Hle H; [discriminate|].
  destruct fuel' as [|fuel']; [lia|]. simpl in *.
  destruct (rnd pos mod n =? i)%nat; [|exact H].
  apply (IH fuel'); [lia | exact H].
Qed.

Lemma step_monotone (fuel fuel' i : nat) (st st' : SMO.state) :
  (fuel <= fuel')%nat ->
  SMO.step n K y C tol rnd fuel st i = Done st' ->
  SMO.step n K y C tol rnd fuel' st i = Done st'.
Proof.
  intros Hle H. unfold SMO.step in *.
  destruct (SMO.kkt_violated y C tol st i (SMO.E_at K y st i)); [|exact H].
  destruct (SMO.pick_j n rnd fuel (SMO.randPos st) i) as [r| |] eqn:E;
    cbn [bind] in H; try discriminate.
  rewrite (pick_j_monotone i fuel fuel' _ r Hle E). exact H.
Qed.

Lemma pass_monotone (fuel fuel' : nat) (st st' : SMO.state) :
  (fuel <= fuel')%nat ->
  SMO.pass n K y C tol rnd fuel st = Done st' ->
  SMO.pass n K y C tol rnd fuel' st = Done st'.
Proof.
  intros Hle. unfold SMO.pass. apply for_loop_monotone.
  intros i s s'. now apply step_monotone.
Qed.

Lemma train_loop_monotone (fuel : nat) :
  forall (fuel' pickFuel pickFuel' : nat) (st : SMO.state) (count : nat)
         (r : SMO.state * nat),
  (fuel <= fuel')%nat -> (pickFuel <= pickFuel')%nat ->
  SMO.train_loop n K y C tol max_iter rnd fuel pickFuel st count = Done r ->
  SMO.train_loop n K y C tol max_iter rnd fuel' pickFuel' st count = Done r.
Proof.
  induction fuel as [|fuel IH]; intros fuel' pf pf' st count r Hf Hp H;
    simpl in H.
  - destruct (count <? max_iter)%nat eqn:E; [discriminate|].
    destruct fuel'; simpl; rewrite E; exact H.
  - destruct fuel' as [|fuel']; [lia|]. simpl.
    destruct (count <? max_iter)%nat; [|exact H].
    destruct (SMO.pass n K y C tol rnd pf st) as [s1| |] eqn:E;
      cbn [bind] in H; try discriminate.
    rewrite (pass_monotone pf pf' st s1 Hp E). cbn [bind].
    apply (IH fuel' pf pf'); [lia | exact Hp | exact H].
Qed.

(** *** The divisions by [eta] *)

Lemma step_divisions (fuel i : nat) (st st' : SMO.state) :
  (i < n)%nat -> divisions_safe st ->
  SMO.step n K y C tol rnd fuel st i = Done st' ->
  divisions_safe st'.
Proof.
  intros Hi [Hlen Hd] Hs.
  pose proof (step_inv fuel i st st' Hi Hlen Hs) as He.
  split; [rewrite (step_effect_length _ _ _ He); exact Hlen|].
  destruct He as [_ _ _ [Hd' | (j & Hneg & Hd')] | j _ _ Hneg _ _ _ _ Hd'];
    rewrite Hd'; auto.
Qed.

Lemma pass_divisions (fuel : nat) (st st' : SMO.state) :
  divisions_safe st ->
  SMO.pass n K y C tol rnd fuel st = Done st' ->
  divisions_safe st'.
Proof.
  intros Hb Hp. unfold SMO.pass in Hp.
  eapply (for_loop_invariant divisions_safe); [| |exact Hp].
  - intros i s s' Hi. apply in_seq in Hi. apply step_divisions. lia.
  - exact Hb.
Qed.

Lemma train_loop_divisions (fuel pickFuel : nat) :
  forall (st st' : SMO.state) (count count' : nat),
  divisions_safe st ->
  SMO.train_loop n K y C tol max_iter rnd fuel pickFuel st count
    = Done (st', count') ->
  divisions_safe st'.
Proof.
  induction fuel as [|fuel IH]; intros st st' count count' Hb Hrun;
    simpl in Hrun; destruct (count <? max_iter)%nat;
    try discriminate; try (inversion Hrun; subst; exact Hb).
  destruct (SMO.pass n K y C tol rnd pickFuel st) as [s1| |] eqn:E;
    simpl in Hrun; try discriminate.
  eapply IH; [|exact Hrun]. eapply pass_divisions; eauto.
Qed.

(** *** The box [0 <= alpha(k) <= C] *)

Lemma clipped_bounds (st : SMO.state) (i j : nat) :
  in_box (SMO.alpha st) -> (i < n)%nat -> (j < n)%nat ->
  let L := fst (SMO.bounds_LH y C (SMO.alpha st) i j) in
  let H := snd (SMO.bounds_LH y C (SMO.alpha st) i j) in
  0 <= L /\ H <= C /\ L <= clipped st i j <= H
  /\ L <= nth j (SMO.alpha st) 0 <= H.
Proof.
  intros [Hlen Hbox] Hi Hj.
  pose proof (Forall_nth_in _ _ i 0 Hbox ltac:(lia)) as Hai.
  pose proof (Forall_nth_in _ _ j 0 Hbox ltac:(lia)) as Haj.
  cbv beta in Hai, Haj.
  unfold clipped, SMO.bounds_LH.
  destruct (Qeq_bool (nth i y 0) (nth j y 0)); cbn [fst snd];
    split_minmax; lra.
Qed.

Lemma pm1_product (a b : Q) :
  pm1 a -> pm1 b ->
  (Qeq_bool a b = true /\ a * b == 1) \/ (Qeq_bool a b = false /\ a * b == -1).
Proof.
  intros [Ha|Ha] [Hb|Hb].
  - left. split; [apply Qeq_bool_iff|]; rewrite Ha, Hb; reflexivity.
  - right. split; [apply Qeq_bool_false|]; rewrite Ha, Hb;
      [intro X; discriminate X | reflexivity].
  - right. split; [apply Qeq_bool_false|]; rewrite Ha, Hb;
      [intro X; discriminate X | reflexivity].
  - left. split; [apply Qeq_bool_iff|]; rewrite Ha, Hb; reflexivity.
Qed.

Hypothesis y_length : length y = n.
Hypothesis y_pm1 : Forall pm1 y.

(** The value [alpha(i)] takes after the compensating update stays in
    the box. *)
Lemma compensated_bounds (st : SMO.state) (i j : nat) :
  in_box (SMO.alpha st) -> (i < n)%nat -> (j < n)%nat ->
  0 <= nth i (SMO.alpha st) 0
       + nth i y 0 * nth j y 0 * (nth j (SMO.alpha st) 0 - clipped st i j)
    <= C.
Proof.
  intros Hb Hi Hj.
  destruct (clipped_bounds st i j Hb Hi Hj) as (HL & HH & Hc & Ha).
  destruct Hb as [Hlen Hbox].
  pose proof (Forall_nth_in _ _ i 0 Hbox ltac:(lia)) as Hai.
  pose proof (Forall_nth_in _ _ j 0 Hbox ltac:(lia)) as Haj.
  cbv beta in Hai, Haj.
  pose proof (Forall_nth_in _ _ i 0 y_pm1 ltac:(lia)) as Hyi.
  pose proof (Forall_nth_in _ _ j 0 y_pm1 ltac:(lia)) as Hyj.
  unfold SMO.bounds_LH in HL, HH, Hc, Ha.
  destruct (pm1_product _ _ Hyi Hyj) as [[Eb Ep] | [Eb Ep]];
    rewrite Eb in *; cbn [fst snd] in *; rewrite Ep;
    split_minmax; lra.
Qed.

Lemma step_in_box (fuel i : nat) (st st' : SMO.state) :
  (i < n)%nat -> in_box (SMO.alpha st) ->
  SMO.step n K y C tol rnd fuel st i = Done st' ->
  in_box (SMO.alpha st').
Proof.
  intros Hi Hb Hs.
  destruct (step_inv fuel i st st' Hi (proj1 Hb) Hs)
    as [Ha _ _ _ | j Hj Hji _ _ _ Ha _ _].
  - now rewrite Ha.
  - rewrite Ha. split.
    + rewrite !upd_length. apply Hb.
    + apply Forall_upd; [apply compensated_bounds; auto|].
      apply Forall_upd; [|apply Hb].
      destruct (clipped_bounds st i j Hb Hi Hj) as (HL & HH & Hc & _).
      cbv zeta in *. lra.
Qed.

Lemma pass_in_box (fuel : nat) (st st' : SMO.state) :
  in_box (SMO.alpha st) ->
  SMO.pass n K y C tol rnd fuel st = Done st' ->
  in_box (SMO.alpha st').
Proof.
  intros Hb Hp. unfold SMO.pass in Hp.
  eapply (for_loop_invariant (fun s => in_box (SMO.alpha s))); [| |exact Hp].
  - intros i s s' Hi. apply in_seq in Hi. apply step_in_box. lia.
  - exact Hb.
Qed.

Lemma train_loop_in_box (fuel pickFuel : nat) :
  forall (st st' : SMO.state) (count count' : nat),
  in_box (SMO.alpha st) ->
  SMO.train_loop n K y C tol max_iter rnd fuel pickFuel st count
    = Done (st', count') ->
  in_box (SMO.alpha st').
Proof.
  induction fuel as [|fuel IH]; intros st st' count count' Hb Hrun;
    simpl in Hrun; destruct (count <? max_iter)%nat;
    try discriminate; try (inversion Hrun; subst; exact Hb).
  destruct (SMO.pass n K y C tol rnd pickFuel st) as [s1| |] eqn:E;
    simpl in Hrun; try discriminate.
  eapply IH; [|exact Hrun]. eapply pass_in_box; eauto.
Qed.

(** *** The dual objective *)

Hypothesis K_length : length K = n.
Hypothesis K_symmetric : Spec.symmetric n K.

Lemma col_nth (i k : nat) : nth k (col K i) 0 = at2 K k i.
Proof.
  unfold col, at2.
  rewrite <- (map_nth (fun row => nth i row 0) K [] k).
  destruct i; reflexivity.
Qed.

Lemma E_at_sum (st : SMO.state) (i : nat) :
  length (SMO.alpha st) = n ->
  SMO.E_at K y st i
  == SMO.intercept st
     + Spec.sumn n (fun k => signed (SMO.alpha st) k * at2 K k i)
     - nth i y 0.
Proof.
  intros Hlen. unfold SMO.E_at.
  rewrite arma_sum_sumn.
  rewrite !schur_length by (rewrite ?schur_length; unfold col;
                            rewrite ?length_map; congruence).
  rewrite Hlen.
  rewrite (sumn_ext n _ (fun k => signed (SMO.alpha st) k * at2 K k i));
    [reflexivity|].
  intros k _. rewrite !nth_schur, col_nth. reflexivity.
Qed.

Lemma three_sum (i j : nat) (p q : Q) (u F : nat -> Q) :
  (i < n)%nat -> (j < n)%nat ->
  Spec.sumn n (fun l => (u l + p * (if (l =? j)%nat then 1 else 0)
                            + q * (if (l =? i)%nat then 1 else 0)) * F l)
  == Spec.sumn n (fun l => u l * F l) + p * F j + q * F i.
Proof.
  intros Hi Hj.
  rewrite (sumn_ext n _
    (fun l => u l * F l
              + (p * ((if (l =? j)%nat then 1 else 0) * F l)
                 + q * ((if (l =? i)%nat then 1 else 0) * F l))))
    by (intros; ring).
  rewrite !sumn_plus, !sumn_scal, !sumn_pick by assumption. ring.
Qed.

(** [sum_k alpha(k) y(k) K(k, i)], the part of [E(i)] that depends on
    the coefficients. *)
Local Abbreviation field_at := (fun (a : list Q) (i : nat) =>
  Spec.sumn n (fun k => signed a k * at2 K k i)).

Lemma nth_moved (a : list Q) (i j k : nat) (vi vj : Q) :
  length a = n -> (i < n)%nat -> (j < n)%nat -> i <> j ->
  nth k (upd i vi (upd j vj a)) 0
  == nth k a 0 + (vj - nth j a 0) * (if (k =? j)%nat then 1 else 0)
               + (vi - nth i a 0) * (if (k =? i)%nat then 1 else 0).
Proof.
  intros Hlen Hi Hj Hij.
  destruct (Nat.eqb_spec k i) as [->|Hki].
  - rewrite nth_upd_eq by (rewrite upd_length; lia).
    destruct (Nat.eqb_spec i j); [contradiction|ring].
  - rewrite nth_upd_neq by assumption.
    destruct (Nat.eqb_spec k j) as [->|Hkj].
    + rewrite nth_upd_eq by lia. ring.
    + rewrite nth_upd_neq by assumption. ring.
Qed.

Lemma pm1_square (q : Q) : pm1 q -> q * q == 1.
Proof. intros [H|H]; rewrite H; reflexivity. Qed.

(** The effect on the dual objective of moving [alpha(j)] to [c] and
    [alpha(i)] along with it. *)
Lemma dual_move (a : list Q) (i j : nat) (c : Q) :
  length a = n -> (i < n)%nat -> (j < n)%nat -> i <> j ->
  dual (upd i (nth i a 0 + nth i y 0 * nth j y 0 * (nth j a 0 - c))
           (upd j c a))
  == dual a
     + nth j y 0 * (c - nth j a 0)
       * ((field_at a i - nth i y 0) - (field_at a j - nth j y 0))
     + (1 # 2) * SMO.eta_of K i j * ((c - nth j a 0) * (c - nth j a 0)).
Proof.
  intros Hlen Hi Hj Hij.
  pose proof (pm1_square _ (Forall_nth_in _ _ i 0 y_pm1 ltac:(lia))) as Hyi.
  pose proof (pm1_square _ (Forall_nth_in _ _ j 0 y_pm1 ltac:(lia))) as Hyj.
  set (d := c - nth j a 0).
  set (t := nth j y 0 * d).
  set (a' := upd i _ _).
  assert (HA : forall k,
    nth k a' 0 == (nth k a 0 + d * (if (k =? j)%nat then 1 else 0)
                   + (- (nth i y 0 * nth j y 0 * d))
                     * (if (k =? i)%nat then 1 else 0)) * 1).
  { intros k. unfold a'. rewrite nth_moved by assumption. unfold d. ring. }
  assert (HS : forall k,
    signed a' k == signed a k + t * (if (k =? j)%nat then 1 else 0)
                   + (- t) * (if (k =? i)%nat then 1 else 0)).
  { intros k. unfold Spec.signed. rewrite HA. unfold t.
    destruct (Nat.eqb_spec k j) as [Ekj|Hkj];
      destruct (Nat.eqb_spec k i) as [Eki|Hki]; subst;
      try contradiction; try ring.
    transitivity (nth i a 0 * nth i y 0
                    - nth j y 0 * d * (nth i y 0 * nth i y 0)); [ring|].
      rewrite Hyi. ring. }
  unfold Spec.dual.
  (* the linear part *)
  rewrite (sumn_ext n (fun k => nth k a' 0) _ (fun k _ => HA k)).
  rewrite three_sum by assumption.
  (* the inner sums of the quadratic part *)
  set (h := fun k => Spec.sumn n (fun l => signed a l * at2 K k l)).
  set (G := fun k => h k + t * at2 K k j + (- t) * at2 K k i).
  assert (Hin : forall k,
    Spec.sumn n (fun l => signed a' l * at2 K k l) == G k).
  { intros k.
    rewrite (sumn_ext n _ _ (fun l _ =>
      Qmult_comp _ _ (HS l) _ _ (Qeq_refl (at2 K k l)))).
    rewrite three_sum by assumption. reflexivity. }
  rewrite (sumn_ext n
    (fun k => signed a' k * Spec.sumn n (fun l => signed a' l * at2 K k l))
    (fun k => (signed a k + t * (if (k =? j)%nat then 1 else 0)
               + (- t) * (if (k =? i)%nat then 1 else 0)) * G k))
    by (intros k _; rewrite Hin, HS; reflexivity).
  rewrite three_sum by assumption.
  rewrite (sumn_ext n (fun l => signed a l * G l)
    (fun l => signed a l * h l
              + (t * (signed a l * at2 K l j)
                 + (- t) * (signed a l * at2 K l i))))
    by (intros; unfold G; ring).
  rewrite !sumn_plus, !sumn_scal.
  assert (Hsym : forall r, (r < n)%nat -> h r == field_at a r).
  { intros r Hr. unfold h. apply sumn_ext. intros l Hl.
    rewrite (K_symmetric r l) by assumption. reflexivity. }
  unfold G. rewrite (Hsym i Hi), (Hsym j Hj).
  rewrite (sumn_ext n (fun l => nth l a 0 * 1) (fun l => nth l a 0))
    by (intros; ring).
  rewrite (K_symmetric j i Hj Hi).
  unfold SMO.eta_of.
  set (S0 := Spec.sumn n (fun l => nth l a 0)).
  set (Q0 := Spec.sumn n (fun l => signed a l * h l)).
  change (Spec.sumn n (fun k =>
            signed a k * Spec.sumn n (fun l => signed a l * at2 K k l)))
    with Q0.
  set (gi := Spec.sumn n (fun k => signed a k * at2 K k i)).
  set (gj := Spec.sumn n (fun k => signed a k * at2 K k j)).
  unfold t.
  transitivity
    (S0 - (1 # 2) * Q0 + nth j y 0 * d * (gi - gj)
     + d - nth i y 0 * nth j y 0 * d
     + (1 # 2) * (2 * at2 K i j - at2 K i i - at2 K j j)
       * (d * d * (nth j y 0 * nth j y 0))); [ring|].
  rewrite Hyj. symmetry.
  transitivity
    (S0 - (1 # 2) * Q0 + nth j y 0 * d * (gi - gj)
     + d * (nth j y 0 * nth j y 0) - nth i y 0 * nth j y 0 * d
     + (1 # 2) * (2 * at2 K i j - at2 K i i - at2 K j j) * (d * d)); [ring|].
  rewrite Hyj. ring.
Qed.

Lemma curvature_spec :
  0 < Spec.curvature n K /\
  forall i j, (i < n)%nat -> (j < n)%nat -> SMO.eta_of K i j < 0 ->
              Spec.curvature n K <= - SMO.eta_of K i j.
Proof.
  split; [apply least_drop_pos|]. intros i j Hi Hj Hneg.
  unfold Spec.curvature.
  pose proof (least_drop_pos n (fun j => SMO.eta_of K i j)) as Hpos.
  pose proof (least_drop_le n (fun j => SMO.eta_of K i j) j Hj Hneg) as Hle.
  pose proof (least_drop_le n
    (fun i => - Spec.least_drop n (fun j => SMO.eta_of K i j)) i Hi) as Hout.
  cbv beta in Hle, Hout. specialize (Hout ltac:(lra)). lra.
Qed.

Lemma clipped_eq (st : SMO.state) (i j : nat) :
  clipped st i j
  = std_max (fst (SMO.bounds_LH y C (SMO.alpha st) i j))
      (std_min (snd (SMO.bounds_LH y C (SMO.alpha st) i j))
         (nth j (SMO.alpha st) 0
          - (nth j y 0 * (SMO.E_at K y st i - SMO.E_at K y st j))
            / SMO.eta_of K i j)).
Proof.
  unfold Spec.clipped. now destruct (SMO.bounds_LH y C (SMO.alpha st) i j).
Qed.

(** A counted change raises the dual objective by [gain] at least. *)
Lemma move_gain (st : SMO.state) (i j : nat) :
  0 < tol -> in_box (SMO.alpha st) ->
  (i < n)%nat -> (j < n)%nat -> i <> j ->
  SMO.eta_of K i j < 0 ->
  tol <= Qabs (clipped st i j - nth j (SMO.alpha st) 0) ->
  dual (SMO.alpha st) + gain
  <= dual (upd i (nth i (SMO.alpha st) 0
                  + nth i y 0 * nth j y 0
                    * (nth j (SMO.alpha st) 0 - clipped st i j))
               (upd j (clipped st i j) (SMO.alpha st))).
Proof.
  intros Htol Hb Hi Hj Hij Heta Hmove.
  rewrite (dual_move _ i j _ (proj1 Hb) Hi Hj Hij).
  destruct (clipped_bounds st i j Hb Hi Hj) as (_ & _ & Hc & Ha).
  cbv zeta in Hc, Ha.
  destruct curvature_spec as [Hk0 Hk]. specialize (Hk i j Hi Hj Heta).
  pose proof (clipped_eq st i j) as Hceq.
  assert (HE : SMO.E_at K y st i - SMO.E_at K y st j
               == (field_at (SMO.alpha st) i - nth i y 0)
                  - (field_at (SMO.alpha st) j - nth j y 0)).
  { rewrite !E_at_sum by apply Hb. ring. }
  rewrite <- HE. clear HE.
  set (r := nth j y 0 * (SMO.E_at K y st i - SMO.E_at K y st j)) in *.
  set (L := fst _) in *. set (H := snd _) in *.
  set (aj := nth j (SMO.alpha st) 0) in *.
  set (c := clipped st i j) in *.
  set (eta := SMO.eta_of K i j) in *.
  set (x := - (r / eta)).
  assert (Hx : r == - (eta * x)) by (unfold x; field; lra).
  assert (Hcx : c == std_max L (std_min H (aj + x)))
    by (rewrite Hceq; unfold x, Qminus; reflexivity).
  assert (P1 : 0 <= (c - aj) * (x - (c - aj))).
  { rewrite Hcx. split_minmax; nra. }
  assert (P2 : tol * tol <= (c - aj) * (c - aj)).
  { revert Hmove. apply Qabs_case; intros; nra. }
  assert (P3 : 0 <= (- eta) * ((c - aj) * (x - (c - aj))))
    by (apply Qmult_le_0_compat; lra).
  assert (P4 : Spec.curvature n K * (tol * tol)
               <= (- eta) * ((c - aj) * (c - aj))) by nra.
  unfold Spec.gain.
  setoid_replace (nth j y 0 * (c - aj)
                  * (SMO.E_at K y st i - SMO.E_at K y st j))
    with ((c - aj) * r) by (unfold r; ring).
  rewrite Hx.
  setoid_replace (Spec.curvature n K * tol * tol / 2)
    with ((1 # 2) * (Spec.curvature n K * (tol * tol))) by field.
  lra.
Qed.

Lemma signed_bound (a : list Q) (k : nat) :
  in_box a -> (k < n)%nat -> - C <= signed a k <= C.
Proof.
  intros [Hlen Hbox] Hk.
  pose proof (Forall_nth_in _ _ k 0 Hbox ltac:(lia)) as Ha.
  cbv beta in Ha. unfold Spec.signed.
  destruct (Forall_nth_in _ _ k 0 y_pm1 ltac:(lia)) as [E|E]; rewrite E; lra.
Qed.

(** The dual objective is bounded on the box. *)
Lemma dual_le_max (a : list Q) : in_box a -> dual a <= dual_max.
Proof.
  intros Hb. unfold Spec.dual, Spec.dual_max.
  assert (H1 : Spec.sumn n (fun k => nth k a 0) <= Qnat n * C).
  { rewrite <- sumn_const. apply sumn_le. intros k Hk.
    destruct Hb as [Hlen Hbox].
    apply (Forall_nth_in _ _ k 0 Hbox). lia. }
  assert (H2 : Spec.sumn n (fun k =>
                 (- signed a k)
                 * Spec.sumn n (fun l => signed a l * at2 K k l))
               <= C * C * Spec.sumn n (fun k =>
                            Spec.sumn n (fun l => Qabs (at2 K k l)))).
  { rewrite <- sumn_scal. apply sumn_le. intros k Hk.
    rewrite <- !sumn_scal. apply sumn_le. intros l Hl.
    apply product_bound; apply signed_bound; auto. }
  rewrite (sumn_ext n
    (fun k => (- signed a k) * Spec.sumn n (fun l => signed a l * at2 K k l))
    (fun k => (- (1)) * (signed a k
                         * Spec.sumn n (fun l => signed a l * at2 K k l))))
    in H2 by (intros; ring).
  rewrite sumn_scal in H2. lra.
Qed.

Lemma gain_pos : 0 < tol -> 0 < gain.
Proof.
  intros Htol. unfold Spec.gain. destruct curvature_spec as [Hk _].
  assert (0 < Spec.curvature n K * (tol * tol))
    by (repeat apply Qmult_lt_0_compat; assumption).
  setoid_replace (Spec.curvature n K * tol * tol / 2)
    with ((1 # 2) * (Spec.curvature n K * (tol * tol))) by field.
  lra.
Qed.

(** *** Every pass returns, and a pass that counts a change gains *)

Lemma pick_j_total (i : nat) :
  forall (q fuel pos : nat),
  (q < fuel)%nat -> (rnd (pos + q) mod n)%nat <> i ->
  exists j pos', SMO.pick_j n rnd fuel pos i = Done (j, pos').
Proof.
  induction q as [|q IH]; intros fuel pos Hq Hne;
    (destruct fuel as [|fuel]; [lia|]); simpl.
  - rewrite Nat.add_0_r in Hne.
    apply Nat.eqb_neq in Hne. rewrite Hne. eauto.
  - destruct (rnd pos mod n =? i)%nat; [|eauto].
    apply IH; [lia|]. now rewrite Nat.add_succ_comm.
Qed.

Hypothesis rnd_fair : Spec.fair n rnd.
Hypothesis tol_pos : 0 < tol.

Lemma step_returns (i : nat) (st : SMO.state) :
  (i < n)%nat ->
  exists fuel st', SMO.step n K y C tol rnd fuel st i = Done st'.
Proof.
  intros Hi.
  destruct (rnd_fair (SMO.randPos st) i Hi) as (q & Hne).
  destruct (pick_j_total i q (S q) (SMO.randPos st) ltac:(lia) Hne)
    as (j & pos & Hpick).
  exists (S q). unfold SMO.step.
  destruct (SMO.kkt_violated y C tol st i (SMO.E_at K y st i)); [|eauto].
  rewrite Hpick. cbn [bind].
  destruct (SMO.bounds_LH _ _ _ _ _) as [L H].
  repeat match goal with
         | |- exists _, (if ?b then _ else _) = _ => destruct b
         end; eauto.
Qed.

Lemma step_ascending (i : nat) (st0 st : SMO.state) :
  (i < n)%nat -> ascending st0 st ->
  exists fuel st', SMO.step n K y C tol rnd fuel st i = Done st'
                   /\ ascending st0 st'.
Proof.
  intros Hi (Hb & Hle & Hch).
  destruct (step_returns i st Hi) as (fuel & st' & Hs).
  exists fuel, st'. split; [exact Hs|].
  pose proof (step_in_box fuel i st st' Hi Hb Hs) as Hb'.
  pose proof gain_pos tol_pos as Hg.
  destruct (step_inv fuel i st st' Hi (proj1 Hb) Hs)
    as [Ha _ Hc _ | j Hj Hji Heta _ Hmove Ha Hc _].
  - repeat split; try apply Hb'; rewrite Ha; [exact Hle|].
    rewrite Hc. exact Hch.
  - pose proof (move_gain st i j tol_pos Hb Hi Hj (not_eq_sym Hji) Heta Hmove)
      as Hup.
    rewrite <- Ha in Hup.
    repeat split; try apply Hb'; lra.
Qed.

Lemma pass_ascending (st : SMO.state) :
  in_box (SMO.alpha st) ->
  exists fuel st', SMO.pass n K y C tol rnd fuel st = Done st'
                   /\ ascending st st'.
Proof.
  intros Hb. unfold SMO.pass.
  set (st0 := SMO.mkState _ _ _ _ _).
  apply (for_loop_total_fuel (ascending st) (seq 0 n)
           (fun fuel i s => SMO.step n K y C tol rnd fuel s i)).
  - intros f f' i s s'. apply step_monotone.
  - intros i s Hin. apply in_seq in Hin. apply step_ascending; lia.
  - unfold Spec.ascending, st0; cbn [SMO.alpha SMO.changedAlphas].
    repeat split; try apply Hb; try lra. congruence.
Qed.

(** *** The [while] loop ends *)

Lemma train_loop_budget :
  forall (m : nat) (st : SMO.state) (count fuel : nat),
  in_box (SMO.alpha st) ->
  dual_max - dual (SMO.alpha st) < Qnat m * gain ->
  (count <= max_iter)%nat ->
  (m * max_iter + (max_iter - count) <= fuel)%nat ->
  exists pickFuel st',
    SMO.train_loop n K y C tol max_iter rnd fuel pickFuel st count
      = Done (st', max_iter)
    /\ in_box (SMO.alpha st').
Proof.
  pose proof (gain_pos tol_pos) as Hg.
  induction m as [|m IHm].
  { intros st count fuel Hb Hbudget. exfalso.
    pose proof (dual_le_max _ Hb).
    change (Qnat 0) with 0 in Hbudget. lra. }
  intros st count fuel Hb Hbudget Hcount.
  remember (max_iter - count)%nat as k eqn:Hk.
  revert st count fuel Hb Hbudget Hcount Hk.
  induction k as [|k IHk]; intros st count fuel Hb Hbudget Hcount Hk Hfuel.
  - assert (count = max_iter) by lia. subst count.
    exists O, st. split; [|exact Hb].
    destruct fuel; simpl; rewrite Nat.ltb_irrefl; reflexivity.
  - destruct fuel as [|fuel]; [lia|].
    assert (Hlt : (count <? max_iter)%nat = true) by (apply Nat.ltb_lt; lia).
    destruct (pass_ascending st Hb) as (pf1 & st1 & Hpass & Hb1 & Hle & Hup).
    assert (Hrest : exists pf2 st',
               SMO.train_loop n K y C tol max_iter rnd fuel pf2 st1
                 (if (SMO.changedAlphas st1 =? 0)%nat then S count else O)
               = Done (st', max_iter) /\ in_box (SMO.alpha st')).
    { destruct (Nat.eqb_spec (SMO.changedAlphas st1) 0) as [Hz|Hnz].
      - apply IHk; auto; try lia. lra.
      - apply IHm; auto; try lia.
        specialize (Hup Hnz). rewrite Qnat_succ in Hbudget. lra. }
    destruct Hrest as (pf2 & st' & Hrun & Hb').
    exists (Nat.max pf1 pf2), st'. split; [|exact Hb'].
    simpl. rewrite Hlt.
    rewrite (pass_monotone pf1 (Nat.max pf1 pf2) st st1 (Nat.le_max_l _ _)
               Hpass).
    cbn [bind].
    apply (train_loop_monotone fuel fuel pf2 (Nat.max pf1 pf2));
      [lia | apply Nat.le_max_r | exact Hrun].
Qed.

Lemma dual_zeros : dual (arma_zeros n) == 0.
Proof.
  unfold Spec.dual.
  rewrite !sumn_zero; [ring| |].
  - intros k _. unfold Spec.signed, arma_zeros. rewrite nth_repeat. ring.
  - intros k _. unfold arma_zeros. now rewrite nth_repeat.
Qed.

Lemma zeros_in_box : 0 <= C -> in_box (arma_zeros n).
Proof.
  intros HC. split; [apply repeat_length|].
  apply Forall_forall. intros x Hx. apply repeat_spec in Hx.
  rewrite Hx. split; [apply Qle_refl | exact HC].
Qed.

Lemma train_loop_returns (b : Q) (pos fuel : nat) :
  0 <= C ->
  (Spec.pass_bound n K C tol max_iter <= fuel)%nat ->
  exists pickFuel st',
    SMO.train_loop n K y C tol max_iter rnd fuel pickFuel
      (SMO.mkState (arma_zeros n) b pos 0 []) 0
      = Done (st', max_iter)
    /\ in_box (SMO.alpha st').
Proof.
  intros HC Hfuel. unfold Spec.pass_bound in Hfuel.
  pose proof (gain_pos tol_pos) as Hg.
  apply (train_loop_budget (Spec.nat_above (dual_max / gain)));
    cbn [SMO.alpha]; try lia.
  - apply zeros_in_box, HC.
  - rewrite dual_zeros.
    pose proof (nat_above_spec (dual_max / gain)) as Hq.
    assert (Hd : dual_max == dual_max / gain * gain) by (field; lra).
    assert (Hm : dual_max / gain * gain
                 < Qnat (Spec.nat_above (dual_max / gain)) * gain)
      by (apply Qmult_lt_compat_r; assumption).
    lra.
Qed.

End LoopFacts.

(** ** The binary classifier with pruned labels *)

Lemma remap_labels_spec (labels idx : list nat) (tl : list Z) :
  PrunedLabels.remap_labels labels idx = Done tl ->
  length tl = length idx /\ Forall (fun z => z = 1%Z \/ z = (-1)%Z) tl.
Proof.
  revert tl; induction idx as [|i idx IH]; intros tl H; simpl in H.
  - inversion H; subst. auto.
  - destruct (nth_error labels i) as [l|]; [|discriminate].
    destruct (PrunedLabels.remap_labels labels idx) as [tl'| |];
      simpl in H; try discriminate.
    inversion H; subst. destruct (IH tl' eq_refl) as [Hl Hf].
    split; [simpl; congruence|].
    constructor; [destruct (l =? 0)%nat; auto | exact Hf].
Qed.

Lemma trainLabels_pm1 (tl : list Z) :
  Forall (fun z => z = 1%Z \/ z = (-1)%Z) tl ->
  Forall Spec.pm1 (map inject_Z tl).
Proof.
  intros H. apply Forall_map. eapply Forall_impl; [|exact H].
  intros z [-> | ->]; [left | right]; reflexivity.
Qed.

(** In exact arithmetic and for [0 <= C]: an iteration of the
    optimisation loop over labels that are -1 or +1 (the clip of [alpha(j)]
    to [L, H] and the compensating update of [alpha(i)]) keeps every
    coefficient within [0, C]; and every coefficient of a model that [Train]
    returns is within [0, C]. *)
Theorem alpha_within_bounds
    (point : Type) (self : PrunedLabels.KernelSVM point)
    (data : list point) (labels : list nat) (max_iter : nat) (tol : Q)
    (rnd : nat -> nat) (pos fuel : nat) :
  0 <= PrunedLabels.regularization self ->
  (forall (K : list (list Q)) (y : list Q) (st st' : SMO.state) (i : nat),
      length y = length data -> Forall Spec.pm1 y ->
      (i < length data)%nat ->
      Spec.in_box (length data) (PrunedLabels.regularization self)
        (SMO.alpha st) ->
      SMO.step (length data) K y (PrunedLabels.regularization self) tol rnd
        fuel st i = Done st' ->
      Spec.in_box (length data) (PrunedLabels.regularization self)
        (SMO.alpha st'))
  /\ (forall m : PrunedLabels.KernelSVM point,
        PrunedLabels.Train fuel rnd pos self data labels max_iter tol = Done m ->
        length (PrunedLabels.alpha m) = length data
        /\ Forall (fun a => 0 <= a <= PrunedLabels.regularization self)
             (PrunedLabels.alpha m)).
Proof.
  intros HC. split.
  - intros K y st st' i Hy Hpm Hi Hb Hs.
    eapply step_in_box; eauto.
  - intros m Hm. unfold PrunedLabels.Train in Hm.
    destruct (PrunedLabels.remap_labels labels (seq 0 (length data)))
      as [tl| |] eqn:Etl; cbn [bind] in Hm; try discriminate.
    destruct (remap_labels_spec _ _ _ Etl) as [Hlen Hpm].
    rewrite length_seq in Hlen.
    destruct (SMO.train_loop _ _ _ _ _ _ _ _ _ _ _) as [[st c]| |] eqn:Eloop;
      cbn [bind] in Hm; try discriminate.
    destruct (arma_mean (SMO.alpha st)); cbn [bind] in Hm; try discriminate.
    inversion Hm; subst; cbn [PrunedLabels.alpha].
    eapply train_loop_in_box in Eloop.
    + exact Eloop.
    + now rewrite length_map.
    + now apply trainLabels_pm1.
    + cbn [SMO.alpha]. now apply zeros_in_box.
Qed.

(** ** The training loop as a whole *)


(** In exact arithmetic, for a symmetric kernel matrix, labels that are
    -1 or +1, [0 <= C] and [0 < tol]: whatever the stream of [rand()] is, as
    long as no search for [j <> i] goes on for ever in it, the [while] loop
    started from [alpha = 0] ends within [Spec.pass_bound n K C tol max_iter]
    passes, a number that depends on neither the stream nor the labels, and
    it ends with [count = max_iter], that is after [max_iter] passes in a
    row that changed no coefficient.  Each pass evaluates at most [n]
    pairs. *)
Theorem training_loop_terminates
    (n : nat) (K : list (list Q)) (y : list Q) (C tol : Q) (max_iter : nat)
    (rnd : nat -> nat) (b : Q) (pos fuel : nat) :
  length y = n -> Forall Spec.pm1 y ->
  length K = n -> Spec.symmetric n K ->
  0 <= C -> 0 < tol ->
  Spec.fair n rnd ->
  (Spec.pass_bound n K C tol max_iter <= fuel)%nat ->
  exists pickFuel st',
    SMO.train_loop n K y C tol max_iter rnd fuel pickFuel
      (SMO.mkState (arma_zeros n) b pos 0 []) 0 = Done (st', max_iter).
Proof.
  intros Hy Hpm HK Hsym HC Htol Hfair Hfuel.
  destruct (train_loop_returns n K y C tol max_iter rnd Hy Hpm HK Hsym
              Hfair Htol b pos fuel HC Hfuel) as (pickFuel & st' & Hrun & _).
  exists pickFuel, st'. exact Hrun.
Qed.

(** ** Concrete runs *)

Lemma counting_rand_fair (n : nat) :
  (2 <= n)%nat -> Spec.fair n counting_rand.
Proof.
  intros Hn pos i Hi. unfold counting_rand.
  destruct (Nat.eq_dec (pos mod n) i) as [E|E].
  - exists 1%nat.
    rewrite Nat.Div0.add_mod. rewrite E, (Nat.mod_small 1) by lia.
    destruct (Nat.eq_dec (i + 1) n) as [E1|E1].
    + rewrite E1, Nat.Div0.mod_same. lia.
    + rewrite Nat.mod_small; lia.
  - exists 0%nat. now rewrite Nat.add_0_r.
Qed.


Lemma training_loop_terminates_witness :
  exists pickFuel st',
    SMO.train_loop 2 (kernel_matrix linear_kernel [-1; 1]) [-1; 1] 1 (1 # 2)
      1 counting_rand 34 pickFuel (SMO.mkState (arma_zeros 2) 0 0 0 []) 0
    = Done (st', 1%nat).
Proof.
  apply (training_loop_terminates 2 (kernel_matrix linear_kernel [-1; 1])
           [-1; 1] 1 (1 # 2) 1 counting_rand 0 0 34).
  - reflexivity.
  - constructor; [right; reflexivity|].
    constructor; [left; reflexivity | constructor].
  - reflexivity.
  - intros [|[|i]] [|[|j]] Hi Hj; try lia; reflexivity.
  - discriminate.
  - reflexivity.
  - apply counting_rand_fair. lia.
  - vm_compute. lia.
Defined.

Lemma alpha_within_bounds_witness :
  exists m,
    PrunedLabels.Train 10 counting_rand 0
      (PrunedLabels.mkKernelSVM 1 true linear_kernel 0 [] [] [] [])
      [-1; 1] [0; 1]%nat 1 (1 # 2) = Done m
    /\ map Qred (PrunedLabels.alpha m) = [1 # 2; 1 # 2]
    /\ length (PrunedLabels.alpha m) = 2%nat
    /\ Forall (fun a => 0 <= a <= 1) (PrunedLabels.alpha m).
Proof.
  eexists. split; [vm_compute; reflexivity|].
  split; [vm_compute; reflexivity|].
  apply (proj2 (alpha_within_bounds Q
                  (PrunedLabels.mkKernelSVM 1 true linear_kernel 0 [] [] [] [])
                  [-1; 1] [0; 1]%nat 1 (1 # 2) counting_rand 0 10
                  ltac:(discriminate))).
  vm_compute. reflexivity.
Defined.

(** ** Labels from scores *)

Lemma threshold_label_spec (threshold score : Q) :
  (threshold <= score -> threshold_label threshold score = 1%nat)
  /\ (score < threshold -> threshold_label threshold score = 0%nat).
Proof.
  unfold threshold_label, Qlt_bool.
  destruct (Qle_bool threshold score) eqn:E; simpl; bool_to_prop;
    split; intros H; try reflexivity; lra.
Qed.

Lemma arma_mean_nonempty (v : list Q) :
  v <> [] -> arma_mean v = Done (arma_sum v / Qnat (length v)).
Proof. destruct v; [congruence | reflexivity]. Qed.



(** ** The internal labels *)

Lemma remap_labels_nth (labels idx : list nat) (tl : list Z) :
  PrunedLabels.remap_labels labels idx = Done tl ->
  forall k i l, nth_error idx k = Some i -> nth_error labels i = Some l ->
  nth_error tl k = Some (if (l =? 0)%nat then (-1)%Z else 1%Z).
Proof.
  revert tl; induction idx as [|i0 idx IH]; intros tl H k i l Hk Hl;
    simpl in H.
  - destruct k; discriminate.
  - destruct (nth_error labels i0) as [l0|] eqn:E0; [|discriminate].
    destruct (PrunedLabels.remap_labels labels idx) as [tl'| |];
      simpl in H; try discriminate.
    inversion H; subst. destruct k as [|k]; simpl in *.
    + inversion Hk; subst. rewrite E0 in Hl. inversion Hl; subst. reflexivity.
    + eapply IH; eauto.
Qed.

(** C6 as stated fails: the two distinct label values 2 and 3 are both sent
    to +1 by the loop that fills [trainLabels], and to 3 and 5 by
    [2 * labels - 1]. *)
Lemma two_distinct_labels_counterexample :
  ~ (forall a b : nat, a <> b ->
       (exists sa sb : Z,
          PrunedLabels.remap_labels [a; b] [0; 1]%nat = Done [sa; sb]
          /\ ((sa = (-1)%Z /\ sb = 1%Z) \/ (sa = 1%Z /\ sb = (-1)%Z)))
       /\ (exists qa qb : Q,
             AlphaThreshold.remap_labels [a; b] = [qa; qb]
             /\ ((qa == -1 /\ qb == 1) \/ (qa == 1 /\ qb == -1)))).
Proof.
  intros H.
  destruct (H 2%nat 3%nat ltac:(discriminate)) as [(sa & sb & E & Hs) _].
  vm_compute in E. inversion E; subst.
  destruct Hs as [[X _] | [_ X]]; discriminate X.
Qed.

(** C6, amended.  At every training index, a label 0 becomes -1 and a
    label 1 becomes +1, in both versions; the pruned-label version sends
    every other label to +1 as well, the other version sends [l] to
    [2 l - 1]. *)
Theorem labels_zero_one_remapped
    (labels : list nat) (n i l : nat) (tl : list Z) :
  PrunedLabels.remap_labels labels (seq 0 n) = Done tl ->
  (i < n)%nat ->
  nth_error labels i = Some l ->
  nth_error tl i = Some (if (l =? 0)%nat then (-1)%Z else 1%Z)
  /\ (exists q, nth_error (AlphaThreshold.remap_labels labels) i = Some q
                /\ q == 2 * Qnat l - 1
                /\ (l = 0%nat -> q == -1) /\ (l = 1%nat -> q == 1)).
Proof.
  intros Hr Hi Hl. split.
  - eapply remap_labels_nth; eauto.
    rewrite nth_error_nth' with (d := O) by (rewrite length_seq; lia).
    now rewrite seq_nth.
  - unfold AlphaThreshold.remap_labels.
    exists (2 * Qnat l - 1). rewrite nth_error_map, Hl.
    repeat split; try reflexivity; intros ->; reflexivity.
Qed.

Lemma labels_zero_one_remapped_witness :
  nth_error [-1; 1; 1; -1]%Z 2 = Some 1%Z
  /\ (exists q, nth_error (AlphaThreshold.remap_labels [0; 1; 1; 0]%nat) 2
                = Some q
                /\ q == 2 * Qnat 1 - 1
                /\ (1%nat = 0%nat -> q == -1) /\ (1%nat = 1%nat -> q == 1)).
Proof.
  apply (labels_zero_one_remapped [0; 1; 1; 0]%nat 4 2 1 [-1; 1; 1; -1]%Z).
  - reflexivity.
  - lia.
  - reflexivity.
Defined.

(** ** Arguments that the specification calls invalid *)

Lemma remap_labels_total (labels idx : list nat) :
  (forall i, In i idx -> (i < length labels)%nat) ->
  exists tl, PrunedLabels.remap_labels labels idx = Done tl.
Proof.
  induction idx as [|i idx IH]; intros H; simpl; [eauto|].
  destruct (nth_error labels i) as [l|] eqn:E.
  - destruct IH as [tl ->]; [intros k Hk; apply H; now right|].
    simpl. eauto.
  - apply nth_error_None in E. specialize (H i (or_introl eq_refl)). lia.
Qed.

Section NonPositiveBound.
Variable n : nat.
Variable K : list (list Q).
Variable y : list Q.
Variable C tol : Q.
Variable max_iter : nat.
Variable rnd : nat -> nat.
Hypothesis C_nonpos : C <= 0.

Lemma step_at_zero (fuel i : nat) (st : SMO.state) :
  SMO.alpha st = arma_zeros n ->
  SMO.step n K y C tol rnd fuel st i = Done st.
Proof.
  intros Ha. unfold SMO.step, SMO.kkt_violated.
  rewrite Ha. unfold arma_zeros. rewrite nth_repeat.
  replace (Qlt_bool 0 C) with false
    by (symmetry; apply Qlt_bool_false; exact C_nonpos).
  replace (Qlt_bool 0 0) with false by reflexivity.
  now rewrite !andb_false_r.
Qed.

Lemma pass_at_zero (fuel : nat) (st : SMO.state) :
  SMO.alpha st = arma_zeros n ->
  SMO.pass n K y C tol rnd fuel st
  = Done (SMO.mkState (SMO.alpha st) (SMO.intercept st) (SMO.randPos st) 0
            (SMO.divisors st)).
Proof.
  intros Ha. unfold SMO.pass.
  generalize (seq 0 n). intros idx.
  induction idx as [|i idx IH]; simpl; [reflexivity|].
  rewrite step_at_zero by exact Ha. exact IH.
Qed.

Lemma train_loop_at_zero (pickFuel : nat) :
  forall (fuel count : nat) (st : SMO.state),
  SMO.alpha st = arma_zeros n ->
  (max_iter - count <= fuel)%nat ->
  exists st' count',
    SMO.train_loop n K y C tol max_iter rnd fuel pickFuel st count
      = Done (st', count')
    /\ SMO.alpha st' = arma_zeros n
    /\ SMO.intercept st' = SMO.intercept st.
Proof.
  induction fuel as [|fuel IH]; intros count st Ha Hf; simpl;
    destruct (Nat.ltb_spec count max_iter) as [Hlt|Hge]; try lia;
    try (exists st; exists count; repeat split; assumption).
  rewrite pass_at_zero by exact Ha. cbn [bind SMO.changedAlphas Nat.eqb].
  destruct (IH (S count)
              (SMO.mkState (SMO.alpha st) (SMO.intercept st) (SMO.randPos st)
                 0 (SMO.divisors st)) Ha ltac:(lia))
    as (st' & c' & Hrun & Ha' & Hb').
  exists st', c'. auto.
Qed.

End NonPositiveBound.


(** C3 as stated fails: with [C = 0], two points and two labels, the
    training constructor returns a model. *)
Lemma invalid_arguments_counterexample :
  ~ (forall (data : list Q) (labels : list nat) (C : Q) (fitIntercept : bool)
            (max_iter : nat) (tol : Q) (fuel : nat) (rnd : nat -> nat)
            (pos : nat),
       ((length data <= 1)%nat \/ length labels <> length data
        \/ C <= 0 \/ tol <= 0) ->
       forall m, PrunedLabels.KernelSVM_train fuel rnd pos data labels C
                   fitIntercept max_iter tol linear_kernel <> Done m).
Proof.
  intros H.
  eapply (H [-1; 1] [0; 1]%nat 0 true 1%nat (1 # 2) 1%nat counting_rand 0%nat).
  - right. right. left. discriminate.
  - vm_compute. reflexivity.
Qed.

(** C3, amended.  [Train] checks neither [C], nor [tol], nor that there are
    no more labels than points: with [C <= 0], whatever [tol] is, a
    non-empty training set and at least as many labels as points, it
    returns a model, whose coefficients are all zero and whose intercept is
    the one it started from, once [max_iter] passes are done. *)
Theorem train_validates_nothing
    (point : Type) (self : PrunedLabels.KernelSVM point) (data : list point)
    (labels : list nat) (max_iter : nat) (tol : Q) (rnd : nat -> nat)
    (pos fuel : nat) :
  PrunedLabels.regularization self <= 0 ->
  data <> [] ->
  (length data <= length labels)%nat ->
  (max_iter <= fuel)%nat ->
  exists m,
    PrunedLabels.Train fuel rnd pos self data labels max_iter tol = Done m
    /\ PrunedLabels.alpha m = arma_zeros (length data)
    /\ PrunedLabels.intercept m = PrunedLabels.intercept self.
Proof.
  intros HC Hne Hlen Hfuel.
  unfold PrunedLabels.Train.
  destruct (remap_labels_total labels (seq 0 (length data))) as [tl ->].
  { intros i Hi. apply in_seq in Hi. lia. }
  cbn [bind].
  destruct (train_loop_at_zero (length data)
              (kernel_matrix (PrunedLabels.kernel self) data)
              (map inject_Z tl) (PrunedLabels.regularization self) tol
              max_iter rnd HC fuel fuel 0
              (SMO.mkState (arma_zeros (length data))
                 (PrunedLabels.intercept self) pos 0 []) eq_refl
              ltac:(lia))
    as (st' & c' & -> & Ha & Hb).
  cbn [bind SMO.intercept] in *. rewrite Ha.
  rewrite arma_mean_nonempty
    by (destruct data; [congruence | discriminate]).
  cbn [bind]. eexists. split; [reflexivity|].
  cbn [PrunedLabels.alpha PrunedLabels.intercept]. auto.
Qed.

Lemma train_validates_nothing_witness :
  exists m,
    PrunedLabels.Train 3 counting_rand 0
      (PrunedLabels.mkKernelSVM (-1) true linear_kernel 0 [] [] [] [])
      [-1; 1] [0; 1; 1]%nat 3 (-2) = Done m
    /\ PrunedLabels.alpha m = [0; 0]
    /\ PrunedLabels.intercept m = 0.
Proof.
  apply (train_validates_nothing Q
           (PrunedLabels.mkKernelSVM (-1) true linear_kernel 0 [] [] [] [])
           [-1; 1] [0; 1; 1]%nat 3%nat (-2) counting_rand 0%nat 3%nat).
  - discriminate.
  - discriminate.
  - simpl. lia.
  - lia.
Defined.


(** ** The one-vs-one ensemble: training *)

Lemma for_pairs_app {S : Type} (ps qs : list (nat * nat))
    (body : nat -> nat -> S -> outcome S) (s : S) :
  Spec.for_pairs (ps ++ qs) body s
  = (s' <- Spec.for_pairs ps body s ;; Spec.for_pairs qs body s').
Proof.
  revert s; induction ps as [|[i j] ps IH]; intros s; simpl; [reflexivity|].
  destruct (body i j s); simpl; auto.
Qed.

Lemma for_loop_row {S : Type} (i : nat) (js : list nat)
    (body : nat -> nat -> S -> outcome S) (s : S) :
  for_loop js (fun j s => body i j s) s
  = Spec.for_pairs (map (fun j => (i, j)) js) body s.
Proof.
  revert s; induction js as [|j js IH]; intros s; simpl; [reflexivity|].
  destruct (body i j s); simpl; auto.
Qed.

Lemma for_loop_nested {S : Type} (idx : list nat) (g : nat -> list nat)
    (body : nat -> nat -> S -> outcome S) (s : S) :
  for_loop idx (fun i s => for_loop (g i) (fun j s => body i j s) s) s
  = Spec.for_pairs (flat_map (fun i => map (fun j => (i, j)) (g i)) idx)
      body s.
Proof.
  revert s; induction idx as [|i idx IH]; intros s; simpl; [reflexivity|].
  rewrite for_pairs_app, for_loop_row.
  destruct (Spec.for_pairs _ body s); simpl; auto.
Qed.

Lemma class_pairs_in (K a b : nat) :
  In (a, b) (Spec.class_pairs K) <-> (a < b < K)%nat.
Proof.
  unfold Spec.class_pairs. rewrite in_flat_map. split.
  - intros (i & Hi & Hin). apply in_seq in Hi. apply in_map_iff in Hin.
    destruct Hin as (j & Heq & Hj). apply in_seq in Hj.
    inversion Heq; subst. lia.
  - intros H. exists a. split; [apply in_seq; lia|].
    apply in_map_iff. exists b. split; [reflexivity | apply in_seq; lia].
Qed.

Lemma class_pairs_from_NoDup (K : nat) (idx : list nat) :
  NoDup idx ->
  NoDup (flat_map (fun i => map (fun j => (i, j)) (seq (S i) (K - S i))) idx).
Proof.
  induction 1 as [|i idx Hi Hnd IH]; simpl; [constructor|].
  apply NoDup_app.
  - apply Injective_map_NoDup; [|apply seq_NoDup].
    intros x z E. now inversion E.
  - exact IH.
  - intros [a b] Hin Hin'. apply in_map_iff in Hin.
    destruct Hin as (j & Heq & _). inversion Heq; subst.
    apply in_flat_map in Hin'. destruct Hin' as (i' & Hi' & Hin').
    apply in_map_iff in Hin'. destruct Hin' as (j' & Heq' & _).
    inversion Heq'; subst. contradiction.
Qed.

Lemma class_pairs_NoDup (K : nat) : NoDup (Spec.class_pairs K).
Proof. apply class_pairs_from_NoDup, seq_NoDup. Qed.

Lemma class_pairs_rows (K m : nat) :
  (m <= K)%nat ->
  (2 * length (flat_map (fun i => map (fun j => (i, j)) (seq (S i) (K - S i)))
                 (seq 0 m))
   = m * (2 * K - m - 1))%nat.
Proof.
  induction m as [|m IH]; intros Hm; [reflexivity|].
  rewrite seq_S, flat_map_app, length_app. simpl.
  rewrite length_app, length_map, length_seq. simpl.
  specialize (IH ltac:(lia)). nia.
Qed.

Lemma class_pairs_length (K : nat) :
  length (Spec.class_pairs K) = (K * (K - 1) / 2)%nat.
Proof.
  pose proof (class_pairs_rows K K (le_n K)) as H.
  unfold Spec.class_pairs.
  replace (K * (2 * K - K - 1))%nat with (K * (K - 1))%nat in H
    by (f_equal; lia).
  rewrite <- H, Nat.mul_comm, Nat.div_mul by lia. reflexivity.
Qed.

Lemma upd_middle {A : Type} (pre post : list A) (p x : A) :
  upd (length pre) x (pre ++ p :: post) = pre ++ x :: post.
Proof. induction pre as [|h pre IH]; simpl; [reflexivity | now rewrite IH]. Qed.

Lemma get_middle {A : Type} (pre post : list A) (p : A) :
  get (pre ++ p :: post) (length pre) = Done p.
Proof.
  unfold get. rewrite nth_error_app2, Nat.sub_diag by lia. reflexivity.
Qed.

Lemma for_map_total {B : Type} (idx : list nat) (f : nat -> outcome B) :
  (forall i, In i idx -> exists b, f i = Done b) ->
  exists bs, for_map idx f = Done bs /\ length bs = length idx.
Proof.
  induction idx as [|i idx IH]; intros H; simpl; [eauto|].
  destruct (H i (or_introl eq_refl)) as [b ->].
  destruct IH as (bs & -> & Hl); [intros k Hk; apply H; now right|].
  simpl. eexists. split; [reflexivity | simpl; congruence].
Qed.

Lemma arma_cols_find_total {A B : Type} (m : list A) (v : list B)
    (cond : B -> bool) :
  (length v <= length m)%nat ->
  exists cols, arma_cols m (arma_find cond v) = Done cols.
Proof.
  intros Hlen. unfold arma_cols.
  destruct (for_map_total (arma_find cond v) (get m)) as (cols & E & _);
    [|eauto].
  intros i Hi. unfold arma_find in Hi. apply filter_In in Hi.
  destruct Hi as [Hi _]. apply in_seq in Hi. unfold get.
  destruct (nth_error m i) eqn:E; [eauto|].
  apply nth_error_None in E. lia.
Qed.

Lemma to_size_t_Qnat (q : Q) (m : nat) : q == Qnat m -> to_size_t q = m.
Proof.
  intros E. unfold to_size_t. rewrite (Qfloor_comp _ _ E).
  unfold Qnat. rewrite Qfloor_Z. apply Nat2Z.id.
Qed.

(** The two expressions of the constructors, [K * ((K - 1) / 2)] and
    [K * (K - 1) / 2] in [double], are the number of pairs. *)
Lemma numClassifier_value (K : nat) :
  to_size_t (Qnat K * ((Qnat K - 1) / 2)) = length (Spec.class_pairs K)
  /\ to_size_t (Qnat K * (Qnat K - 1) / 2) = length (Spec.class_pairs K).
Proof.
  assert (H : Qnat K * (Qnat K - 1) == 2 * Qnat (length (Spec.class_pairs K))).
  { pose proof (class_pairs_rows K K (le_n K)) as H.
    fold (Spec.class_pairs K) in H.
    destruct K as [|K]; [reflexivity|].
    replace (S K * (2 * S K - S K - 1))%nat with (S K * K)%nat in H
      by (f_equal; lia).
    unfold Qeq, Qnat.
    cbn [Qnum Qden inject_Z Qmult Qminus Qplus Qopp Pos.mul].
    nia. }
  split; apply to_size_t_Qnat.
  - transitivity (Qnat K * (Qnat K - 1) / 2); [field|].
    rewrite H. field.
  - rewrite H. field.
Qed.

(** ** The one-vs-one ensemble: voting *)

Lemma for_loop_app {S : Type} (l1 l2 : list nat)
    (body : nat -> S -> outcome S) (s : S) :
  for_loop (l1 ++ l2) body s
  = (s' <- for_loop l1 body s ;; for_loop l2 body s').
Proof.
  revert s; induction l1 as [|i l1 IH]; intros s; simpl; [reflexivity|].
  destruct (body i s); simpl; auto.
Qed.

Lemma for_map_spec {B : Type} (idx : list nat) (f : nat -> outcome B)
    (bs : list B) :
  for_map idx f = Done bs ->
  length bs = length idx
  /\ forall k i, nth_error idx k = Some i ->
       exists b, nth_error bs k = Some b /\ f i = Done b.
Proof.
  revert bs; induction idx as [|i0 idx IH]; intros bs H; simpl in H.
  - inversion H; subst. split; [reflexivity|]. intros [|k] i Hk; discriminate.
  - destruct (f i0) as [b0| |] eqn:E0; simpl in H; try discriminate.
    destruct (for_map idx f) as [bs'| |]; simpl in H; try discriminate.
    inversion H; subst. destruct (IH bs' eq_refl) as [Hl Hn].
    split; [simpl; congruence|].
    intros [|k] i Hk; simpl in *.
    + inversion Hk; subst. eauto.
    + apply Hn, Hk.
Qed.

(** [arma::index_max] returns a maximum, and the first one. *)
Lemma index_max_scan_spec (w : list nat) :
  forall (v : list nat) (i b bi : nat),
  skipn i w = v -> (i <= length w)%nat ->
  (bi < i)%nat -> nth bi w 0%nat = b ->
  (forall c, (c < i)%nat -> (nth c w 0 <= b)%nat) ->
  (forall c, (c < bi)%nat -> (nth c w 0 < b)%nat) ->
  let r := index_max_scan v i (Some b) bi in
  (r < length w)%nat
  /\ (forall c, (c < length w)%nat -> (nth c w 0 <= nth r w 0)%nat)
  /\ (forall c, (c < r)%nat -> (nth c w 0 < nth r w 0)%nat).
Proof.
  induction v as [|x v IH]; intros i b bi Hv Hi Hbi Hb Hle Hlt; cbn zeta.
  - assert (length w = i).
    { apply (f_equal (@length nat)) in Hv. rewrite length_skipn in Hv.
      simpl in Hv. lia. }
    subst i. simpl. rewrite Hb. auto.
  - assert (Hx : nth i w 0%nat = x).
    { rewrite <- (firstn_skipn i w) at 1. rewrite Hv.
      rewrite app_nth2; rewrite length_firstn, Nat.min_l by lia; [|lia].
      now rewrite Nat.sub_diag. }
    assert (Hi' : (i < length w)%nat).
    { apply (f_equal (@length nat)) in Hv. rewrite length_skipn in Hv.
      simpl in Hv. lia. }
    assert (Hv' : skipn (S i) w = v).
    { rewrite <- (Nat.add_1_l i), <- skipn_skipn, Hv. reflexivity. }
    simpl. destruct (Nat.ltb_spec b x) as [Hbx|Hbx].
    + apply IH; auto; try lia.
      * intros c Hc. destruct (Nat.eq_dec c i) as [->|]; [lia|].
        specialize (Hle c ltac:(lia)). lia.
      * intros c Hc. specialize (Hle c Hc). lia.
    + apply IH; auto; try lia.
      intros c Hc. destruct (Nat.eq_dec c i) as [->|]; [lia|].
      apply Hle. lia.
Qed.

Lemma index_max_spec (w : list nat) :
  w <> [] ->
  (index_max w < length w)%nat
  /\ (forall c, (c < length w)%nat -> (nth c w 0 <= nth (index_max w) w 0)%nat)
  /\ (forall c, (c < index_max w)%nat ->
                (nth c w 0 < nth (index_max w) w 0)%nat).
Proof.
  destruct w as [|x v]; [congruence|]. intros _.
  unfold index_max. cbn [index_max_scan].
  apply (index_max_scan_spec (x :: v) v 1 x 0); simpl; auto; try lia.
  intros c Hc. assert (c = 0%nat) by lia. subst. simpl. lia.
Qed.

Section EnsembleVoting.
Variable T : Type.
Variable self : Multiclass.KernelSVM T.
Variable scores : list (list Q).
Variable i : nat.

Local Abbreviation cc := (Multiclass.classesClassifier self).

Lemma vote_effect (k : nat) (column column' : list nat) :
  Multiclass.vote self scores i k column = Done column' ->
  exists c, Spec.ballot cc scores i k = Some c
            /\ (c < length column)%nat
            /\ column' = upd c (S (nth c column 0%nat)) column.
Proof.
  unfold Multiclass.vote, Multiclass.entry, Multiclass.add_vote, get,
    Spec.ballot, Qlt_bool.
  intros H.
  destruct (nth_error scores k) as [row|]; cbn [bind] in H; [|discriminate].
  destruct (arma_mean row) as [thr| |] eqn:Em; cbn [bind] in H;
    try discriminate.
  assert (Hthr : thr = arma_sum row / Qnat (length row)).
  { destruct row; [discriminate | now inversion Em]. }
  destruct (nth_error row i) as [s|]; cbn [bind] in H; [|discriminate].
  rewrite <- Hthr.
  destruct (nth_error cc k) as [[a b]|]; cbn [bind Nat.eqb] in H.
  - destruct (Qle_bool thr s); cbn [bind negb Nat.eqb] in H.
    + destruct (nth_error column a) as [v|] eqn:Ea; cbn [bind] in H;
        [|discriminate].
      inversion H; subst. exists a. split; [reflexivity|].
      split; [apply nth_error_Some; congruence|].
      now rewrite (nth_error_nth _ _ 0%nat Ea).
    + destruct (nth_error column b) as [v|] eqn:Eb; cbn [bind] in H;
        [|discriminate].
      inversion H; subst. exists b. split; [reflexivity|].
      split; [apply nth_error_Some; congruence|].
      now rewrite (nth_error_nth _ _ 0%nat Eb).
  - destruct (Qle_bool thr s); cbn [bind negb] in H; discriminate.
Qed.

Lemma tally_succ (c m : nat) :
  Spec.tally cc scores i c (S m)
  = (Spec.tally cc scores i c m
     + match Spec.ballot cc scores i m with
       | Some c' => if (c' =? c)%nat then 1 else 0
       | None => 0
       end)%nat.
Proof.
  unfold Spec.tally. rewrite seq_S, filter_app, length_app. f_equal.
  simpl. destruct (Spec.ballot cc scores i m) as [c'|]; [|reflexivity].
  destruct (c' =? c)%nat; reflexivity.
Qed.

Lemma votes_count (m : nat) :
  forall (column0 column : list nat),
  for_loop (seq 0 m) (Multiclass.vote self scores i) column0 = Done column ->
  length column = length column0
  /\ forall c, nth c column 0%nat
               = (nth c column0 0 + Spec.tally cc scores i c m)%nat.
Proof.
  induction m as [|m IH]; intros column0 column H.
  - simpl in H. inversion H; subst. split; [reflexivity|].
    intros c. unfold Spec.tally. simpl. lia.
  - rewrite seq_S, for_loop_app in H. cbn [Nat.add] in H.
    destruct (for_loop (seq 0 m) (Multiclass.vote self scores i) column0)
      as [column1| |] eqn:E1; cbn [bind] in H; try discriminate.
    destruct (IH column0 column1 E1) as [Hl Hn].
    cbn [for_loop] in H.
    destruct (Multiclass.vote self scores i m column1) as [column2| |] eqn:E2;
      cbn [bind] in H; try discriminate.
    inversion H; subst column2.
    destruct (vote_effect m column1 column E2) as (c0 & Hb & Hc0 & ->).
    split; [rewrite upd_length; exact Hl|].
    intros c. rewrite tally_succ, Hb.
    destruct (Nat.eqb_spec c0 c) as [->|Hne].
    + rewrite nth_upd_eq by exact Hc0. rewrite Hn. lia.
    + rewrite nth_upd_neq by congruence. rewrite Hn. lia.
Qed.

End EnsembleVoting.

(** C9.  When the ensemble of at least one class returns labels for a
    batch, there is one label per query; the label of query [i] is a class
    [r] no class has more votes than, and every class of lower index has
    strictly fewer votes than [r].  The votes for class [c] are counted by
    [Spec.tally]: one vote from each of the [numClassifier] classifiers, for
    the first class of its pair when its score is at or above the mean of
    its scores over the batch and for the second class otherwise. *)
Theorem ensemble_predicts_most_voted
    (point T : Type) (classify : T -> list point -> list Q)
    (self : Multiclass.KernelSVM T) (data : list point)
    (labels : list nat) (scores : list (list Q)) :
  (0 < Multiclass.numClass self)%nat ->
  Multiclass.Classify classify self data = Done (labels, scores) ->
  length labels = length data
  /\ forall i, (i < length data)%nat ->
       exists r, nth_error labels i = Some r /\ Spec.elects self scores i r.
Proof.
  intros HK H. unfold Multiclass.Classify in H.
  destruct (Multiclass.Classify_scores classify self data) as [sc| |];
    cbn [bind] in H; try discriminate.
  destruct (for_map (seq 0 (length data)) (Multiclass.votes self sc))
    as [prediction| |] eqn:Ep; cbn [bind] in H; try discriminate.
  destruct (Nat.eqb_spec (Multiclass.numClass self) 0) as [E|_]; [lia|].
  inversion H; subst labels scores. clear H.
  destruct (for_map_spec _ _ _ Ep) as [Hl Hn]. rewrite length_seq in Hl.
  split; [now rewrite length_map|].
  intros i Hi.
  destruct (Hn i i) as (column & Hcol & Hv).
  { rewrite nth_error_nth' with (d := 0%nat) by (rewrite length_seq; lia).
    now rewrite seq_nth. }
  unfold Multiclass.votes in Hv.
  destruct (votes_count T self sc i _ _ _ Hv) as [Hlen Hcount].
  rewrite repeat_length in Hlen.
  assert (Hne : column <> []) by (destruct column; [simpl in Hlen; lia | discriminate]).
  destruct (index_max_spec column Hne) as (Hr & Hmax & Hfirst).
  exists (index_max column).
  split; [now rewrite nth_error_map, Hcol|].
  unfold Spec.elects. cbv zeta.
  split; [lia|].
  assert (Hz : forall c, nth c (repeat 0%nat (Multiclass.numClass self)) 0%nat
                         = 0%nat) by (intros; apply nth_repeat).
  split.
  - intros c Hc. specialize (Hmax c ltac:(lia)).
    rewrite !Hcount, !Hz in Hmax. exact Hmax.
  - intros c Hc. specialize (Hfirst c Hc).
    rewrite !Hcount, !Hz in Hfirst. exact Hfirst.
Qed.

Lemma ensemble_predicts_most_voted_witness :
  let self :=
    Multiclass.mkKernelSVM 1 true 3 3 [(0, 1); (0, 2); (1, 2)]%nat
      [[1; 0]; [0; 1]; [1; 1]] in
  Multiclass.Classify (fun (row : list Q) (_ : list Q) => row) self [0; 0]
  = Done ([0; 1]%nat, [[1; 0]; [0; 1]; [1; 1]])
  /\ Spec.tally (Multiclass.classesClassifier self)
       [[1; 0]; [0; 1]; [1; 1]] 0 0 3 = 1%nat
  /\ Spec.tally (Multiclass.classesClassifier self)
       [[1; 0]; [0; 1]; [1; 1]] 0 1 3 = 1%nat
  /\ Spec.tally (Multiclass.classesClassifier self)
       [[1; 0]; [0; 1]; [1; 1]] 0 2 3 = 1%nat
  /\ length [0; 1]%nat = length [0; 0]
  /\ forall i, (i < length [0; 0])%nat ->
       exists r, nth_error [0; 1]%nat i = Some r
                 /\ Spec.elects self [[1; 0]; [0; 1]; [1; 1]] i r.
Proof.
  intros self.
  split; [vm_compute; reflexivity|].
  split; [vm_compute; reflexivity|].
  split; [vm_compute; reflexivity|].
  split; [vm_compute; reflexivity|].
  apply (ensemble_predicts_most_voted Q (list Q) (fun row _ => row) self
           [0; 0] [0; 1]%nat [[1; 0]; [0; 1]; [1; 1]]).
  - simpl. lia.
  - vm_compute. reflexivity.
Defined.

(** ** Training as a whole returns a model *)

Lemma kernel_matrix_symmetric {point : Type} (kernel : point -> point -> Q)
    (data : list point) :
  (forall a b, kernel a b == kernel b a) ->
  Spec.symmetric (length data) (kernel_matrix kernel data).
Proof.
  intros Hsym i j Hi Hj.
  destruct data as [|d data']; [simpl in Hi; lia|].
  set (data := d :: data') in *.
  assert (Hat : forall a b, (a < length data)%nat -> (b < length data)%nat ->
                at2 (kernel_matrix kernel data) a b
                = kernel (nth a data d) (nth b data d)).
  { intros a b Ha Hb. unfold at2, kernel_matrix.
    rewrite (nth_indep _ [] (map (fun xj => kernel d xj) data))
      by (rewrite length_map; exact Ha).
    rewrite (map_nth (fun xi => map (fun xj => kernel xi xj) data)).
    rewrite (nth_indep _ 0 (kernel (nth a data d) d))
      by (rewrite length_map; exact Hb).
    apply (map_nth (fun xj => kernel (nth a data d) xj)). }
  rewrite !Hat by assumption. apply Hsym.
Qed.

(** In exact arithmetic: with a symmetric kernel, [0 <= C], [0 < tol], a non-empty
    training set and a label for every point, [Train] returns a model, whatever the
    stream of [rand()], as long as no search for [j <> i] goes on for ever
    in it. *)
Lemma Train_returns
    (point : Type) (self : PrunedLabels.KernelSVM point)
    (data : list point) (labels : list nat) (max_iter : nat) (tol : Q)
    (rnd : nat -> nat) (pos : nat) :
  (forall a b, PrunedLabels.kernel self a b == PrunedLabels.kernel self b a) ->
  0 <= PrunedLabels.regularization self -> 0 < tol ->
  data <> [] -> (length data <= length labels)%nat ->
  Spec.fair (length data) rnd ->
  exists fuel m,
    PrunedLabels.Train fuel rnd pos self data labels max_iter tol = Done m.
Proof.
  intros Hsym HC Htol Hne Hlen Hfair. unfold PrunedLabels.Train.
  destruct (remap_labels_total labels (seq 0 (length data))) as [tl Etl].
  { intros i Hi. apply in_seq in Hi. lia. }
  destruct (remap_labels_spec _ _ _ Etl) as [Hl Hpm].
  rewrite length_seq in Hl.
  set (K := kernel_matrix (PrunedLabels.kernel self) data).
  set (B := Spec.pass_bound (length data) K (PrunedLabels.regularization self)
              tol max_iter).
  destruct (train_loop_returns (length data) K
              (map inject_Z tl) (PrunedLabels.regularization self) tol
              max_iter rnd
              ltac:(now rewrite length_map) (trainLabels_pm1 _ Hpm)
              ltac:(unfold K, kernel_matrix; now rewrite length_map)
              (kernel_matrix_symmetric _ _ Hsym) Hfair Htol
              (PrunedLabels.intercept self) pos B HC (le_n B))
    as (pickFuel & st' & Hrun & Hb).
  exists (Nat.max B pickFuel). rewrite Etl. cbn [bind].
  rewrite (train_loop_monotone _ K _ _ _ _ rnd B (Nat.max B pickFuel)
             pickFuel (Nat.max B pickFuel) _ _ _
             (Nat.le_max_l _ _) (Nat.le_max_r _ _) Hrun).
  cbn [bind].
  rewrite arma_mean_nonempty.
  - cbn [bind]. eauto.
  - destruct Hb as [Hb _]. destruct (SMO.alpha st'); [|discriminate].
    destruct data; [congruence | discriminate].
Qed.

(** ** The version that stores [trainCoefficients] *)

Lemma trainCoefficients_pm1 (labels : list nat) :
  Forall (fun l => l = 0%nat \/ l = 1%nat) labels ->
  Forall Spec.pm1 (AlphaThreshold.remap_labels labels).
Proof.
  intros H. apply Forall_map. eapply Forall_impl; [|exact H].
  intros l [-> | ->]; [right | left]; reflexivity.
Qed.

(** In exact arithmetic, the version that computes [2 * labels - 1] keeps every
    coefficient of the model it returns between 0 and [C], when [0 <= C]
    and the input labels are 0 or 1, one per point: these are the labels it
    turns into -1 and +1. *)
Lemma trainCoefficients_alpha_within_bounds
    (point : Type) (self : AlphaThreshold.KernelSVM point)
    (data : list point) (labels : list nat) (maxIter : nat) (tol : Q)
    (rnd : nat -> nat) (pos fuel : nat) (m : AlphaThreshold.KernelSVM point) :
  0 <= AlphaThreshold.regularization self ->
  Forall (fun l => l = 0%nat \/ l = 1%nat) labels ->
  length labels = length data ->
  AlphaThreshold.Train fuel rnd pos self data labels maxIter tol = Done m ->
  Forall (fun a => 0 <= a <= AlphaThreshold.regularization self)
    (AlphaThreshold.alpha m).
Proof.
  intros HC Hl Hlen Hm. unfold AlphaThreshold.Train in Hm.
  destruct ((length labels =? length data) || (length data =? 0)
            || (maxIter =? 0))%nat; [|discriminate].
  destruct (SMO.train_loop _ _ _ _ _ _ _ _ _ _ _) as [[st c]| |] eqn:Eloop;
    cbn [bind] in Hm; try discriminate.
  destruct (nth_error (AlphaThreshold.remap_labels labels) 21);
    [|discriminate].
  inversion Hm; subst; cbn [AlphaThreshold.alpha].
  eapply train_loop_in_box in Eloop.
  - apply Eloop.
  - unfold AlphaThreshold.remap_labels. now rewrite length_map.
  - now apply trainCoefficients_pm1.
  - cbn [SMO.alpha]. now apply zeros_in_box.
Qed.

(** Outside the labels 0 and 1 that version leaves the box: with the
    labels 2 and 0 the first update moves [alpha(0)] to 3 while [C = 1]. *)
Lemma trainCoefficients_leave_box :
  exists st,
    SMO.step 2 (kernel_matrix linear_kernel [1; -1])
      (AlphaThreshold.remap_labels [2; 0]%nat) 1 (1 # 2) counting_rand 2
      (SMO.mkState (arma_zeros 2) 0 0 0 []) 0 = Done st
    /\ map Qred (SMO.alpha st) = [3; 1].
Proof. eexists. split; vm_compute; reflexivity. Qed.

(** ** The two retention policies, end to end *)

Lemma prune_labels_nth (threshold : Q) (a : list Q) (tl : list Z) (j : nat) :
  (j < length a)%nat ->
  nth j (PrunedLabels.prune_labels threshold a tl) 0
  = if Qlt_bool threshold (nth j a 0) then inject_Z (nth j tl 0%Z) else 0.
Proof.
  intros Hj. unfold PrunedLabels.prune_labels.
  rewrite (nth_indep _ 0
             ((fun i => if Qlt_bool threshold (nth i a 0)
                        then inject_Z (nth i tl 0%Z) else 0) 0%nat))
    by (rewrite length_map, length_seq; exact Hj).
  rewrite (map_nth (fun i => if Qlt_bool threshold (nth i a 0)
                             then inject_Z (nth i tl 0%Z) else 0)).
  now rewrite seq_nth.
Qed.

Lemma train_loop_length (n : nat) (K : list (list Q)) (y : list Q)
    (C tol : Q) (max_iter : nat) (rnd : nat -> nat) (fuel pickFuel : nat)
    (b : Q) (pos : nat) (st : SMO.state) (count : nat) :
  SMO.train_loop n K y C tol max_iter rnd fuel pickFuel
    (SMO.mkState (arma_zeros n) b pos 0 []) 0 = Done (st, count) ->
  length (SMO.alpha st) = n.
Proof.
  intros H. apply train_loop_divisions in H; [apply H|].
  split; [apply repeat_length | constructor].
Qed.

Lemma predict_agree
    (point : Type) (regularization : Q) (fitIntercept : bool)
    (kernel : point -> point -> Q) (intercept threshold : Q) (tl : list Z)
    (a : list Q) (data : list point) (x : point) :
  Forall (fun z => z = 1%Z \/ z = (-1)%Z) tl ->
  forall (idx : list nat) (acc : Q),
  (forall j, In j idx -> (j < length a)%nat /\ (j < length tl)%nat) ->
  AlphaThreshold.predict
    (AlphaThreshold.mkKernelSVM regularization fitIntercept kernel intercept
       (map inject_Z tl) a data)
    threshold x idx acc
  = PrunedLabels.predict
      (PrunedLabels.mkKernelSVM regularization fitIntercept kernel intercept
         tl a (PrunedLabels.prune_labels threshold a tl) data)
      x idx acc.
Proof.
  intros Hpm. induction idx as [|j idx IH]; intros acc Hidx; [reflexivity|].
  destruct (Hidx j (or_introl eq_refl)) as [Hja Hjt].
  specialize (fun acc => IH acc (fun k Hk => Hidx k (or_intror Hk))).
  cbn [AlphaThreshold.predict PrunedLabels.predict
       AlphaThreshold.alpha AlphaThreshold.trainCoefficients
       AlphaThreshold.trainingData AlphaThreshold.kernel
       PrunedLabels.alpha PrunedLabels.savedLabels
       PrunedLabels.trainingData PrunedLabels.kernel].
  rewrite prune_labels_nth by exact Hja.
  change (nth j (map inject_Z tl) 0)
    with (nth j (map inject_Z tl) (inject_Z 0)).
  rewrite (map_nth inject_Z).
  unfold Qlt_bool.
  destruct (Qle_bool (nth j a 0) threshold); cbn [negb]; [apply IH|].
  destruct (Forall_nth_in _ tl j 0%Z Hpm Hjt) as [E|E]; rewrite E; apply IH.
Qed.

(** X10.  The labels [Train] stores are zero exactly where alpha does not
    exceed the mean alpha.  So the model [Train] returns gets, from the
    scoring function that skips zero labels, the scores that the function
    comparing alpha with the mean alpha computes from the unpruned labels:
    the two source versions differ as scoring functions, not in what they
    compute after their own training. *)
Lemma pruned_scores_follow_mean_alpha
    (point : Type) (self m : PrunedLabels.KernelSVM point)
    (data : list point) (labels : list nat) (max_iter : nat) (tol : Q)
    (rnd : nat -> nat) (pos fuel : nat) (queries : list point) :
  PrunedLabels.Train fuel rnd pos self data labels max_iter tol = Done m ->
  AlphaThreshold.Classify_scores
    (AlphaThreshold.mkKernelSVM (PrunedLabels.regularization m)
       (PrunedLabels.fitIntercept m) (PrunedLabels.kernel m)
       (PrunedLabels.intercept m) (map inject_Z (PrunedLabels.trainLabels m))
       (PrunedLabels.alpha m) (PrunedLabels.trainingData m))
    queries
  = Done (PrunedLabels.Classify_scores m queries).
Proof.
  intros Hm. unfold PrunedLabels.Train in Hm.
  destruct (PrunedLabels.remap_labels labels (seq 0 (length data)))
    as [tl| |] eqn:Etl; cbn [bind] in Hm; try discriminate.
  destruct (remap_labels_spec _ _ _ Etl) as [Hl Hpm].
  rewrite length_seq in Hl.
  destruct (SMO.train_loop _ _ _ _ _ _ _ _ _ _ _) as [[st c]| |] eqn:Eloop;
    cbn [bind] in Hm; try discriminate.
  apply train_loop_length in Eloop.
  destruct (arma_mean (SMO.alpha st)) as [threshold| |] eqn:Em;
    cbn [bind] in Hm; try discriminate.
  inversion Hm; subst m; clear Hm.
  unfold AlphaThreshold.Classify_scores, PrunedLabels.Classify_scores.
  cbn [AlphaThreshold.alpha AlphaThreshold.trainingData
       AlphaThreshold.fitIntercept AlphaThreshold.intercept
       PrunedLabels.trainingData PrunedLabels.fitIntercept
       PrunedLabels.intercept PrunedLabels.alpha PrunedLabels.kernel
       PrunedLabels.regularization PrunedLabels.trainLabels].
  rewrite Em. cbn [bind]. f_equal. apply map_ext. intros x.
  rewrite predict_agree; [reflexivity | exact Hpm |].
  intros j Hj. apply in_seq in Hj. lia.
Qed.

(** ** The two retention policies on identical training data *)

Lemma Train_inv_pruned {point : Type} (self m : PrunedLabels.KernelSVM point)
    (data : list point) (labels : list nat) (max_iter : nat) (tol : Q)
    (rnd : nat -> nat) (pos fuel : nat) :
  PrunedLabels.Train fuel rnd pos self data labels max_iter tol = Done m ->
  exists tl st c threshold,
    PrunedLabels.remap_labels labels (seq 0 (length data)) = Done tl
    /\ SMO.train_loop (length data)
         (kernel_matrix (PrunedLabels.kernel self) data) (map inject_Z tl)
         (PrunedLabels.regularization self) tol max_iter rnd fuel fuel
         (SMO.mkState (arma_zeros (length data))
            (PrunedLabels.intercept self) pos 0 []) 0 = Done (st, c)
    /\ arma_mean (SMO.alpha st) = Done threshold
    /\ m = PrunedLabels.mkKernelSVM (PrunedLabels.regularization self)
             (PrunedLabels.fitIntercept self) (PrunedLabels.kernel self)
             (SMO.intercept st) tl (SMO.alpha st)
             (PrunedLabels.prune_labels threshold (SMO.alpha st) tl) data.
Proof.
  intros Hm. unfold PrunedLabels.Train in Hm.
  destruct (PrunedLabels.remap_labels labels (seq 0 (length data)))
    as [tl| |]; cbn [bind] in Hm; try discriminate.
  destruct (SMO.train_loop _ _ _ _ _ _ _ _ _ _ _) as [[st c]| |] eqn:Eloop;
    cbn [bind] in Hm; try discriminate.
  destruct (arma_mean (SMO.alpha st)) as [threshold| |] eqn:Em;
    cbn [bind] in Hm; try discriminate.
  inversion Hm. exists tl, st, c, threshold. auto.
Qed.

Lemma Train_inv_threshold {point : Type}
    (self m : AlphaThreshold.KernelSVM point)
    (data : list point) (labels : list nat) (maxIter : nat) (tol : Q)
    (rnd : nat -> nat) (pos fuel : nat) :
  AlphaThreshold.Train fuel rnd pos self data labels maxIter tol = Done m ->
  exists st c,
    SMO.train_loop (length data)
      (kernel_matrix (AlphaThreshold.kernel self) data)
      (AlphaThreshold.remap_labels labels)
      (AlphaThreshold.regularization self) tol maxIter rnd fuel fuel
      (SMO.mkState (arma_zeros (length data))
         (AlphaThreshold.intercept self) pos 0 []) 0 = Done (st, c)
    /\ m = AlphaThreshold.mkKernelSVM (AlphaThreshold.regularization self)
             (AlphaThreshold.fitIntercept self) (AlphaThreshold.kernel self)
             (SMO.intercept st) (AlphaThreshold.remap_labels labels)
             (SMO.alpha st) data.
Proof.
  intros Hm. unfold AlphaThreshold.Train in Hm.
  destruct ((length labels =? length data) || (length data =? 0)
            || (maxIter =? 0))%nat; [|discriminate].
  destruct (SMO.train_loop _ _ _ _ _ _ _ _ _ _ _) as [[st c]| |] eqn:Eloop;
    cbn [bind] in Hm; try discriminate.
  destruct (nth_error (AlphaThreshold.remap_labels labels) 21);
    [|discriminate].
  inversion Hm. exists st, c. auto.
Qed.

(** On the state that [Train] stores, the scoring function that skips the
    zero labels and the one that compares alpha with the mean alpha
    compute the same scores. *)
Lemma scores_agree_on_pruned_state
    (point : Type) (regularization : Q) (fitIntercept : bool)
    (kernel : point -> point -> Q) (intercept threshold : Q) (tl : list Z)
    (a : list Q) (data queries : list point) :
  arma_mean a = Done threshold ->
  Forall (fun z => z = 1%Z \/ z = (-1)%Z) tl ->
  length a = length data -> length tl = length data ->
  AlphaThreshold.Classify_scores
    (AlphaThreshold.mkKernelSVM regularization fitIntercept kernel intercept
       (map inject_Z tl) a data) queries
  = Done (PrunedLabels.Classify_scores
            (PrunedLabels.mkKernelSVM regularization fitIntercept kernel
               intercept tl a (PrunedLabels.prune_labels threshold a tl)
               data) queries).
Proof.
  intros Em Hpm Ha Hl.
  unfold AlphaThreshold.Classify_scores, PrunedLabels.Classify_scores.
  cbn [AlphaThreshold.alpha AlphaThreshold.trainingData
       AlphaThreshold.fitIntercept AlphaThreshold.intercept
       PrunedLabels.trainingData PrunedLabels.fitIntercept
       PrunedLabels.intercept].
  rewrite Em. cbn [bind]. f_equal. apply map_ext. intros x.
  rewrite predict_agree; [reflexivity | exact Hpm |].
  intros j Hj. apply in_seq in Hj. lia.
Qed.

(** The two versions turn the labels 0 and 1 into the same -1 and +1. *)
Lemma remap_labels_agree (labels : list nat) (tl : list Z) :
  Forall (fun l => l = 0%nat \/ l = 1%nat) labels ->
  PrunedLabels.remap_labels labels (seq 0 (length labels)) = Done tl ->
  AlphaThreshold.remap_labels labels = map inject_Z tl.
Proof.
  intros H01 Htl. destruct (remap_labels_spec _ _ _ Htl) as [Hlen _].
  rewrite length_seq in Hlen.
  unfold AlphaThreshold.remap_labels.
  apply (nth_ext _ _ (2 * Qnat 0 - 1) (inject_Z 0));
    [now rewrite !length_map|].
  intros k Hk. rewrite length_map in Hk.
  rewrite (map_nth (fun l => 2 * Qnat l - 1)), (map_nth inject_Z).
  assert (Hn : nth_error tl k
               = Some (if (nth k labels 0 =? 0)%nat then (-1)%Z else 1%Z)).
  { apply (remap_labels_nth labels (seq 0 (length labels)) tl Htl k k).
    - rewrite (nth_error_nth' _ 0%nat) by (rewrite length_seq; exact Hk).
      now rewrite seq_nth.
    - now apply nth_error_nth'. }
  rewrite (nth_error_nth _ _ 0%Z Hn).
  destruct (Forall_nth_in _ labels k 0%nat H01 Hk) as [E | E]; rewrite E;
    reflexivity.
Qed.

Lemma variants_agree_on_identical_state
    (point : Type) (C : Q) (fitIntercept : bool)
    (kernel : point -> point -> Q) (b : Q) (data : list point)
    (labels : list nat) (max_iter : nat) (tol : Q) (rnd0 rnd1 : nat -> nat)
    (pos0 fuel0 pos1 fuel1 : nat) (m0 : AlphaThreshold.KernelSVM point)
    (m1 : PrunedLabels.KernelSVM point) (queries : list point) :
  AlphaThreshold.Train fuel0 rnd0 pos0
    (AlphaThreshold.mkKernelSVM C fitIntercept kernel b [] [] [])
    data labels max_iter tol = Done m0 ->
  PrunedLabels.Train fuel1 rnd1 pos1
    (PrunedLabels.mkKernelSVM C fitIntercept kernel b [] [] [] [])
    data labels max_iter tol = Done m1 ->
  AlphaThreshold.alpha m0 = PrunedLabels.alpha m1 ->
  AlphaThreshold.intercept m0 = PrunedLabels.intercept m1 ->
  AlphaThreshold.trainCoefficients m0
  = map inject_Z (PrunedLabels.trainLabels m1) ->
  AlphaThreshold.Classify_scores m0 queries
  = Done (PrunedLabels.Classify_scores m1 queries).
Proof.
  intros H0 H1 Ha Hb Hl.
  destruct (Train_inv_threshold _ _ _ _ _ _ _ _ _ H0) as (st0 & c0 & _ & E0).
  destruct (Train_inv_pruned _ _ _ _ _ _ _ _ _ H1)
    as (tl & st & c & thr & Etl & Eloop & Em & E1).
  destruct (remap_labels_spec _ _ _ Etl) as [Hlen Hpm].
  rewrite length_seq in Hlen. apply train_loop_length in Eloop.
  subst m0 m1.
  cbn [AlphaThreshold.alpha AlphaThreshold.intercept
       AlphaThreshold.trainCoefficients AlphaThreshold.regularization
       AlphaThreshold.fitIntercept AlphaThreshold.kernel
       PrunedLabels.alpha PrunedLabels.intercept PrunedLabels.trainLabels
       PrunedLabels.regularization PrunedLabels.fitIntercept
       PrunedLabels.kernel] in *.
  rewrite Ha, Hb, Hl.
  apply scores_agree_on_pruned_state; assumption.
Qed.

(** C7 as stated fails: whenever the two versions have trained on
    identical data and hold an identical trained state (the same
    coefficients, intercept and -1/+1 labels), whatever values of [rand()]
    each of them has drawn, they give every query the same raw score. *)
Lemma retention_variants_counterexample :
  ~ (exists (point : Type) (C : Q) (fitIntercept : bool)
            (kernel : point -> point -> Q) (b : Q) (data : list point)
            (labels : list nat) (max_iter : nat) (tol : Q)
            (rnd0 rnd1 : nat -> nat) (pos0 fuel0 pos1 fuel1 : nat)
            (m0 : AlphaThreshold.KernelSVM point)
            (m1 : PrunedLabels.KernelSVM point) (query : point),
       AlphaThreshold.Train fuel0 rnd0 pos0
         (AlphaThreshold.mkKernelSVM C fitIntercept kernel b [] [] [])
         data labels max_iter tol = Done m0
       /\ PrunedLabels.Train fuel1 rnd1 pos1
            (PrunedLabels.mkKernelSVM C fitIntercept kernel b [] [] [] [])
            data labels max_iter tol = Done m1
       /\ AlphaThreshold.alpha m0 = PrunedLabels.alpha m1
       /\ AlphaThreshold.intercept m0 = PrunedLabels.intercept m1
       /\ AlphaThreshold.trainCoefficients m0
          = map inject_Z (PrunedLabels.trainLabels m1)
       /\ AlphaThreshold.Classify_scores m0 [query]
          <> Done (PrunedLabels.Classify_scores m1 [query])).
Proof.
  intros (point & C & fitIntercept & kernel & b & data & labels & max_iter
          & tol & rnd0 & rnd1 & pos0 & fuel0 & pos1 & fuel1 & m0 & m1
          & query & H0 & H1 & Ha & Hb & Hl & Hne).
  apply Hne.
  exact (variants_agree_on_identical_state point C fitIntercept kernel b
           data labels max_iter tol rnd0 rnd1 pos0 fuel0 pos1 fuel1 m0 m1
           [query] H0 H1 Ha Hb Hl).
Qed.

(** C7, amended.  On identical training data with labels 0 and 1, one
    per point, and with the same values of [rand()], the two versions end
    training in the same state (the same coefficients, the same intercept,
    the same -1/+1 labels) and their two retention rules keep the same
    stored points: the version that stores [savedLabels] zeroes a label
    where alpha does not exceed the mean alpha, which is the test the other
    version makes when it scores.  They give every query the same raw
    score. *)
Theorem trained_variants_score_alike
    (point : Type) (C : Q) (fitIntercept : bool)
    (kernel : point -> point -> Q) (b : Q) (data : list point)
    (labels : list nat) (max_iter : nat) (tol : Q) (rnd : nat -> nat)
    (pos fuel : nat) (m0 : AlphaThreshold.KernelSVM point)
    (m1 : PrunedLabels.KernelSVM point) :
  Forall (fun l => l = 0%nat \/ l = 1%nat) labels ->
  length labels = length data ->
  AlphaThreshold.Train fuel rnd pos
    (AlphaThreshold.mkKernelSVM C fitIntercept kernel b [] [] [])
    data labels max_iter tol = Done m0 ->
  PrunedLabels.Train fuel rnd pos
    (PrunedLabels.mkKernelSVM C fitIntercept kernel b [] [] [] [])
    data labels max_iter tol = Done m1 ->
  AlphaThreshold.alpha m0 = PrunedLabels.alpha m1
  /\ AlphaThreshold.intercept m0 = PrunedLabels.intercept m1
  /\ AlphaThreshold.trainCoefficients m0
     = map inject_Z (PrunedLabels.trainLabels m1)
  /\ forall queries,
       AlphaThreshold.Classify_scores m0 queries
       = Done (PrunedLabels.Classify_scores m1 queries).
Proof.
  intros H01 Hlen H0 H1.
  destruct (Train_inv_threshold _ _ _ _ _ _ _ _ _ H0)
    as (st0 & c0 & Eloop0 & E0).
  destruct (Train_inv_pruned _ _ _ _ _ _ _ _ _ H1)
    as (tl & st & c & thr & Etl & Eloop & Em & E1).
  cbn [AlphaThreshold.regularization AlphaThreshold.kernel
       AlphaThreshold.intercept AlphaThreshold.fitIntercept
       PrunedLabels.regularization PrunedLabels.kernel
       PrunedLabels.intercept PrunedLabels.fitIntercept] in *.
  rewrite <- Hlen in Etl.
  rewrite (remap_labels_agree labels tl H01 Etl) in Eloop0, E0.
  rewrite Eloop in Eloop0. inversion Eloop0; subst st0 c0.
  assert (Hall : AlphaThreshold.alpha m0 = PrunedLabels.alpha m1
                 /\ AlphaThreshold.intercept m0 = PrunedLabels.intercept m1
                 /\ AlphaThreshold.trainCoefficients m0
                    = map inject_Z (PrunedLabels.trainLabels m1))
    by (rewrite E0, E1; auto).
  destruct Hall as (Ha & Hb & Hl).
  split; [exact Ha|]. split; [exact Hb|]. split; [exact Hl|].
  intros queries.
  exact (variants_agree_on_identical_state point C fitIntercept kernel b
           data labels max_iter tol rnd rnd pos fuel pos fuel m0 m1 queries
           H0 H1 Ha Hb Hl).
Qed.

Lemma trained_variants_score_alike_witness :
  exists m0 m1,
    AlphaThreshold.Train 5 counting_rand 0
      (AlphaThreshold.mkKernelSVM 1 true linear_kernel 0 [] [] [])
      training_points training_labels 1 (1 # 10) = Done m0
    /\ PrunedLabels.Train 5 counting_rand 0
         (PrunedLabels.mkKernelSVM 1 true linear_kernel 0 [] [] [] [])
         training_points training_labels 1 (1 # 10) = Done m1
    /\ map Qred (PrunedLabels.alpha m1)
       = [0; 0; 1 # 72; 1 # 8; 0; 1 # 4; 5 # 36; 0; 0; 0; 0;
          0; 0; 0; 0; 0; 0; 0; 0; 0; 0; 0]
    /\ map Qred (PrunedLabels.Classify_scores m1 [1]) = [59 # 36]
    /\ AlphaThreshold.alpha m0 = PrunedLabels.alpha m1
    /\ AlphaThreshold.intercept m0 = PrunedLabels.intercept m1
    /\ AlphaThreshold.trainCoefficients m0
       = map inject_Z (PrunedLabels.trainLabels m1)
    /\ forall queries,
         AlphaThreshold.Classify_scores m0 queries
         = Done (PrunedLabels.Classify_scores m1 queries).
Proof.
  eexists. eexists. split; [vm_compute; reflexivity|].
  split; [vm_compute; reflexivity|].
  split; [vm_compute; reflexivity|].
  split; [vm_compute; reflexivity|].
  apply (trained_variants_score_alike Q 1 true linear_kernel 0
           training_points training_labels 1%nat (1 # 10) counting_rand
           0%nat 5%nat).
  - unfold training_labels. repeat (constructor; [auto|]). constructor.
  - reflexivity.
  - vm_compute. reflexivity.
  - vm_compute. reflexivity.
Defined.

(** * Further properties of the code *)

(** ** What the optimisation loop keeps *)

Section LoopInvariants.
Variable n : nat.
Variable K : list (list Q).
Variable y : list Q.
Variable C tol : Q.
Variable max_iter : nat.
Variable rnd : nat -> nat.
Hypothesis y_length : length y = n.
Hypothesis y_pm1 : Forall Spec.pm1 y.

(** [sum_k alpha(k) y(k)], the quantity the pairwise update leaves alone. *)
Local Abbreviation balance := (fun a : list Q =>
  Spec.sumn n (fun k => Spec.signed y a k)).

Lemma balance_moved (a : list Q) (i j : nat) (c : Q) :
  length a = n -> (i < n)%nat -> (j < n)%nat -> i <> j ->
  balance (upd i (nth i a 0 + nth i y 0 * nth j y 0 * (nth j a 0 - c))
             (upd j c a))
  == balance a.
Proof.
  intros Hlen Hi Hj Hij.
  pose proof (pm1_square _ (Forall_nth_in _ _ i 0 y_pm1 ltac:(lia))) as Hyi.
  set (t := nth j y 0 * (c - nth j a 0)).
  rewrite (sumn_ext n _
    (fun k => (Spec.signed y a k + t * (if (k =? j)%nat then 1 else 0)
               + (- t) * (if (k =? i)%nat then 1 else 0)) * 1)).
  - rewrite three_sum by assumption.
    rewrite (sumn_ext n (fun l => Spec.signed y a l * 1) (Spec.signed y a))
      by (intros; ring).
    assert (E : forall s s', s == s' -> s + t * 1 + - t * 1 == s')
      by (intros s s' Hs; rewrite Hs; ring).
    apply E. reflexivity.
  - intros k Hk. unfold Spec.signed. cbv beta.
    rewrite (nth_moved n (repeat [] n) y y_length (repeat_length _ _)
               a i j k) by assumption.
    unfold t.
    destruct (Nat.eqb_spec k j) as [Ekj|Hkj];
      destruct (Nat.eqb_spec k i) as [Eki|Hki]; subst;
      try contradiction; try ring.
    transitivity (nth i a 0 * nth i y 0
                  - nth j y 0 * (c - nth j a 0) * (nth i y 0 * nth i y 0));
      [ring|].
    rewrite Hyi. ring.
Qed.

Lemma step_balance (fuel i : nat) (st st' : SMO.state) :
  (i < n)%nat -> length (SMO.alpha st) = n ->
  SMO.step n K y C tol rnd fuel st i = Done st' ->
  length (SMO.alpha st') = n
  /\ balance (SMO.alpha st') == balance (SMO.alpha st).
Proof.
  intros Hi Hlen Hs.
  pose proof (step_inv n K y C tol rnd fuel i st st' Hi Hlen Hs) as He.
  split; [rewrite (step_effect_length n K y C tol _ _ _ He); exact Hlen|].
  destruct He as [Ha _ _ _ | j Hj Hji _ _ _ Ha _ _]; rewrite Ha;
    [reflexivity|].
  apply balance_moved; auto.
Qed.

Lemma train_loop_balance (fuel pickFuel : nat) :
  forall (st st' : SMO.state) (count count' : nat),
  length (SMO.alpha st) = n ->
  SMO.train_loop n K y C tol max_iter rnd fuel pickFuel st count
    = Done (st', count') ->
  length (SMO.alpha st') = n
  /\ balance (SMO.alpha st') == balance (SMO.alpha st).
Proof.
  induction fuel as [|fuel IH]; intros st st' count count' Hlen Hrun;
    simpl in Hrun; destruct (count <? max_iter)%nat;
    try discriminate;
    try (inversion Hrun; subst; split; [exact Hlen | reflexivity]).
  destruct (SMO.pass n K y C tol rnd pickFuel st) as [s1| |] eqn:E;
    cbn [bind] in Hrun; try discriminate.
  assert (H1 : length (SMO.alpha s1) = n
               /\ balance (SMO.alpha s1) == balance (SMO.alpha st)).
  { unfold SMO.pass in E.
    apply (for_loop_invariant
             (fun s => length (SMO.alpha s) = n
                       /\ balance (SMO.alpha s) == balance (SMO.alpha st)))
      in E; [exact E | | cbn [SMO.alpha]; split; [exact Hlen | reflexivity]].
    intros i s s' Hin [Hl Hb] Hstep. apply in_seq in Hin.
    destruct (step_balance pickFuel i s s' ltac:(lia) Hl Hstep) as [Hl' Hb'].
    split; [exact Hl'|]. rewrite Hb'. exact Hb. }
  destruct H1 as [Hl1 Hb1].
  destruct (IH _ _ _ _ Hl1 Hrun) as [Hl' Hb'].
  split; [exact Hl'|]. rewrite Hb'. exact Hb1.
Qed.

End LoopInvariants.

Lemma sumn_signed_schur (y a : list Q) :
  length a = length y ->
  arma_sum (schur a y) == Spec.sumn (length y) (fun k => Spec.signed y a k).
Proof.
  intros Hlen. rewrite arma_sum_sumn, schur_length, Hlen by exact Hlen.
  apply sumn_ext. intros k _. apply nth_schur.
Qed.

(** In exact arithmetic, the coefficients of a model that [Train] returns balance the two
    classes: [sum_k alpha(k) * trainLabels(k) = 0].  The loop starts from
    [alpha = 0] and every update moves [alpha(i)] and [alpha(j)] so that the
    sum stays as it is (exact arithmetic). *)
Theorem trained_coefficients_balance
    (point : Type) (self m : PrunedLabels.KernelSVM point)
    (data : list point) (labels : list nat) (max_iter : nat) (tol : Q)
    (rnd : nat -> nat) (pos fuel : nat) :
  PrunedLabels.Train fuel rnd pos self data labels max_iter tol = Done m ->
  length (PrunedLabels.trainLabels m) = length (PrunedLabels.alpha m)
  /\ arma_sum (schur (PrunedLabels.alpha m)
                 (map inject_Z (PrunedLabels.trainLabels m))) == 0.
Proof.
  intros Hm. unfold PrunedLabels.Train in Hm.
  destruct (PrunedLabels.remap_labels labels (seq 0 (length data)))
    as [tl| |] eqn:Etl; cbn [bind] in Hm; try discriminate.
  destruct (remap_labels_spec _ _ _ Etl) as [Hl Hpm].
  rewrite length_seq in Hl.
  destruct (SMO.train_loop _ _ _ _ _ _ _ _ _ _ _) as [[st c]| |] eqn:Eloop;
    cbn [bind] in Hm; try discriminate.
  destruct (arma_mean (SMO.alpha st)); cbn [bind] in Hm; try discriminate.
  inversion Hm; subst m; cbn [PrunedLabels.alpha PrunedLabels.trainLabels].
  assert (Hy : length (map inject_Z tl) = length data)
    by now rewrite length_map.
  apply (train_loop_balance (length data) _ (map inject_Z tl) _ _ _ _ Hy
           (trainLabels_pm1 _ Hpm)) in Eloop;
    [|apply repeat_length].
  destruct Eloop as [Hlen Hbal]. cbn [SMO.alpha] in Hbal.
  split; [congruence|].
  rewrite sumn_signed_schur by (rewrite length_map; congruence).
  rewrite Hy, Hbal.
  apply sumn_zero. intros k _. unfold Spec.signed, arma_zeros.
  rewrite nth_repeat. ring.
Qed.

Lemma trained_coefficients_balance_witness :
  exists m,
    PrunedLabels.Train 5 counting_rand 0
      (PrunedLabels.mkKernelSVM 1 true linear_kernel 0 [] [] [] [])
      training_points training_labels 1 (1 # 10) = Done m
    /\ map Qred (PrunedLabels.alpha m)
       = [0; 0; 1 # 72; 1 # 8; 0; 1 # 4; 5 # 36; 0; 0; 0; 0;
          0; 0; 0; 0; 0; 0; 0; 0; 0; 0; 0]
    /\ length (PrunedLabels.trainLabels m) = length (PrunedLabels.alpha m)
    /\ arma_sum (schur (PrunedLabels.alpha m)
                   (map inject_Z (PrunedLabels.trainLabels m))) == 0.
Proof.
  eexists. split; [vm_compute; reflexivity|].
  split; [vm_compute; reflexivity|].
  apply (trained_coefficients_balance Q
           (PrunedLabels.mkKernelSVM 1 true linear_kernel 0 [] [] [] [])
           _ training_points training_labels 1 (1 # 10) counting_rand 0 5).
  vm_compute. reflexivity.
Defined.

(** ** The ascent of the dual objective *)

Section Ascent.
Variable n : nat.
Variable K : list (list Q).
Variable y : list Q.
Variable C tol : Q.
Variable max_iter : nat.
Variable rnd : nat -> nat.
Hypothesis y_length : length y = n.
Hypothesis y_pm1 : Forall Spec.pm1 y.
Hypothesis K_length : length K = n.
Hypothesis K_symmetric : Spec.symmetric n K.
Hypothesis tol_pos : 0 < tol.

Local Abbreviation in_box := (Spec.in_box n C).
Local Abbreviation dual := (Spec.dual n K y).
Local Abbreviation gain := (Spec.gain n K tol).
Local Abbreviation rests_or_gains := (Spec.rests_or_gains n K y C tol).

Lemma step_rests_or_gains (fuel i : nat) (st0 st st' : SMO.state) :
  (i < n)%nat -> rests_or_gains st0 st ->
  SMO.step n K y C tol rnd fuel st i = Done st' ->
  rests_or_gains st0 st'.
Proof.
  intros Hi (Hb & Hle & Hrest & Hch) Hs.
  pose proof (step_in_box n K y C tol rnd y_length y_pm1 fuel i st st' Hi Hb Hs)
    as Hb'.
  pose proof (gain_pos n K tol tol_pos) as Hg.
  destruct (step_inv n K y C tol rnd fuel i st st' Hi (proj1 Hb) Hs)
    as [Ha Hi' Hc _ | j Hj Hji Heta _ Hmove Ha Hc _].
  - split; [exact Hb'|]. rewrite Ha, Hi', Hc. auto.
  - pose proof (move_gain n K y C tol y_length y_pm1 K_length K_symmetric
                  st i j tol_pos Hb Hi Hj (not_eq_sym Hji) Heta Hmove) as Hup.
    rewrite <- Ha in Hup.
    split; [exact Hb'|]. split; [lra|]. split; [rewrite Hc; discriminate|].
    intros _. lra.
Qed.

Lemma pass_rests_or_gains (fuel : nat) (st st' : SMO.state) :
  in_box (SMO.alpha st) ->
  SMO.pass n K y C tol rnd fuel st = Done st' ->
  rests_or_gains st st'.
Proof.
  intros Hb Hp. unfold SMO.pass in Hp.
  apply (for_loop_invariant (rests_or_gains st)) in Hp; [exact Hp | |].
  - intros i s s' Hin. apply in_seq in Hin.
    apply step_rests_or_gains. lia.
  - unfold Spec.rests_or_gains.
    cbn [SMO.alpha SMO.intercept SMO.changedAlphas].
    split; [exact Hb|]. split; [lra|]. split; [auto | congruence].
Qed.

Lemma train_loop_ascends (fuel pickFuel : nat) :
  forall (st st' : SMO.state) (count count' : nat),
  in_box (SMO.alpha st) ->
  SMO.train_loop n K y C tol max_iter rnd fuel pickFuel st count
    = Done (st', count') ->
  in_box (SMO.alpha st') /\ dual (SMO.alpha st) <= dual (SMO.alpha st').
Proof.
  induction fuel as [|fuel IH]; intros st st' count count' Hb Hrun;
    simpl in Hrun; destruct (count <? max_iter)%nat;
    try discriminate;
    try (inversion Hrun; subst; split; [exact Hb | lra]).
  destruct (SMO.pass n K y C tol rnd pickFuel st) as [s1| |] eqn:E;
    cbn [bind] in Hrun; try discriminate.
  destruct (pass_rests_or_gains _ _ _ Hb E) as (Hb1 & Hle1 & _).
  destruct (IH _ _ _ _ Hb1 Hrun) as [Hb' Hle']. split; [exact Hb' | lra].
Qed.

End Ascent.

(** In exact arithmetic, training never lowers the dual objective
    [sum_k alpha(k) - 1/2 sum_k sum_l alpha(k) y(k) alpha(l) y(l) K(k, l)]:
    for a symmetric kernel matrix, labels -1 or +1 and [0 < tol], the state
    in which the [while] loop ends has coefficients in the box and a dual
    objective at least that of the state it started from (exact
    arithmetic). *)
Theorem training_never_descends
    (n : nat) (K : list (list Q)) (y : list Q) (C tol : Q) (max_iter : nat)
    (rnd : nat -> nat) (fuel pickFuel : nat) (st st' : SMO.state)
    (count count' : nat) :
  length y = n -> Forall Spec.pm1 y ->
  length K = n -> Spec.symmetric n K ->
  0 < tol ->
  Spec.in_box n C (SMO.alpha st) ->
  SMO.train_loop n K y C tol max_iter rnd fuel pickFuel st count
    = Done (st', count') ->
  Spec.in_box n C (SMO.alpha st')
  /\ Spec.dual n K y (SMO.alpha st) <= Spec.dual n K y (SMO.alpha st').
Proof.
  intros Hy Hpm HK Hsym Htol Hb Hrun.
  eapply train_loop_ascends; eauto.
Qed.

(** In exact arithmetic: what [changedAlphas] tells after a pass, for a symmetric kernel
    matrix, labels -1 or +1 and [0 < tol]: when it is zero the pass has left every coefficient and the
    intercept as they were; when it is not, the dual objective has grown by
    [Spec.gain] at least, so the coefficients are not those the pass
    started from.  The stall counter of [Train] therefore counts exactly
    the passes that change no coefficient. *)
Theorem pass_counts_real_changes
    (n : nat) (K : list (list Q)) (y : list Q) (C tol : Q)
    (rnd : nat -> nat) (fuel : nat) (st st' : SMO.state) :
  length y = n -> Forall Spec.pm1 y ->
  length K = n -> Spec.symmetric n K ->
  0 < tol ->
  Spec.in_box n C (SMO.alpha st) ->
  SMO.pass n K y C tol rnd fuel st = Done st' ->
  (SMO.changedAlphas st' = O ->
   SMO.alpha st' = SMO.alpha st /\ SMO.intercept st' = SMO.intercept st)
  /\ (SMO.changedAlphas st' <> O ->
      Spec.dual n K y (SMO.alpha st) + Spec.gain n K tol
        <= Spec.dual n K y (SMO.alpha st')
      /\ SMO.alpha st' <> SMO.alpha st).
Proof.
  intros Hy Hpm HK Hsym Htol Hb Hp.
  destruct (pass_rests_or_gains n K y C tol rnd Hy Hpm HK Hsym Htol fuel
              st st' Hb Hp) as (_ & _ & Hrest & Hgain).
  split; [exact Hrest|]. intros Hch. specialize (Hgain Hch).
  split; [exact Hgain|]. intros E. rewrite E in Hgain.
  pose proof (gain_pos n K tol Htol). lra.
Qed.

Lemma two_points_symmetric :
  Spec.symmetric 2 (kernel_matrix linear_kernel [-1; 1]).
Proof. intros [|[|i]] [|[|j]] Hi Hj; try lia; reflexivity. Qed.

Lemma two_labels_pm1 : Forall Spec.pm1 [-1; 1].
Proof.
  constructor; [right; reflexivity|].
  constructor; [left; reflexivity | constructor].
Qed.

Lemma zeros_2_in_box : Spec.in_box 2 1 (arma_zeros 2).
Proof. apply zeros_in_box. discriminate. Qed.

Lemma training_never_descends_witness :
  exists st' count',
    SMO.train_loop 2 (kernel_matrix linear_kernel [-1; 1]) [-1; 1] 1 (1 # 2)
      1 counting_rand 10 2 (SMO.mkState (arma_zeros 2) 0 0 0 []) 0
    = Done (st', count')
    /\ Qred (Spec.dual 2 (kernel_matrix linear_kernel [-1; 1]) [-1; 1]
               (SMO.alpha st')) = 1 # 2
    /\ Spec.in_box 2 1 (SMO.alpha st')
    /\ Spec.dual 2 (kernel_matrix linear_kernel [-1; 1]) [-1; 1]
         (arma_zeros 2)
       <= Spec.dual 2 (kernel_matrix linear_kernel [-1; 1]) [-1; 1]
            (SMO.alpha st').
Proof.
  eexists. eexists. split; [vm_compute; reflexivity|].
  split; [vm_compute; reflexivity|].
  apply (training_never_descends 2 (kernel_matrix linear_kernel [-1; 1])
           [-1; 1] 1 (1 # 2) 1 counting_rand 10 2
           (SMO.mkState (arma_zeros 2) 0 0 0 []) _ 0 1%nat
           eq_refl two_labels_pm1 eq_refl two_points_symmetric eq_refl
           zeros_2_in_box).
  vm_compute. reflexivity.
Defined.

Lemma pass_counts_real_changes_witness :
  exists st',
    SMO.pass 2 (kernel_matrix linear_kernel [-1; 1]) [-1; 1] 1 (1 # 2)
      counting_rand 2 (SMO.mkState (arma_zeros 2) 0 0 0 []) = Done st'
    /\ SMO.changedAlphas st' = 1%nat
    /\ map Qred (SMO.alpha st') = [1 # 2; 1 # 2]
    /\ (SMO.changedAlphas st' = O ->
        SMO.alpha st' = arma_zeros 2 /\ SMO.intercept st' = 0)
    /\ (SMO.changedAlphas st' <> O ->
        Spec.dual 2 (kernel_matrix linear_kernel [-1; 1]) [-1; 1]
          (arma_zeros 2)
        + Spec.gain 2 (kernel_matrix linear_kernel [-1; 1]) (1 # 2)
          <= Spec.dual 2 (kernel_matrix linear_kernel [-1; 1]) [-1; 1]
               (SMO.alpha st')
        /\ SMO.alpha st' <> arma_zeros 2).
Proof.
  eexists. split; [vm_compute; reflexivity|].
  split; [vm_compute; reflexivity|].
  split; [vm_compute; reflexivity|].
  apply (pass_counts_real_changes 2 (kernel_matrix linear_kernel [-1; 1])
           [-1; 1] 1 (1 # 2) counting_rand 2
           (SMO.mkState (arma_zeros 2) 0 0 0 []) _
           eq_refl two_labels_pm1 eq_refl two_points_symmetric eq_refl
           zeros_2_in_box).
  vm_compute. reflexivity.
Defined.

(** ** Thresholding a batch against its own mean *)

Lemma Qnat_length_pos {A : Type} (l : list A) : l <> [] -> 0 < Qnat (length l).
Proof.
  destruct l; [congruence|]. intros _. unfold Qnat, Qlt. simpl. lia.
Qed.

Lemma arma_sum_below (m : Q) (l : list Q) :
  l <> [] -> Forall (fun s => s < m) l -> arma_sum l < Qnat (length l) * m.
Proof.
  induction l as [|s l IH]; [congruence|]. intros _ H.
  inversion H as [|? ? Hs Hl]; subst.
  cbn [arma_sum fold_right length]. fold (arma_sum l).
  rewrite Qnat_succ.
  destruct l as [|s' l'].
  - change (arma_sum []) with 0. change (Qnat (length (@nil Q))) with 0.
    lra.
  - specialize (IH ltac:(discriminate) Hl). lra.
Qed.

Lemma arma_sum_above (m : Q) (l : list Q) :
  Forall (fun s => m <= s) l ->
  Qnat (length l) * m <= arma_sum l
  /\ (arma_sum l == Qnat (length l) * m -> Forall (fun s => s == m) l).
Proof.
  induction 1 as [|s l Hs Hl [IH1 IH2]].
  - change (Qnat (length [])) with 0. change (arma_sum []) with 0.
    split; [lra | constructor].
  - cbn [arma_sum fold_right length]. fold (arma_sum l).
    rewrite Qnat_succ. split; [lra|]. intros E.
    constructor; [lra|]. apply IH2. lra.
Qed.

Lemma mean_times_length (l : list Q) :
  l <> [] ->
  Qnat (length l) * (arma_sum l / Qnat (length l)) == arma_sum l.
Proof.
  intros H. pose proof (Qnat_length_pos l H). field. lra.
Qed.

Lemma Qlt_decidable (a b : Q) : {a < b} + {~ a < b}.
Proof.
  destruct (Qlt_le_dec a b) as [H|H]; [left; exact H|].
  right. apply Qle_not_lt. exact H.
Qed.

Lemma Qle_decidable (a b : Q) : {a <= b} + {~ a <= b}.
Proof.
  destruct (Qlt_le_dec b a) as [H|H]; [|left; exact H].
  right. apply Qlt_not_le. exact H.
Qed.

(** Some score is at or above the mean. *)
Lemma some_score_above_mean (l : list Q) :
  l <> [] -> exists s, In s l /\ arma_sum l / Qnat (length l) <= s.
Proof.
  intros Hne. set (m := arma_sum l / Qnat (length l)).
  destruct (Forall_Exists_dec (fun s => s < m)
              (fun s => Qlt_decidable s m) l) as [Hall | Hex].
  - pose proof (arma_sum_below m l Hne Hall) as Hlt.
    unfold m in Hlt. rewrite mean_times_length in Hlt by exact Hne. lra.
  - apply Exists_exists in Hex. destruct Hex as (s & Hin & Hs).
    exists s. split; [exact Hin|]. apply Qnot_lt_le. exact Hs.
Qed.

(** Unless the scores are all equal, some score is below the mean. *)
Lemma some_score_below_mean (l : list Q) (a b : Q) :
  In a l -> In b l -> ~ a == b ->
  exists s, In s l /\ s < arma_sum l / Qnat (length l).
Proof.
  intros Ha Hb Hab. assert (Hne : l <> []) by (destruct l; [easy | discriminate]).
  set (m := arma_sum l / Qnat (length l)).
  destruct (Forall_Exists_dec (fun s => m <= s)
              (fun s => Qle_decidable m s) l) as [Hall | Hex].
  - destruct (arma_sum_above m l Hall) as [_ Heq].
    assert (E : Forall (fun s => s == m) l).
    { apply Heq. unfold m. now rewrite mean_times_length. }
    rewrite Forall_forall in E. exfalso. apply Hab.
    rewrite (E a Ha), (E b Hb). reflexivity.
  - apply Exists_exists in Hex. destruct Hex as (s & Hin & Hs).
    exists s. split; [exact Hin|]. apply Qnot_le_lt. exact Hs.
Qed.

Lemma threshold_label_binary (threshold score : Q) :
  threshold_label threshold score = 0%nat
  \/ threshold_label threshold score = 1%nat.
Proof.
  unfold threshold_label.
  destruct (Qle_bool threshold score), (Qlt_bool score threshold); auto.
Qed.

Lemma Classify_inv {point : Type} (self : PrunedLabels.KernelSVM point)
    (data : list point) (labels : list nat) (scores : list Q) :
  PrunedLabels.Classify self data = Done (labels, scores) ->
  scores = PrunedLabels.Classify_scores self data
  /\ scores <> []
  /\ labels = map (threshold_label (arma_sum scores / Qnat (length scores)))
                scores.
Proof.
  unfold PrunedLabels.Classify. intros H.
  destruct (PrunedLabels.Classify_scores self data) as [|s rest] eqn:E;
    [discriminate|].
  cbn [arma_mean bind] in H. inversion H; subst.
  split; [reflexivity|]. split; [discriminate | reflexivity].
Qed.

(** In exact arithmetic: whatever the model, the labels of a batch are 0 or 1, one per
    query, and never all 0: a query whose score is at or above the mean of
    the batch exists and is labelled 1.  When two queries of the batch
    have different scores, some query is labelled 0 as well, so that both
    classes are always predicted. *)
Theorem batch_labels_cover_both_classes
    (point : Type) (self : PrunedLabels.KernelSVM point) (data : list point)
    (labels : list nat) (scores : list Q) :
  PrunedLabels.Classify self data = Done (labels, scores) ->
  length labels = length data
  /\ Forall (fun l => l = 0%nat \/ l = 1%nat) labels
  /\ In 1%nat labels
  /\ ((exists a b, In a scores /\ In b scores /\ ~ a == b) ->
      In 0%nat labels).
Proof.
  intros H. destruct (Classify_inv self data labels scores H)
    as (Hs & Hne & Hl).
  subst labels. split; [|split; [|split]].
  - rewrite length_map, Hs. unfold PrunedLabels.Classify_scores.
    now rewrite length_map.
  - apply Forall_map, Forall_forall. intros s _.
    apply threshold_label_binary.
  - destruct (some_score_above_mean scores Hne) as (s & Hin & Hle).
    apply in_map_iff. exists s. split; [|exact Hin].
    now apply threshold_label_spec.
  - intros (a & b & Ha & Hb & Hab).
    destruct (some_score_below_mean scores a b Ha Hb Hab) as (s & Hin & Hlt).
    apply in_map_iff. exists s. split; [|exact Hin].
    now apply threshold_label_spec.
Qed.

Lemma batch_labels_cover_both_classes_witness :
  exists labels scores,
    PrunedLabels.Classify
      (PrunedLabels.mkKernelSVM 1 false linear_kernel 0 [-1; 1]%Z [1; 1]
         [-1; 1] [-1; 1]) [5; 6; 10] = Done (labels, scores)
    /\ labels = [0; 0; 1]%nat
    /\ length labels = 3%nat
    /\ Forall (fun l => l = 0%nat \/ l = 1%nat) labels
    /\ In 1%nat labels
    /\ ((exists a b, In a scores /\ In b scores /\ ~ a == b) ->
        In 0%nat labels).
Proof.
  eexists. eexists. split; [vm_compute; reflexivity|].
  split; [reflexivity|].
  apply (batch_labels_cover_both_classes Q
           (PrunedLabels.mkKernelSVM 1 false linear_kernel 0 [-1; 1]%Z
              [1; 1] [-1; 1] [-1; 1]) [5; 6; 10]).
  vm_compute. reflexivity.
Defined.

Lemma Qle_bool_shift (t1 t2 a b c : Q) :
  t2 == t1 + c -> b == a + c -> Qle_bool t2 b = Qle_bool t1 a.
Proof.
  intros Ht Hb. apply eq_true_iff_eq. rewrite !Qle_bool_iff, Ht, Hb.
  split; intros H; lra.
Qed.

Lemma threshold_label_shift (t1 t2 a b c : Q) :
  t2 == t1 + c -> b == a + c -> threshold_label t2 b = threshold_label t1 a.
Proof.
  intros Ht Hb. unfold threshold_label, Qlt_bool.
  now rewrite (Qle_bool_shift t1 t2 a b c Ht Hb).
Qed.

(** Shifting every score of a batch by one constant changes no label. *)
Lemma labels_shift (c : Q) (l1 l2 : list Q) :
  Forall2 (fun a b => b == a + c) l1 l2 ->
  map (threshold_label (arma_sum l2 / Qnat (length l2))) l2
  = map (threshold_label (arma_sum l1 / Qnat (length l1))) l1.
Proof.
  intros H.
  assert (Hsum : arma_sum l2 == arma_sum l1 + Qnat (length l1) * c
                 /\ length l2 = length l1).
  { induction H as [|a b l1 l2 Hab H [IH1 IH2]].
    - change (Qnat (length (@nil Q))) with 0. split; [simpl; ring | reflexivity].
    - cbn [arma_sum fold_right length]. fold (arma_sum l1) (arma_sum l2).
      rewrite Qnat_succ, IH1, Hab, IH2. split; [ring | reflexivity]. }
  destruct Hsum as [Hsum Hlen]. rewrite Hlen.
  destruct l1 as [|a0 l1'].
  { inversion H; subst. reflexivity. }
  assert (Hn : 0 < Qnat (length (a0 :: l1')))
    by (apply Qnat_length_pos; discriminate).
  assert (Ht : arma_sum l2 / Qnat (length (a0 :: l1'))
               == arma_sum (a0 :: l1') / Qnat (length (a0 :: l1')) + c)
    by (rewrite Hsum; field; lra).
  revert Ht. generalize (arma_sum l2 / Qnat (length (a0 :: l1'))).
  generalize (arma_sum (a0 :: l1') / Qnat (length (a0 :: l1'))).
  intros t1 t2 Ht. clear Hsum Hlen Hn.
  induction H as [|a b l1 l2 Hab H IH]; [reflexivity|].
  cbn [map]. rewrite IH. f_equal.
  apply (threshold_label_shift t1 t2 a b c Ht Hab).
Qed.

(** In exact arithmetic, the intercept has no effect on the labels: two models that
    differ only in [fitIntercept] and in [intercept] label every batch
    alike, because each score and the mean of the scores move by the same
    amount (exact arithmetic). *)
Theorem labels_ignore_intercept
    (point : Type) (regularization : Q) (kernel : point -> point -> Q)
    (trainLabels : list Z) (alpha savedLabels : list Q)
    (trainingData : list point)
    (fitIntercept fitIntercept' : bool) (intercept intercept' : Q)
    (data : list point) :
  PrunedLabels.Classify_labels
    (PrunedLabels.mkKernelSVM regularization fitIntercept' kernel intercept'
       trainLabels alpha savedLabels trainingData) data
  = PrunedLabels.Classify_labels
      (PrunedLabels.mkKernelSVM regularization fitIntercept kernel intercept
         trainLabels alpha savedLabels trainingData) data.
Proof.
  set (m := PrunedLabels.mkKernelSVM regularization fitIntercept kernel
              intercept trainLabels alpha savedLabels trainingData).
  set (m' := PrunedLabels.mkKernelSVM regularization fitIntercept' kernel
               intercept' trainLabels alpha savedLabels trainingData).
  set (c := (if fitIntercept' then intercept' else 0)
            - (if fitIntercept then intercept else 0)).
  assert (Hs : Forall2 (fun a b => b == a + c)
                 (PrunedLabels.Classify_scores m data)
                 (PrunedLabels.Classify_scores m' data)).
  { unfold PrunedLabels.Classify_scores.
    cbn [PrunedLabels.trainingData PrunedLabels.fitIntercept
         PrunedLabels.intercept m m'].
    assert (Hp : forall x idx acc,
               PrunedLabels.predict m' x idx acc
               = PrunedLabels.predict m x idx acc).
    { intros x idx. induction idx as [|j idx IH]; intros acc;
        [reflexivity|].
      cbn [PrunedLabels.predict]. unfold m, m' in *.
      cbn [PrunedLabels.savedLabels PrunedLabels.alpha
           PrunedLabels.trainingData PrunedLabels.kernel] in *.
      rewrite !IH. reflexivity. }
    induction data as [|x data IH]; cbn [map]; constructor; [|exact IH].
    rewrite Hp. unfold c.
    destruct fitIntercept, fitIntercept'; cbn [negb]; ring. }
  unfold PrunedLabels.Classify_labels, PrunedLabels.Classify.
  pose proof (labels_shift c _ _ Hs) as Hl.
  destruct Hs as [|a b l1 l2 Hab Hs]; [reflexivity|].
  cbn [arma_mean bind]. now rewrite Hl.
Qed.

(** ** The accuracy of the binary classifier *)

Lemma agreements_cons (t l : nat) (ts ls : list nat) :
  Spec.agreements (t :: ts) (l :: ls)
  = ((if (t =? l)%nat then 1 else 0) + Spec.agreements ts ls)%nat.
Proof.
  unfold Spec.agreements. cbn [combine filter fst snd].
  destruct (t =? l)%nat; reflexivity.
Qed.

Lemma agreements_le (ts ls : list nat) :
  (Spec.agreements ts ls <= length ls)%nat.
Proof.
  revert ts; induction ls as [|l ls IH]; intros [|t ts];
    try (cbn; lia).
  rewrite agreements_cons. cbn [length]. specialize (IH ts).
  destruct (t =? l)%nat; lia.
Qed.

Lemma agreements_all (ts ls : list nat) :
  (length ls <= length ts)%nat ->
  Spec.agreements ts ls = length ls <-> firstn (length ls) ts = ls.
Proof.
  revert ts; induction ls as [|l ls IH]; intros [|t ts] Hlen;
    cbn [length] in Hlen; try lia.
  - split; reflexivity.
  - split; reflexivity.
  - rewrite agreements_cons. cbn [length firstn].
    specialize (IH ts ltac:(lia)). pose proof (agreements_le ts ls) as Hle.
    destruct (Nat.eqb_spec t l) as [E|E].
    + subst. split; intros H.
      * f_equal. apply IH. lia.
      * injection H as H'. apply IH in H'. lia.
    + split; intros H; [lia | congruence].
Qed.

Lemma agreements_snoc (ts ls : list nat) (t l : nat) :
  length ts = length ls ->
  Spec.agreements (ts ++ [t]) (ls ++ [l])
  = (Spec.agreements ts ls + (if (t =? l)%nat then 1 else 0))%nat.
Proof.
  revert ls; induction ts as [|t' ts IH]; intros [|l' ls] Hlen;
    cbn [length] in Hlen; try lia.
  - cbn [app]. rewrite agreements_cons. cbn. lia.
  - cbn [app]. rewrite !agreements_cons, IH by lia. lia.
Qed.

Lemma firstn_succ {A : Type} (m : nat) (l : list A) (x : A) :
  nth_error l m = Some x -> firstn (S m) l = firstn m l ++ [x].
Proof.
  revert l; induction m as [|m IH]; intros [|a l] H; try discriminate.
  - cbn in H. inversion H. reflexivity.
  - cbn [nth_error] in H. cbn [firstn app]. f_equal.
    change (firstn (S m) l = firstn m l ++ [x]). now apply IH.
Qed.

Lemma agreements_firstn (ts ls : list nat) :
  (length ls <= length ts)%nat ->
  Spec.agreements (firstn (length ls) ts) ls = Spec.agreements ts ls.
Proof.
  revert ts; induction ls as [|l ls IH]; intros [|t ts] Hlen;
    cbn [length] in Hlen; try lia; try reflexivity.
  cbn [length firstn]. rewrite !agreements_cons, IH by lia. reflexivity.
Qed.

(** The counting loop of [ComputeAccuracy], run over the first [m] labels. *)
Lemma count_loop_spec (testLabels labels : list nat) (m : nat) :
  (m <= length labels)%nat -> (m <= length testLabels)%nat ->
  for_loop (seq 0 m)
    (fun i count =>
       t <- get testLabels i ;;
       l <- get labels i ;;
       Done (if (t =? l)%nat then S count else count)) 0%nat
  = Done (Spec.agreements (firstn m testLabels) (firstn m labels)).
Proof.
  induction m as [|m IH]; intros H1 H2; [reflexivity|].
  rewrite seq_S, for_loop_app, IH by lia. cbn [bind for_loop Nat.add].
  destruct (nth_error testLabels m) as [t|] eqn:Et;
    [|apply nth_error_None in Et; lia].
  destruct (nth_error labels m) as [l|] eqn:El;
    [|apply nth_error_None in El; lia].
  unfold get. rewrite Et, El. cbn [bind].
  rewrite (firstn_succ m testLabels t Et), (firstn_succ m labels l El).
  rewrite agreements_snoc
    by (rewrite !length_firstn; lia).
  destruct (t =? l)%nat; f_equal; lia.
Qed.

Lemma count_correct_spec (testLabels labels : list nat) :
  (length labels <= length testLabels)%nat ->
  PrunedLabels.count_correct testLabels labels
  = Done (Spec.agreements testLabels labels).
Proof.
  intros H. unfold PrunedLabels.count_correct.
  rewrite count_loop_spec by lia.
  rewrite firstn_all, agreements_firstn by exact H. reflexivity.
Qed.

(** The counting loop reads [testLabels] at every index of the predicted
    labels. *)
Lemma count_loop_short (testLabels labels : list nat) (m : nat) :
  (length testLabels < m)%nat \/ (length labels < m)%nat ->
  for_loop (seq 0 m)
    (fun i count =>
       t <- get testLabels i ;;
       l <- get labels i ;;
       Done (if (t =? l)%nat then S count else count)) 0%nat
  = LogicError.
Proof.
  induction m as [|m IH]; intros H; [lia|].
  rewrite seq_S, for_loop_app. cbn [Nat.add].
  destruct (Nat.le_gt_cases m (length testLabels)) as [H1|H1];
    [destruct (Nat.le_gt_cases m (length labels)) as [H2|H2]|].
  - rewrite count_loop_spec by lia. cbn [bind for_loop]. unfold get.
    destruct H as [H|H].
    + assert (E : nth_error testLabels m = None)
        by (apply nth_error_None; lia).
      rewrite E. reflexivity.
    + assert (E : nth_error labels m = None)
        by (apply nth_error_None; lia).
      rewrite E. destruct (nth_error testLabels m); reflexivity.
  - rewrite IH by (right; lia). reflexivity.
  - rewrite IH by (left; lia). reflexivity.
Qed.

Lemma Classify_labels_returns {point : Type}
    (self : PrunedLabels.KernelSVM point) (data : list point) :
  data <> [] ->
  exists labels,
    PrunedLabels.Classify_labels self data = Done labels
    /\ length labels = length data.
Proof.
  intros Hne. unfold PrunedLabels.Classify_labels, PrunedLabels.Classify.
  destruct data as [|x data]; [congruence|].
  unfold PrunedLabels.Classify_scores. cbn [map arma_mean bind].
  eexists. split; [reflexivity|]. cbn [length]. now rewrite !length_map.
Qed.

(** X6.  On a non-empty test set with at least as many test labels as
    queries, [ComputeAccuracy] returns the number of queries whose
    predicted label equals the test label, divided by the number of
    queries: a value between 0 and 1, equal to 1 exactly when every
    prediction matches.  Test labels beyond the last query are never
    read. *)
Theorem accuracy_is_share_of_agreements
    (point : Type) (self : PrunedLabels.KernelSVM point)
    (testData : list point) (testLabels : list nat) :
  testData <> [] ->
  (length testData <= length testLabels)%nat ->
  exists labels acc,
    PrunedLabels.Classify_labels self testData = Done labels
    /\ PrunedLabels.ComputeAccuracy self testData testLabels = Done acc
    /\ acc == Qnat (Spec.agreements testLabels labels)
              / Qnat (length testData)
    /\ 0 <= acc <= 1
    /\ (acc == 1 <-> firstn (length testData) testLabels = labels).
Proof.
  intros Hne Hlen.
  destruct (Classify_labels_returns self testData Hne) as (labels & Hc & Hl).
  exists labels,
    (Qnat (Spec.agreements testLabels labels) / Qnat (length labels)).
  split; [exact Hc|]. split.
  { unfold PrunedLabels.ComputeAccuracy. rewrite Hc. cbn [bind].
    rewrite count_correct_spec by lia. reflexivity. }
  assert (Hpos : 0 < Qnat (length labels)).
  { apply Qnat_length_pos. destruct labels; [|discriminate].
    destruct testData; [congruence | discriminate]. }
  pose proof (agreements_le testLabels labels) as Hle.
  assert (Hq : Qnat (Spec.agreements testLabels labels)
               <= Qnat (length labels)).
  { unfold Qnat. rewrite <- Zle_Qle. lia. }
  assert (H0 : 0 <= Qnat (Spec.agreements testLabels labels)).
  { unfold Qnat. change 0 with (inject_Z 0). rewrite <- Zle_Qle. lia. }
  split; [now rewrite Hl|]. split; [split|].
  - apply Qle_shift_div_l; [exact Hpos | rewrite Qmult_0_l; exact H0].
  - apply Qle_shift_div_r; [exact Hpos | rewrite Qmult_1_l; exact Hq].
  - rewrite <- Hl, <- (agreements_all testLabels labels) by lia.
    split; intros H.
    + assert (E : Qnat (Spec.agreements testLabels labels)
                  == Qnat (length labels)).
      { rewrite <- (Qmult_1_l (Qnat (length labels))), <- H. field. lra. }
      unfold Qnat, Qeq in E. cbn [inject_Z Qnum Qden] in E. lia.
    + rewrite H. field. lra.
Qed.

Lemma accuracy_is_share_of_agreements_witness :
  exists labels acc,
    PrunedLabels.Classify_labels
      (PrunedLabels.mkKernelSVM 1 false linear_kernel 0 [-1; 1]%Z [1; 1]
         [-1; 1] [-1; 1]) [5; 6; 10] = Done labels
    /\ PrunedLabels.ComputeAccuracy
         (PrunedLabels.mkKernelSVM 1 false linear_kernel 0 [-1; 1]%Z [1; 1]
            [-1; 1] [-1; 1]) [5; 6; 10] [0; 1; 1; 7]%nat = Done acc
    /\ acc == Qnat (Spec.agreements [0; 1; 1; 7]%nat labels)
              / Qnat (length [5; 6; 10])
    /\ 0 <= acc <= 1
    /\ (acc == 1 <-> firstn (length [5; 6; 10]) [0; 1; 1; 7]%nat = labels).
Proof.
  apply (accuracy_is_share_of_agreements Q
           (PrunedLabels.mkKernelSVM 1 false linear_kernel 0 [-1; 1]%Z
              [1; 1] [-1; 1] [-1; 1]) [5; 6; 10] [0; 1; 1; 7]%nat).
  - discriminate.
  - simpl. lia.
Defined.

(** X7.  [ComputeAccuracy] checks neither argument.  With Armadillo's
    run-time checks, an empty test set fails in the mean of the empty
    scores, and a vector of test labels shorter than the test set fails
    in the read of [testLabels(i)]: no accuracy is returned in either
    case. *)
Theorem accuracy_fails_on_empty_or_short_input
    (point : Type) (self : PrunedLabels.KernelSVM point)
    (testData : list point) (testLabels : list nat) :
  testData = [] \/ (length testLabels < length testData)%nat ->
  PrunedLabels.ComputeAccuracy self testData testLabels = LogicError.
Proof.
  intros [H|H].
  - subst. reflexivity.
  - assert (Hne : testData <> []) by (destruct testData; [cbn in H; lia | discriminate]).
    destruct (Classify_labels_returns self testData Hne) as (labels & Hc & Hl).
    unfold PrunedLabels.ComputeAccuracy. rewrite Hc. cbn [bind].
    unfold PrunedLabels.count_correct.
    rewrite count_loop_short by (left; lia). reflexivity.
Qed.

Lemma accuracy_fails_on_empty_or_short_input_witness :
  PrunedLabels.ComputeAccuracy
    (PrunedLabels.mkKernelSVM 1 false linear_kernel 0 [-1; 1]%Z [1; 1]
       [-1; 1] [-1; 1]) [5; 6; 10] [0; 1]%nat = LogicError.
Proof.
  apply (accuracy_fails_on_empty_or_short_input Q
           (PrunedLabels.mkKernelSVM 1 false linear_kernel 0 [-1; 1]%Z
              [1; 1] [-1; 1] [-1; 1]) [5; 6; 10] [0; 1]%nat).
  right. simpl. lia.
Defined.

(** ** Training on degenerate inputs, and training end to end *)


Lemma Train_returns_witness :
  exists fuel m,
    PrunedLabels.Train fuel counting_rand 0
      (PrunedLabels.mkKernelSVM 1 true linear_kernel 0 [] [] [] [])
      [-1; 1] [0; 1]%nat 1 (1 # 2) = Done m.
Proof.
  apply (Train_returns Q
           (PrunedLabels.mkKernelSVM 1 true linear_kernel 0 [] [] [] [])
           [-1; 1] [0; 1]%nat 1%nat (1 # 2) counting_rand 0%nat).
  - intros a b. unfold PrunedLabels.kernel, linear_kernel. ring.
  - discriminate.
  - reflexivity.
  - discriminate.
  - simpl. lia.
  - apply counting_rand_fair. simpl. lia.
Defined.

Lemma pruned_scores_follow_mean_alpha_witness :
  exists m,
    PrunedLabels.Train 3 counting_rand 0
      (PrunedLabels.mkKernelSVM 1 true linear_kernel 0 [] [] [] [])
      [-1; 1] [0; 1]%nat 1 (1 # 2) = Done m
    /\ AlphaThreshold.Classify_scores
         (AlphaThreshold.mkKernelSVM (PrunedLabels.regularization m)
            (PrunedLabels.fitIntercept m) (PrunedLabels.kernel m)
            (PrunedLabels.intercept m)
            (map inject_Z (PrunedLabels.trainLabels m))
            (PrunedLabels.alpha m) (PrunedLabels.trainingData m))
         [-2; 0; 5]
       = Done (PrunedLabels.Classify_scores m [-2; 0; 5]).
Proof.
  eexists. split; [vm_compute; reflexivity|].
  apply (pruned_scores_follow_mean_alpha Q
           (PrunedLabels.mkKernelSVM 1 true linear_kernel 0 [] [] [] [])
           _ [-1; 1] [0; 1]%nat 1%nat (1 # 2) counting_rand 0%nat 3%nat
           [-2; 0; 5]).
  vm_compute. reflexivity.
Defined.

Lemma trainCoefficients_alpha_within_bounds_witness :
  exists m,
    AlphaThreshold.Train 5 counting_rand 0
      (AlphaThreshold.mkKernelSVM 1 true linear_kernel 0 [] [] [])
      training_points training_labels 1 (1 # 10) = Done m
    /\ Forall (fun a => 0 <= a <= 1) (AlphaThreshold.alpha m).
Proof.
  eexists. split; [vm_compute; reflexivity|].
  apply (trainCoefficients_alpha_within_bounds Q
           (AlphaThreshold.mkKernelSVM 1 true linear_kernel 0 [] [] [])
           training_points training_labels 1%nat (1 # 10) counting_rand
           0%nat 5%nat).
  - discriminate.
  - unfold training_labels. repeat (constructor; [auto|]). constructor.
  - reflexivity.
  - vm_compute. reflexivity.
Defined.

(** X12.  The version that stores [trainCoefficients] ends [Train] with a
    read of [trainCoefficients(21)], left from debugging.  With Armadillo's
    run-time checks that read fails on fewer than twenty-two labels: on
    such a training set [Train] returns no model, whatever the other
    arguments. *)
Theorem debug_read_needs_twenty_two_labels
    (point : Type) (self : AlphaThreshold.KernelSVM point)
    (data : list point) (labels : list nat) (maxIter : nat) (tol : Q)
    (rnd : nat -> nat) (pos fuel : nat) :
  (length labels < 22)%nat ->
  forall m,
    AlphaThreshold.Train fuel rnd pos self data labels maxIter tol <> Done m.
Proof.
  intros Hlen m. unfold AlphaThreshold.Train.
  destruct ((length labels =? length data) || (length data =? 0)
            || (maxIter =? 0))%nat; [|discriminate].
  destruct (SMO.train_loop _ _ _ _ _ _ _ _ _ _ _) as [[st c]| |];
    cbn [bind]; try discriminate.
  assert (E : nth_error (AlphaThreshold.remap_labels labels) 21 = None).
  { apply nth_error_None. unfold AlphaThreshold.remap_labels.
    rewrite length_map. lia. }
  rewrite E. discriminate.
Qed.

Lemma debug_read_needs_twenty_two_labels_witness :
  AlphaThreshold.Train 3 counting_rand 0
    (AlphaThreshold.mkKernelSVM 1 true linear_kernel 0 [] [] [])
    [-1; 1] [0; 1]%nat 1 (1 # 2) = LogicError
  /\ ~ (exists m,
          AlphaThreshold.Train 3 counting_rand 0
            (AlphaThreshold.mkKernelSVM 1 true linear_kernel 0 [] [] [])
            [-1; 1] [0; 1]%nat 1 (1 # 2) = Done m).
Proof.
  split; [vm_compute; reflexivity|].
  intros [m H]. revert H.
  apply (debug_read_needs_twenty_two_labels Q
           (AlphaThreshold.mkKernelSVM 1 true linear_kernel 0 [] [] [])
           [-1; 1] [0; 1]%nat 1%nat (1 # 2) counting_rand 0%nat 3%nat).
  simpl. lia.
Defined.

(** ** The labels [Train] saves *)

Lemma arma_sum_strictly_above (m : Q) (l : list Q) :
  l <> [] -> Forall (fun s => m < s) l -> Qnat (length l) * m < arma_sum l.
Proof.
  induction l as [|s l IH]; [congruence|]. intros _ H.
  inversion H as [|? ? Hs Hl]; subst.
  cbn [arma_sum fold_right length]. fold (arma_sum l).
  rewrite Qnat_succ.
  destruct l as [|s' l'].
  - change (arma_sum []) with 0. change (Qnat (length (@nil Q))) with 0.
    lra.
  - specialize (IH ltac:(discriminate) Hl). lra.
Qed.

(** Some entry is at or below the mean. *)
Lemma some_entry_at_most_mean (l : list Q) :
  l <> [] ->
  exists j, (j < length l)%nat /\ nth j l 0 <= arma_sum l / Qnat (length l).
Proof.
  intros Hne. set (m := arma_sum l / Qnat (length l)).
  destruct (Forall_Exists_dec (fun s => m < s)
              (fun s => Qlt_decidable m s) l) as [Hall | Hex].
  - pose proof (arma_sum_strictly_above m l Hne Hall) as Hlt.
    unfold m in Hlt. rewrite mean_times_length in Hlt by exact Hne. lra.
  - apply Exists_exists in Hex. destruct Hex as (s & Hin & Hs).
    destruct (In_nth l s 0 Hin) as (j & Hj & Ej).
    exists j. split; [exact Hj|]. rewrite Ej. apply Qnot_lt_le. exact Hs.
Qed.

(** In exact arithmetic: what [Train] saves for scoring, one label per training point,
    which is the -1/+1 label of the point where its coefficient exceeds
    the mean coefficient and 0 elsewhere.  At least one saved label is 0:
    the trained model never scores with all of its training points. *)
Theorem saved_labels_drop_a_point
    (point : Type) (self m : PrunedLabels.KernelSVM point)
    (data : list point) (labels : list nat) (max_iter : nat) (tol : Q)
    (rnd : nat -> nat) (pos fuel : nat) :
  PrunedLabels.Train fuel rnd pos self data labels max_iter tol = Done m ->
  let mean := arma_sum (PrunedLabels.alpha m)
              / Qnat (length (PrunedLabels.alpha m)) in
  length (PrunedLabels.savedLabels m) = length data
  /\ (forall j, (j < length data)%nat ->
        (mean < nth j (PrunedLabels.alpha m) 0 ->
         nth j (PrunedLabels.savedLabels m) 0
         = inject_Z (nth j (PrunedLabels.trainLabels m) 0%Z))
        /\ (nth j (PrunedLabels.alpha m) 0 <= mean ->
            nth j (PrunedLabels.savedLabels m) 0 = 0))
  /\ (exists j, (j < length data)%nat
                /\ nth j (PrunedLabels.savedLabels m) 0 = 0).
Proof.
  intros Hm. unfold PrunedLabels.Train in Hm.
  destruct (PrunedLabels.remap_labels labels (seq 0 (length data)))
    as [tl| |] eqn:Etl; cbn [bind] in Hm; try discriminate.
  destruct (SMO.train_loop _ _ _ _ _ _ _ _ _ _ _) as [[st c]| |] eqn:Eloop;
    cbn [bind] in Hm; try discriminate.
  apply train_loop_length in Eloop.
  destruct (arma_mean (SMO.alpha st)) as [threshold| |] eqn:Em;
    cbn [bind] in Hm; try discriminate.
  assert (Hne : SMO.alpha st <> []) by (intros E; rewrite E in Em; discriminate).
  rewrite (arma_mean_nonempty _ Hne) in Em. inversion Em as [Ethr].
  subst threshold. inversion Hm; subst m; clear Hm Em.
  cbn [PrunedLabels.alpha PrunedLabels.savedLabels PrunedLabels.trainLabels].
  cbv zeta.
  assert (Hnth : forall j, (j < length data)%nat ->
            (arma_sum (SMO.alpha st) / Qnat (length (SMO.alpha st))
             < nth j (SMO.alpha st) 0 ->
             nth j (PrunedLabels.prune_labels
                      (arma_sum (SMO.alpha st) / Qnat (length (SMO.alpha st)))
                      (SMO.alpha st) tl) 0
             = inject_Z (nth j tl 0%Z))
            /\ (nth j (SMO.alpha st) 0
                <= arma_sum (SMO.alpha st) / Qnat (length (SMO.alpha st)) ->
                nth j (PrunedLabels.prune_labels
                         (arma_sum (SMO.alpha st)
                          / Qnat (length (SMO.alpha st)))
                         (SMO.alpha st) tl) 0 = 0)).
  { intros j Hj. rewrite prune_labels_nth by lia. split; intros H.
    - apply Qlt_bool_true in H. now rewrite H.
    - apply Qlt_bool_false in H. now rewrite H. }
  split; [|split].
  - unfold PrunedLabels.prune_labels.
    now rewrite length_map, length_seq.
  - exact Hnth.
  - destruct (some_entry_at_most_mean (SMO.alpha st) Hne) as (j & Hj & Hle).
    exists j. split; [lia|]. apply Hnth; [lia | exact Hle].
Qed.

Lemma saved_labels_drop_a_point_witness :
  exists m,
    PrunedLabels.Train 5 counting_rand 0
      (PrunedLabels.mkKernelSVM 1 true linear_kernel 0 [] [] [] [])
      training_points training_labels 1 (1 # 10) = Done m
    /\ PrunedLabels.savedLabels m
       = [0; 0; 0; 1; 0; -1; 1; 0; 0; 0; 0; 0; 0; 0; 0; 0; 0; 0; 0; 0; 0; 0]
    /\ let mean := arma_sum (PrunedLabels.alpha m)
                   / Qnat (length (PrunedLabels.alpha m)) in
       length (PrunedLabels.savedLabels m) = length training_points
       /\ (forall j, (j < length training_points)%nat ->
             (mean < nth j (PrunedLabels.alpha m) 0 ->
              nth j (PrunedLabels.savedLabels m) 0
              = inject_Z (nth j (PrunedLabels.trainLabels m) 0%Z))
             /\ (nth j (PrunedLabels.alpha m) 0 <= mean ->
                 nth j (PrunedLabels.savedLabels m) 0 = 0))
       /\ (exists j, (j < length training_points)%nat
                     /\ nth j (PrunedLabels.savedLabels m) 0 = 0).
Proof.
  eexists. split; [vm_compute; reflexivity|].
  split; [vm_compute; reflexivity|].
  apply (saved_labels_drop_a_point Q
           (PrunedLabels.mkKernelSVM 1 true linear_kernel 0 [] [] [] [])
           _ training_points training_labels 1%nat (1 # 10) counting_rand
           0%nat 5%nat).
  vm_compute. reflexivity.
Defined.

(** ** The one-vs-one ensemble: what each classifier is trained on *)

Lemma for_map_app {B : Type} (l1 l2 : list nat) (f : nat -> outcome B) :
  for_map (l1 ++ l2) f
  = (a <- for_map l1 f ;; b <- for_map l2 f ;; Done (a ++ b)).
Proof.
  induction l1 as [|i l1 IH]; cbn [app for_map bind].
  - destruct (for_map l2 f); reflexivity.
  - destruct (f i) as [x| |]; cbn [bind]; try reflexivity.
    rewrite IH. destruct (for_map l1 f) as [a| |]; cbn [bind];
      try reflexivity.
    destruct (for_map l2 f) as [b| |]; reflexivity.
Qed.

Lemma arma_find_snoc {A : Type} (cond : A -> bool) (v : list A) (x : A) :
  arma_find cond (v ++ [x])
  = arma_find cond v ++ (if cond x then [length v] else []).
Proof.
  unfold arma_find. rewrite length_app. cbn [length].
  rewrite Nat.add_1_r, seq_S, filter_app. cbn [Nat.add filter].
  rewrite nth_error_app2, Nat.sub_diag by lia. cbn [nth_error].
  f_equal. apply filter_ext_in. intros i Hi. apply in_seq in Hi.
  rewrite nth_error_app1 by lia. reflexivity.
Qed.

Lemma combine_snoc {A B : Type} (m : list A) (v : list B) (a : A) (x : B) :
  nth_error m (length v) = Some a ->
  combine m (v ++ [x]) = combine m v ++ [(a, x)].
Proof.
  revert m; induction v as [|y v IH]; intros [|b m] H; try discriminate.
  - cbn in H. inversion H. destruct m; reflexivity.
  - cbn [length nth_error] in H. cbn [app combine]. now rewrite IH.
Qed.

Lemma combine_snoc_short {A B : Type} (m : list A) (v : list B) (x : B) :
  nth_error m (length v) = None ->
  combine m (v ++ [x]) = combine m v.
Proof.
  revert m; induction v as [|y v IH]; intros [|b m] H; try discriminate;
    try reflexivity.
  cbn [length nth_error] in H. cbn [app combine]. now rewrite IH.
Qed.

(** [m.cols(arma::find(cond))], when it returns, is made of the columns of
    [m] at the positions where the condition holds. *)
Lemma arma_cols_find_inv {A B : Type} (m : list A) (cond : B -> bool)
    (v : list B) :
  forall cols,
  arma_cols m (arma_find cond v) = Done cols ->
  cols = map fst (filter (fun p => cond (snd p)) (combine m v)).
Proof.
  induction v as [|x v IH] using rev_ind; intros cols H.
  - cbn in H. inversion H. now rewrite combine_nil.
  - rewrite arma_find_snoc in H. unfold arma_cols in *.
    rewrite for_map_app in H.
    destruct (for_map (arma_find cond v) (get m)) as [c1| |];
      cbn [bind] in H; try discriminate.
    specialize (IH c1 eq_refl).
    destruct (cond x) eqn:Ex.
    + cbn [for_map bind] in H. unfold get in H.
      destruct (nth_error m (length v)) as [a|] eqn:Ea; cbn [bind] in H;
        [|discriminate].
      inversion H; subst cols. rewrite (combine_snoc m v a x Ea).
      rewrite filter_app, map_app. cbn [filter snd]. rewrite Ex.
      cbn [map fst]. now rewrite <- IH.
    + cbn [for_map bind] in H. inversion H; subst cols.
      rewrite app_nil_r.
      destruct (nth_error m (length v)) as [a|] eqn:Ea.
      * rewrite (combine_snoc m v a x Ea), filter_app. cbn [filter snd].
        rewrite Ex, app_nil_r. exact IH.
      * rewrite (combine_snoc_short m v x Ea). exact IH.
Qed.

Lemma members_self (i j : nat) (labels : list nat) :
  Spec.members i j labels labels = filter (Spec.of_pair i j) labels.
Proof.
  unfold Spec.members. induction labels as [|l labels IH]; [reflexivity|].
  cbn [combine filter snd]. destruct (Spec.of_pair i j l); cbn [map fst];
    now rewrite IH.
Qed.

Section EnsembleStructure.
Variable point : Type.
Variable KernelSVMFunction : Type.
Variable KernelSVMFunction_train :
  list point -> list nat -> Q -> bool -> nat -> nat -> nat -> Q ->
  outcome KernelSVMFunction.
Variable self : Multiclass.KernelSVM KernelSVMFunction.
Variable data : list point.
Variable labels : list nat.
Variable maxIter : nat.
Variable tol : Q.

(** Classifier [svm] is what the binary training returns on the points
    labelled [i] or [j] and on their labels, as they are. *)
Local Abbreviation trained_on := (fun (p : nat * nat) (svm : KernelSVMFunction) =>
  KernelSVMFunction_train
    (Spec.members (fst p) (snd p) data labels)
    (filter (Spec.of_pair (fst p) (snd p)) labels)
    (Multiclass.regularization self) (Multiclass.fitIntercept self)
    (fst p) (snd p) maxIter tol = Done svm).

Lemma train_pairs_inv (ps : list (nat * nat)) :
  forall (pre post : list (nat * nat)) (net : list KernelSVMFunction)
         (val : nat) (s : Multiclass.train_state KernelSVMFunction),
  Spec.for_pairs ps
    (Multiclass.train_pair point KernelSVMFunction KernelSVMFunction_train
       self data labels maxIter tol)
    (pre ++ post, net, length pre, val) = Done s ->
  (length ps <= length post)%nat
  /\ exists svms,
       s = (pre ++ ps ++ skipn (length ps) post, net ++ svms,
            (length pre + length ps)%nat, (val + length ps)%nat)
       /\ Forall2 trained_on ps svms.
Proof.
  induction ps as [|[i j] ps IH]; intros pre post net val s H.
  - cbn in H. inversion H; subst s. split; [cbn; lia|].
    exists []. cbn [length app skipn]. rewrite app_nil_r, !Nat.add_0_r.
    split; [reflexivity | constructor].
  - cbn [Spec.for_pairs] in H.
    destruct post as [|p post].
    { exfalso. unfold Multiclass.train_pair, Multiclass.set_entry, get in H.
      rewrite app_nil_r in H.
      assert (E : nth_error pre (length pre) = None)
        by (apply nth_error_None; lia).
      rewrite E in H. cbn [bind] in H. discriminate. }
    unfold Multiclass.train_pair at 1, Multiclass.set_entry in H.
    rewrite get_middle in H. destruct p as [a b]. cbn [bind Nat.eqb] in H.
    rewrite upd_middle, get_middle in H. cbn [bind Nat.eqb] in H.
    rewrite upd_middle in H.
    destruct (arma_cols data _) as [d| |] eqn:Ed; cbn [bind] in H;
      try discriminate.
    destruct (arma_cols labels _) as [l| |] eqn:El; cbn [bind] in H;
      try discriminate.
    destruct (KernelSVMFunction_train d l _ _ i j maxIter tol)
      as [svm| |] eqn:Es; cbn [bind] in H; try discriminate.
    apply arma_cols_find_inv in Ed. apply arma_cols_find_inv in El.
    change (pre ++ (i, j) :: post) with (pre ++ [(i, j)] ++ post) in H.
    rewrite app_assoc in H.
    replace (S (length pre)) with (length (pre ++ [(i, j)])) in H
      by (rewrite length_app; cbn; lia).
    destruct (IH _ _ _ _ _ H) as (Hlen & svms & Hs & Htr).
    split; [cbn [length]; lia|].
    exists (svm :: svms). split.
    + rewrite Hs, length_app. cbn [length app skipn].
      rewrite <- !app_assoc. cbn [app].
      replace (length pre + 1 + length ps)%nat
        with (length pre + S (length ps))%nat by lia.
      replace (S val + length ps)%nat with (val + S (length ps))%nat by lia.
      reflexivity.
    + constructor; [|exact Htr]. cbn [fst snd].
      rewrite <- members_self. unfold Spec.members, Spec.of_pair.
      rewrite <- Ed, <- El. exact Es.
Qed.

(** [Train], when it returns from an object with as many rows in
    [classesClassifier] as there are pairs of classes. *)
Lemma Train_inv (val : nat) (self' : Multiclass.KernelSVM KernelSVMFunction) :
  Multiclass.numClassifier self
  = length (Spec.class_pairs (Multiclass.numClass self)) ->
  Multiclass.Train KernelSVMFunction_train self data labels maxIter tol
  = Done (val, self') ->
  exists svms,
    self' = Multiclass.mkKernelSVM
              (Multiclass.regularization self) (Multiclass.fitIntercept self)
              (Multiclass.numClass self) (Multiclass.numClassifier self)
              (Spec.class_pairs (Multiclass.numClass self))
              (Multiclass.network self ++ svms)
    /\ val = length (Spec.class_pairs (Multiclass.numClass self))
    /\ Forall2 trained_on (Spec.class_pairs (Multiclass.numClass self)) svms.
Proof.
  intros Hnum H. unfold Multiclass.Train in H.
  rewrite (for_loop_nested (seq 0 (Multiclass.numClass self))
             (fun i => seq (S i) (Multiclass.numClass self - S i))
             (Multiclass.train_pair point KernelSVMFunction
                KernelSVMFunction_train self data labels maxIter tol)) in H.
  fold (Spec.class_pairs (Multiclass.numClass self)) in H.
  destruct (Spec.for_pairs _ _ _) as [[[[cc net] cnt] v]| |] eqn:E;
    cbn [bind] in H; try discriminate.
  destruct (train_pairs_inv _ [] _ _ _ _ E) as (Hlen & svms & Hs & Htr).
  inversion Hs; subst cc net cnt v. inversion H; subst val self'.
  exists svms. rewrite skipn_all2, app_nil_r
    by (rewrite repeat_length; lia).
  cbn [app length Nat.add]. auto.
Qed.

End EnsembleStructure.

Lemma KernelSVM_train_inv
    (point T : Type)
    (train : list point -> list nat -> Q -> bool -> nat -> nat -> nat -> Q ->
             outcome T)
    (data : list point) (labels : list nat) (regularization : Q)
    (fitIntercept : bool) (K maxIter : nat) (tol : Q)
    (self : Multiclass.KernelSVM T) :
  Multiclass.KernelSVM_train train data labels regularization fitIntercept
    K maxIter tol = Done self ->
  self = Multiclass.mkKernelSVM regularization fitIntercept K
           (length (Spec.class_pairs K)) (Spec.class_pairs K)
           (Multiclass.network self)
  /\ Forall2
       (fun p svm =>
          train (Spec.members (fst p) (snd p) data labels)
            (filter (Spec.of_pair (fst p) (snd p)) labels)
            regularization fitIntercept (fst p) (snd p) maxIter tol
          = Done svm)
       (Spec.class_pairs K) (Multiclass.network self).
Proof.
  unfold Multiclass.KernelSVM_train. intros H.
  destruct (Multiclass.Train _ _ _ _ _ _) as [[v self']| |] eqn:E;
    cbn [bind] in H; try discriminate.
  inversion H; subst self'. clear H.
  rewrite (proj1 (numClassifier_value K)) in E.
  apply Train_inv in E; [|reflexivity].
  destruct E as (svms & Hself & _ & Htr).
  cbn [Multiclass.regularization Multiclass.fitIntercept Multiclass.numClass
       Multiclass.numClassifier Multiclass.network app] in *.
  rewrite Hself. cbn [Multiclass.network]. split; [reflexivity | exact Htr].
Qed.

Section EnsembleReturns.
Variable point : Type.
Variable KernelSVMFunction : Type.
Variable KernelSVMFunction_train :
  list point -> list nat -> Q -> bool -> nat -> nat -> nat -> Q ->
  outcome KernelSVMFunction.
Variable self : Multiclass.KernelSVM KernelSVMFunction.
Variable data : list point.
Variable labels : list nat.
Variable maxIter : nat.
Variable tol : Q.

Hypothesis labels_within_data : (length labels <= length data)%nat.

(** The binary training returns on the points of classes [i] and [j]. *)
Local Abbreviation trains := (fun p : nat * nat =>
  exists svm,
    KernelSVMFunction_train
      (Spec.members (fst p) (snd p) data labels)
      (filter (Spec.of_pair (fst p) (snd p)) labels)
      (Multiclass.regularization self) (Multiclass.fitIntercept self)
      (fst p) (snd p) maxIter tol = Done svm).

Lemma train_pairs_total (ps : list (nat * nat)) :
  forall (pre post : list (nat * nat)) (net : list KernelSVMFunction)
         (val : nat),
  Forall trains ps ->
  (length ps <= length post)%nat ->
  exists s,
    Spec.for_pairs ps
      (Multiclass.train_pair point KernelSVMFunction KernelSVMFunction_train
         self data labels maxIter tol)
      (pre ++ post, net, length pre, val) = Done s.
Proof.
  induction ps as [|[i j] ps IH]; intros pre post net val Htr Hlen.
  - cbn [Spec.for_pairs]. eauto.
  - destruct post as [|p post]; [cbn in Hlen; lia|].
    inversion Htr as [|? ? [svm Hsvm] Hrest]; subst.
    cbn [fst snd] in Hsvm. cbn [Spec.for_pairs].
    unfold Multiclass.train_pair at 1, Multiclass.set_entry.
    rewrite get_middle. destruct p as [a b]. cbn [bind Nat.eqb].
    rewrite upd_middle, get_middle. cbn [bind Nat.eqb]. rewrite upd_middle.
    destruct (arma_cols_find_total data labels
                (fun l => (l =? i) || (l =? j))%nat labels_within_data)
      as [d Ed].
    destruct (arma_cols_find_total labels labels
                (fun l => (l =? i) || (l =? j))%nat (le_n _)) as [l El].
    rewrite Ed, El. cbn [bind].
    apply arma_cols_find_inv in Ed. apply arma_cols_find_inv in El.
    rewrite <- members_self in Hsvm. unfold Spec.members, Spec.of_pair in Hsvm.
    rewrite <- Ed, <- El in Hsvm. rewrite Hsvm. cbn [bind].
    change (pre ++ (i, j) :: post) with (pre ++ [(i, j)] ++ post).
    rewrite app_assoc.
    replace (S (length pre)) with (length (pre ++ [(i, j)]))
      by (rewrite length_app; cbn; lia).
    apply IH; [exact Hrest | cbn in Hlen; lia].
Qed.

Lemma Train_total :
  Multiclass.numClassifier self
  = length (Spec.class_pairs (Multiclass.numClass self)) ->
  Forall trains (Spec.class_pairs (Multiclass.numClass self)) ->
  exists val self',
    Multiclass.Train KernelSVMFunction_train self data labels maxIter tol
    = Done (val, self').
Proof.
  intros Hnum Htr. unfold Multiclass.Train.
  rewrite (for_loop_nested (seq 0 (Multiclass.numClass self))
             (fun i => seq (S i) (Multiclass.numClass self - S i))
             (Multiclass.train_pair point KernelSVMFunction
                KernelSVMFunction_train self data labels maxIter tol)).
  fold (Spec.class_pairs (Multiclass.numClass self)).
  destruct (train_pairs_total (Spec.class_pairs (Multiclass.numClass self))
              [] (repeat (0, 0)%nat (Multiclass.numClassifier self))
              (Multiclass.network self) 0%nat Htr
              ltac:(rewrite repeat_length; lia))
    as [[[[cc net] cnt] v] Hs].
  cbn [app length] in Hs. rewrite Hs. cbn [bind]. eauto.
Qed.

End EnsembleReturns.

Lemma ensemble_Train_returns
    (point T : Type)
    (train : list point -> list nat -> Q -> bool -> nat -> nat -> nat -> Q ->
             outcome T)
    (data : list point) (labels : list nat) (regularization : Q)
    (fitIntercept : bool) (K numClassifier maxIter : nat) (tol : Q) :
  (forall i j, (i < j < K)%nat ->
     exists s, train (Spec.members i j data labels)
                 (filter (Spec.of_pair i j) labels)
                 regularization fitIntercept i j maxIter tol = Done s) ->
  (length labels <= length data)%nat ->
  numClassifier = length (Spec.class_pairs K) ->
  exists self',
    Multiclass.Train train
      (Multiclass.mkKernelSVM regularization fitIntercept K numClassifier
         [] [])
      data labels maxIter tol
    = Done ((K * (K - 1) / 2)%nat, self')
    /\ Spec.one_classifier_per_pair K self'.
Proof.
  intros Htrain Hlen Hnum.
  set (self := Multiclass.mkKernelSVM regularization fitIntercept K
                 numClassifier [] []).
  assert (Htr : Forall
            (fun p : nat * nat =>
               exists svm,
                 train (Spec.members (fst p) (snd p) data labels)
                   (filter (Spec.of_pair (fst p) (snd p)) labels)
                   (Multiclass.regularization self)
                   (Multiclass.fitIntercept self)
                   (fst p) (snd p) maxIter tol = Done svm)
            (Spec.class_pairs (Multiclass.numClass self))).
  { apply Forall_forall. intros [i j] Hin. apply class_pairs_in in Hin.
    cbn [fst snd]. apply Htrain, Hin. }
  destruct (Train_total point T train self data labels maxIter tol Hlen
              Hnum Htr) as (val & self' & Hrun).
  destruct (Train_inv point T train self data labels maxIter tol val self'
              Hnum Hrun) as (svms & Hself & Hval & Hsv).
  apply Forall2_length in Hsv.
  cbn [Multiclass.numClass Multiclass.numClassifier Multiclass.network
       Multiclass.regularization Multiclass.fitIntercept self app]
    in Hself, Hval, Hsv.
  pose proof (class_pairs_length K) as HL.
  exists self'. split; [rewrite Hrun, Hval, HL; reflexivity|].
  rewrite Hself. unfold Spec.one_classifier_per_pair.
  cbn [Multiclass.network Multiclass.numClassifier
       Multiclass.classesClassifier].
  split; [congruence|]. split; [congruence|]. split; [congruence|].
  split; [apply class_pairs_NoDup|]. intros a b. apply class_pairs_in.
Qed.

(** C5.  When the binary training returns on the points of every pair of
    classes [i < j < K] (the subsets that [Train] passes to it) and there
    is a column of data for every label, the ensemble's [Train] returns,
    from either constructor, with [K (K - 1) / 2] binary classifiers in
    [network] and as many rows in [classesClassifier]; the rows are without
    repetition and are exactly the pairs [(a, b)] with [a < b < K]. *)
Theorem ensemble_trains_every_pair
    (point T : Type)
    (train : list point -> list nat -> Q -> bool -> nat -> nat -> nat -> Q ->
             outcome T)
    (data : list point) (labels : list nat) (regularization : Q)
    (fitIntercept : bool) (K maxIter : nat) (tol : Q) :
  (forall i j, (i < j < K)%nat ->
     exists s, train (Spec.members i j data labels)
                 (filter (Spec.of_pair i j) labels)
                 regularization fitIntercept i j maxIter tol = Done s) ->
  (length labels <= length data)%nat ->
  (exists self',
     Multiclass.KernelSVM_train train data labels regularization fitIntercept
       K maxIter tol = Done self'
     /\ Spec.one_classifier_per_pair K self')
  /\ (exists self',
        Multiclass.Train train
          (Multiclass.KernelSVM_new regularization fitIntercept K)
          data labels maxIter tol = Done ((K * (K - 1) / 2)%nat, self')
        /\ Spec.one_classifier_per_pair K self').
Proof.
  intros Htrain Hlen. destruct (numClassifier_value K) as [H1 H2]. split.
  - unfold Multiclass.KernelSVM_train.
    destruct (ensemble_Train_returns point T train data labels regularization
                fitIntercept K _ maxIter tol Htrain Hlen H1)
      as (self' & -> & HP).
    cbn [bind]. eauto.
  - unfold Multiclass.KernelSVM_new.
    apply ensemble_Train_returns; assumption.
Qed.

Lemma ensemble_trains_every_pair_witness :
  exists self',
    Multiclass.KernelSVM_train
      (fun (d : list Q) (l : list nat) (_ : Q) (_ : bool) (i j _ : nat)
           (_ : Q) =>
         if (length d <=? 1)%nat then LogicError else Done (i, j, d))
      [-5; 0; 5; -6; 1; 6] [0; 1; 2; 0; 1; 2]%nat 1 true 3 1000 (1 # 1000)
    = Done self'
    /\ Multiclass.classesClassifier self' = [(0, 1); (0, 2); (1, 2)]%nat
    /\ Multiclass.network self'
       = [((0, 1)%nat, [-5; 0; -6; 1]); ((0, 2)%nat, [-5; 5; -6; 6]);
          ((1, 2)%nat, [0; 5; 1; 6])]
    /\ Spec.one_classifier_per_pair 3 self'.
Proof.
  destruct (proj1 (ensemble_trains_every_pair Q (nat * nat * list Q)
              (fun d l _ _ i j _ _ =>
                 if (length d <=? 1)%nat then LogicError else Done (i, j, d))
              [-5; 0; 5; -6; 1; 6] [0; 1; 2; 0; 1; 2]%nat 1 true 3 1000
              (1 # 1000)
              ltac:(intros [|[|[|i]]] [|[|[|j]]] Hij; try lia; eexists;
                    vm_compute; reflexivity)
              ltac:(simpl; lia)))
    as (self' & Hrun & HP).
  exists self'. split; [exact Hrun|].
  vm_compute in Hrun. inversion Hrun; subst self'.
  split; [reflexivity|]. split; [reflexivity | exact HP].
Defined.

(** X14.  The ensemble that the training constructor returns holds its
    classifiers in the order of the pairs [(i, j)], [i < j < numClass], row
    [k] of [classesClassifier] being the pair of classifier [k]; and
    classifier [k] is what the binary training returns on the points whose
    label is [i] or [j], in the order of the data, with their labels as
    they are ([i] and [j], not 0 and 1) and with [i] and [j] as its two
    classes. *)
Theorem each_classifier_sees_its_two_classes
    (point T : Type)
    (train : list point -> list nat -> Q -> bool -> nat -> nat -> nat -> Q ->
             outcome T)
    (data : list point) (labels : list nat) (regularization : Q)
    (fitIntercept : bool) (K maxIter : nat) (tol : Q)
    (self : Multiclass.KernelSVM T) :
  Multiclass.KernelSVM_train train data labels regularization fitIntercept
    K maxIter tol = Done self ->
  Multiclass.classesClassifier self = Spec.class_pairs K
  /\ Forall2
       (fun p svm =>
          train (Spec.members (fst p) (snd p) data labels)
            (filter (Spec.of_pair (fst p) (snd p)) labels)
            regularization fitIntercept (fst p) (snd p) maxIter tol
          = Done svm)
       (Spec.class_pairs K) (Multiclass.network self).
Proof.
  intros H. destruct (KernelSVM_train_inv _ _ _ _ _ _ _ _ _ _ _ H)
    as [Hself Htr].
  split; [|exact Htr]. rewrite Hself. reflexivity.
Qed.

Lemma each_classifier_sees_its_two_classes_witness :
  exists self,
    Multiclass.KernelSVM_train
      (fun (d : list Q) (l : list nat) (_ : Q) (_ : bool) (i j _ : nat)
           (_ : Q) => Done (i, j, d, l))
      [-5; 0; 5; -6; 1; 6] [0; 1; 2; 0; 1; 2]%nat 1 true 3 1000 (1 # 1000)
    = Done self
    /\ Multiclass.network self
       = [((0, 1)%nat, [-5; 0; -6; 1], [0; 1; 0; 1]%nat);
          ((0, 2)%nat, [-5; 5; -6; 6], [0; 2; 0; 2]%nat);
          ((1, 2)%nat, [0; 5; 1; 6], [1; 2; 1; 2]%nat)]
    /\ Multiclass.classesClassifier self = Spec.class_pairs 3
    /\ Forall2
         (fun p svm =>
            Done (fst p, snd p,
                  Spec.members (fst p) (snd p) [-5; 0; 5; -6; 1; 6]
                    [0; 1; 2; 0; 1; 2]%nat,
                  filter (Spec.of_pair (fst p) (snd p))
                    [0; 1; 2; 0; 1; 2]%nat)
            = Done svm)
         (Spec.class_pairs 3) (Multiclass.network self).
Proof.
  eexists. split; [vm_compute; reflexivity|].
  split; [reflexivity|].
  apply (each_classifier_sees_its_two_classes Q
           (nat * nat * list Q * list nat)
           (fun d l _ _ i j _ _ => Done (i, j, d, l))
           [-5; 0; 5; -6; 1; 6] [0; 1; 2; 0; 1; 2]%nat 1 true 3 1000
           (1 # 1000)).
  vm_compute. reflexivity.
Defined.

(** ** The one-vs-one ensemble: training an ensemble again *)

Lemma for_map_ext_in {B : Type} (idx : list nat) (f g : nat -> outcome B) :
  (forall i, In i idx -> f i = g i) -> for_map idx f = for_map idx g.
Proof.
  induction idx as [|i idx IH]; intros H; [reflexivity|].
  cbn [for_map]. rewrite (H i (or_introl eq_refl)), IH; [reflexivity|].
  intros k Hk. apply H. now right.
Qed.

(** [Classify(data, scores)] reads the first [numClassifier] entries of
    [network] and no other. *)
Lemma Classify_scores_prefix
    (point T : Type) (classify : T -> list point -> list Q)
    (regularization : Q) (fitIntercept : bool) (K n : nat)
    (cc : list (nat * nat)) (net svms : list T) (data : list point) :
  (n <= length net)%nat ->
  Multiclass.Classify_scores classify
    (Multiclass.mkKernelSVM regularization fitIntercept K n cc (net ++ svms))
    data
  = Multiclass.Classify_scores classify
      (Multiclass.mkKernelSVM regularization fitIntercept K n cc net) data.
Proof.
  intros Hn. unfold Multiclass.Classify_scores.
  cbn [Multiclass.numClassifier Multiclass.network].
  apply for_map_ext_in. intros k Hk. apply in_seq in Hk.
  unfold get. rewrite nth_error_app1 by lia. reflexivity.
Qed.

(** X15.  [Train] appends to [network] and never clears it, while
    [Classify] reads the classifiers [0 .. numClassifier - 1].  So calling
    [Train] on an ensemble that the training constructor returned, on
    whatever data, doubles [network], keeps the old classifiers in front,
    and changes no prediction and no score: the ensemble cannot be
    trained again. *)
Theorem retraining_changes_no_prediction
    (point T : Type)
    (train : list point -> list nat -> Q -> bool -> nat -> nat -> nat -> Q ->
             outcome T)
    (classify : T -> list point -> list Q)
    (data data' : list point) (labels labels' : list nat)
    (regularization : Q) (fitIntercept : bool) (K maxIter maxIter' : nat)
    (tol tol' : Q) (self1 self2 : Multiclass.KernelSVM T) (val : nat) :
  Multiclass.KernelSVM_train train data labels regularization fitIntercept
    K maxIter tol = Done self1 ->
  Multiclass.Train train self1 data' labels' maxIter' tol'
    = Done (val, self2) ->
  length (Multiclass.network self2)
  = (2 * length (Multiclass.network self1))%nat
  /\ firstn (length (Multiclass.network self1)) (Multiclass.network self2)
     = Multiclass.network self1
  /\ forall queries,
       Multiclass.Classify classify self2 queries
       = Multiclass.Classify classify self1 queries.
Proof.
  intros H1 H2.
  destruct (KernelSVM_train_inv _ _ _ _ _ _ _ _ _ _ _ H1) as [Hself1 Htr1].
  apply Forall2_length in Htr1.
  destruct self1 as [r f k n cc net1].
  cbn [Multiclass.network] in *. inversion Hself1; subst r f k n cc.
  clear Hself1.
  apply Train_inv in H2; [|reflexivity].
  destruct H2 as (svms & Hself2 & _ & Htr2).
  apply Forall2_length in Htr2.
  cbn [Multiclass.regularization Multiclass.fitIntercept Multiclass.numClass
       Multiclass.numClassifier Multiclass.network] in Hself2, Htr2.
  subst self2. cbn [Multiclass.network].
  split; [rewrite length_app; lia|].
  split; [rewrite firstn_app, Nat.sub_diag, firstn_all; cbn [firstn];
          apply app_nil_r|].
  intros queries. unfold Multiclass.Classify.
  rewrite Classify_scores_prefix by lia. reflexivity.
Qed.

Lemma retraining_changes_no_prediction_witness :
  exists self1 self2,
    Multiclass.KernelSVM_train
      (fun (d : list Q) (_ : list nat) (_ : Q) (_ : bool) (_ _ _ : nat)
           (_ : Q) => Done (arma_sum d))
      [-5; 0; 5; -6; 1; 6] [0; 1; 2; 0; 1; 2]%nat 1 true 3 1000 (1 # 1000)
    = Done self1
    /\ Multiclass.Train
         (fun (d : list Q) (_ : list nat) (_ : Q) (_ : bool) (_ _ _ : nat)
              (_ : Q) => Done (arma_sum d))
         self1 [7; 8; 9] [0; 1; 2]%nat 1000 (1 # 1000)
       = Done (3%nat, self2)
    /\ Multiclass.network self1 = [-10; 0; 12]
    /\ Multiclass.network self2 = [-10; 0; 12; 15; 16; 17]
    /\ length (Multiclass.network self2)
       = (2 * length (Multiclass.network self1))%nat
    /\ firstn (length (Multiclass.network self1)) (Multiclass.network self2)
       = Multiclass.network self1
    /\ forall queries,
         Multiclass.Classify (fun (w : Q) (q : list Q) => map (Qmult w) q)
           self2 queries
         = Multiclass.Classify (fun (w : Q) (q : list Q) => map (Qmult w) q)
             self1 queries.
Proof.
  eexists. eexists. split; [vm_compute; reflexivity|].
  split; [vm_compute; reflexivity|].
  split; [reflexivity|]. split; [reflexivity|].
  apply (retraining_changes_no_prediction Q Q
           (fun d _ _ _ _ _ _ _ => Done (arma_sum d))
           (fun w q => map (Qmult w) q)
           [-5; 0; 5; -6; 1; 6] [7; 8; 9] [0; 1; 2; 0; 1; 2]%nat
           [0; 1; 2]%nat 1 true 3 1000 1000 (1 # 1000) (1 # 1000) _ _ 3%nat).
  - vm_compute. reflexivity.
  - vm_compute. reflexivity.
Defined.

(** ** The one-vs-one ensemble on a single query *)

Lemma filter_seq_nth {A : Type} (P : A -> bool) (d : A) (l : list A) :
  length (filter (fun k => P (nth k l d)) (seq 0 (length l)))
  = length (filter P l).
Proof.
  induction l as [|x l IH] using rev_ind; [reflexivity|].
  rewrite length_app. cbn [length]. rewrite Nat.add_1_r, seq_S.
  rewrite !filter_app, !length_app. cbn [Nat.add filter].
  rewrite app_nth2, Nat.sub_diag by lia. cbn [nth].
  f_equal; [|destruct (P x); reflexivity].
  rewrite <- IH. f_equal. apply filter_ext_in. intros k Hk.
  apply in_seq in Hk. rewrite app_nth1 by lia. reflexivity.
Qed.

(** The number of pairs of classes whose first class is [c]. *)
Lemma class_pairs_first (K c m : nat) :
  length (filter (fun p : nat * nat => (fst p =? c)%nat)
            (flat_map (fun i => map (fun j => (i, j)) (seq (S i) (K - S i)))
               (seq 0 m)))
  = if (c <? m)%nat then (K - S c)%nat else 0%nat.
Proof.
  induction m as [|m IH]; [reflexivity|].
  rewrite seq_S, flat_map_app, filter_app, length_app, IH.
  cbn [Nat.add flat_map]. rewrite app_nil_r.
  assert (E : forall js,
              length (filter (fun p : nat * nat => (fst p =? c)%nat)
                        (map (fun j => (m, j)) js))
              = if (m =? c)%nat then length js else 0%nat).
  { intros js. induction js as [|j js IHj];
      [destruct (m =? c)%nat; reflexivity|].
    cbn [map filter fst]. destruct (m =? c)%nat; cbn [length];
      now rewrite IHj. }
  rewrite E, length_seq.
  destruct (Nat.ltb_spec c m), (Nat.eqb_spec m c), (Nat.ltb_spec c (S m));
    lia.
Qed.

Lemma single_score_is_mean (s : Q) :
  Qle_bool (arma_sum [s] / Qnat (length [s])) s = true.
Proof.
  apply Qle_bool_iff. cbn [arma_sum fold_right length].
  change (Qnat 1) with 1. apply Qle_shift_div_r; [reflexivity | lra].
Qed.

Section SingleQuery.
Variable T : Type.
Variable self : Multiclass.KernelSVM T.
Variable scores : list (list Q).
Hypothesis one_score_each :
  forall k, (k < Multiclass.numClassifier self)%nat ->
            exists s, nth_error scores k = Some [s].
Hypothesis pairs_stored :
  Multiclass.classesClassifier self
  = Spec.class_pairs (Multiclass.numClass self).
Hypothesis pairs_counted :
  Multiclass.numClassifier self
  = length (Spec.class_pairs (Multiclass.numClass self)).

(** On a single query the score of a classifier is the mean of its row: it
    votes for the first class of its pair. *)
Lemma single_ballot (k : nat) :
  (k < Multiclass.numClassifier self)%nat ->
  Spec.ballot (Multiclass.classesClassifier self) scores 0 k
  = Some (fst (nth k (Spec.class_pairs (Multiclass.numClass self))
                 (0, 0)%nat)).
Proof.
  intros Hk. destruct (one_score_each k Hk) as [s Es].
  unfold Spec.ballot. rewrite Es, pairs_stored.
  rewrite (nth_error_nth' _ (0, 0)%nat) by lia.
  destruct (nth k _ _) as [a b]. cbn [nth_error fst].
  now rewrite single_score_is_mean.
Qed.

Lemma single_vote (k : nat) (column : list nat) :
  (k < Multiclass.numClassifier self)%nat ->
  length column = Multiclass.numClass self ->
  exists column',
    Multiclass.vote self scores 0 k column = Done column'
    /\ length column' = Multiclass.numClass self.
Proof.
  intros Hk Hlen. destruct (one_score_each k Hk) as [s Es].
  unfold Multiclass.vote, Multiclass.entry, Multiclass.add_vote, get.
  rewrite Es. cbn [bind arma_mean nth_error].
  rewrite single_score_is_mean. unfold Qlt_bool.
  rewrite single_score_is_mean. cbn [negb].
  rewrite pairs_stored.
  destruct (nth_error (Spec.class_pairs (Multiclass.numClass self)) k)
    as [[a b]|] eqn:Ep; [|apply nth_error_None in Ep; lia].
  cbn [bind Nat.eqb].
  assert (Ha : (a < length column)%nat).
  { apply nth_error_In, class_pairs_in in Ep. lia. }
  destruct (nth_error column a) as [v|] eqn:Ev;
    [|apply nth_error_None in Ev; lia].
  cbn [bind]. eexists. split; [reflexivity|]. now rewrite upd_length.
Qed.

Lemma single_votes_return (m : nat) (column0 : list nat) :
  (m <= Multiclass.numClassifier self)%nat ->
  length column0 = Multiclass.numClass self ->
  exists column,
    for_loop (seq 0 m) (Multiclass.vote self scores 0) column0 = Done column
    /\ length column = Multiclass.numClass self.
Proof.
  induction m as [|m IH]; intros Hm Hlen; [cbn; eauto|].
  destruct (IH ltac:(lia) Hlen) as (column1 & E1 & Hl1).
  rewrite seq_S, for_loop_app, E1. cbn [bind Nat.add for_loop].
  destruct (single_vote m column1 ltac:(lia) Hl1) as (column2 & E2 & Hl2).
  rewrite E2. cbn [bind]. eauto.
Qed.

Lemma single_tally (c : nat) :
  Spec.tally (Multiclass.classesClassifier self) scores 0 c
    (Multiclass.numClassifier self)
  = if (c <? Multiclass.numClass self)%nat
    then (Multiclass.numClass self - S c)%nat else 0%nat.
Proof.
  unfold Spec.tally.
  rewrite <- (class_pairs_first (Multiclass.numClass self) c
                (Multiclass.numClass self)).
  fold (Spec.class_pairs (Multiclass.numClass self)).
  rewrite <- (filter_seq_nth (fun p : nat * nat => (fst p =? c)%nat)
                (0, 0)%nat (Spec.class_pairs (Multiclass.numClass self))).
  rewrite <- pairs_counted. f_equal. apply filter_ext_in.
  intros k Hk. apply in_seq in Hk. now rewrite single_ballot by lia.
Qed.

(** Class 0 has the most votes, and is the first to have them. *)
Lemma single_votes_elect_zero :
  (0 < Multiclass.numClass self)%nat ->
  exists column,
    Multiclass.votes self scores 0 = Done column
    /\ index_max column = 0%nat.
Proof.
  intros HK. unfold Multiclass.votes.
  destruct (single_votes_return (Multiclass.numClassifier self)
              (repeat 0%nat (Multiclass.numClass self)) (le_n _)
              (repeat_length _ _)) as (column & Hrun & Hlen).
  exists column. split; [exact Hrun|].
  destruct (votes_count T self scores 0 _ _ _ Hrun) as [_ Hcount].
  assert (Hne : column <> [])
    by (destruct column; [cbn in Hlen; lia | discriminate]).
  destruct (index_max_spec column Hne) as (Hr & _ & Hfirst).
  destruct (index_max column) as [|r] eqn:Er; [reflexivity|].
  specialize (Hfirst 0%nat ltac:(lia)).
  rewrite !Hcount, !nth_repeat, !single_tally in Hfirst.
  destruct (Nat.ltb_spec 0 (Multiclass.numClass self)),
           (Nat.ltb_spec (S r) (Multiclass.numClass self)); lia.
Qed.

End SingleQuery.

(** X16.  [Classify(point)] of the ensemble does not depend on the point.
    On a single query the score of each classifier is the mean of its row
    of scores, so each classifier votes for the first class of its pair;
    class 0 is the first class of [numClass - 1] pairs, more than any
    other class.  For an ensemble that the training constructor returned
    with at least one class, whose classifiers give one score per query,
    the answer is class 0 for every point. *)
Theorem single_query_elects_class_zero
    (point T : Type)
    (train : list point -> list nat -> Q -> bool -> nat -> nat -> nat -> Q ->
             outcome T)
    (classify : T -> list point -> list Q)
    (data : list point) (labels : list nat) (regularization : Q)
    (fitIntercept : bool) (K maxIter : nat) (tol : Q)
    (self : Multiclass.KernelSVM T) (x : point) :
  Multiclass.KernelSVM_train train data labels regularization fitIntercept
    K maxIter tol = Done self ->
  (0 < K)%nat ->
  (forall svm, length (classify svm [x]) = 1%nat) ->
  Multiclass.Classify_point classify self x = Done 0%nat.
Proof.
  intros Htrain HK Hrow.
  destruct (KernelSVM_train_inv _ _ _ _ _ _ _ _ _ _ _ Htrain)
    as [Hself Htr].
  apply Forall2_length in Htr.
  assert (Hcc : Multiclass.classesClassifier self
                = Spec.class_pairs (Multiclass.numClass self))
    by (rewrite Hself; reflexivity).
  assert (Hn : Multiclass.numClassifier self
               = length (Spec.class_pairs (Multiclass.numClass self)))
    by (rewrite Hself; reflexivity).
  assert (HK' : (0 < Multiclass.numClass self)%nat)
    by (rewrite Hself; exact HK).
  assert (Hnet : length (Multiclass.network self)
                 = Multiclass.numClassifier self).
  { rewrite Hn. replace (Multiclass.numClass self) with K
      by (rewrite Hself; reflexivity).
    now rewrite Htr. }
  unfold Multiclass.Classify_point, Multiclass.Classify_labels,
    Multiclass.Classify.
  destruct (for_map_total (seq 0 (Multiclass.numClassifier self))
              (fun k =>
                 svm <- get (Multiclass.network self) k ;;
                 let row := classify svm [x] in
                 if (length row =? length [x])%nat then Done row
                 else LogicError)) as (scores & Hscores & Hlen).
  { intros k Hk. apply in_seq in Hk. unfold get.
    destruct (nth_error (Multiclass.network self) k) as [svm|] eqn:Ek;
      [|apply nth_error_None in Ek; lia].
    cbn [bind]. cbv zeta. rewrite Hrow. cbn [length Nat.eqb]. eauto. }
  assert (Hsc : Multiclass.Classify_scores classify self [x] = Done scores)
    by exact Hscores.
  rewrite Hsc. cbn [bind].
  assert (Hone : forall k, (k < Multiclass.numClassifier self)%nat ->
                           exists s, nth_error scores k = Some [s]).
  { intros k Hk. destruct (for_map_spec _ _ _ Hscores) as [_ Hn'].
    destruct (Hn' k k) as (row & Erow & Hf).
    { rewrite (nth_error_nth' _ 0%nat) by (rewrite length_seq; lia).
      now rewrite seq_nth. }
    unfold get in Hf.
    destruct (nth_error (Multiclass.network self) k) as [svm|];
      cbn [bind] in Hf; [|discriminate].
    cbv zeta in Hf. rewrite Hrow in Hf. cbn [length Nat.eqb] in Hf.
    inversion Hf; subst row. specialize (Hrow svm).
    destruct (classify svm [x]) as [|s [|s' rest]]; try discriminate.
    eauto. }
  destruct (single_votes_elect_zero T self scores Hone Hcc Hn HK')
    as (column & Hv & Hmax).
  cbn [length seq for_map]. rewrite Hv. cbn [bind].
  destruct (Nat.eqb_spec (Multiclass.numClass self) 0) as [E|_]; [lia|].
  cbn [map get nth_error]. now rewrite Hmax.
Qed.

Lemma single_query_elects_class_zero_witness :
  exists self,
    Multiclass.KernelSVM_train
      (fun (d : list Q) (_ : list nat) (_ : Q) (_ : bool) (_ _ _ : nat)
           (_ : Q) => Done (arma_sum d))
      [-5; 0; 5; -6; 1; 6] [0; 1; 2; 0; 1; 2]%nat 1 true 3 1000 (1 # 1000)
    = Done self
    /\ Multiclass.Classify_point (fun (w : Q) (q : list Q) => map (Qmult w) q)
         self 6 = Done 0%nat.
Proof.
  eexists. split; [vm_compute; reflexivity|].
  apply (single_query_elects_class_zero Q Q
           (fun d _ _ _ _ _ _ _ => Done (arma_sum d))
           (fun w q => map (Qmult w) q)
           [-5; 0; 5; -6; 1; 6] [0; 1; 2; 0; 1; 2]%nat 1 true 3 1000
           (1 # 1000) _ 6).
  - vm_compute. reflexivity.
  - lia.
  - intros svm. reflexivity.
Defined.

(** ** A model that scores with no training point *)

Lemma predict_skips {point : Type} (self : PrunedLabels.KernelSVM point)
    (x : point) :
  (forall j, nth j (PrunedLabels.savedLabels self) 0 == 0) ->
  forall (idx : list nat) (acc : Q), PrunedLabels.predict self x idx acc = acc.
Proof.
  intros H. induction idx as [|j idx IH]; intros acc; [reflexivity|].
  cbn [PrunedLabels.predict].
  assert (E : Qeq_bool (nth j (PrunedLabels.savedLabels self) 0) 0 = true)
    by (apply Qeq_bool_iff, H).
  rewrite E. apply IH.
Qed.

Lemma arma_sum_const {A : Type} (c : Q) (l : list A) :
  arma_sum (map (fun _ => c) l) == Qnat (length l) * c.
Proof.
  induction l as [|a l IH].
  - change (Qnat (length (@nil A))) with 0. cbn. ring.
  - cbn [map arma_sum fold_right length]. fold (arma_sum (map (fun _ => c) l)).
    rewrite Qnat_succ, IH. ring.
Qed.

(** In exact arithmetic, a model all of whose saved labels are zero gives every query the
    same score, so that every query of every batch is at the mean of the
    batch and is labelled 1.  The model of the constructor that does not
    train is such a model. *)
Theorem model_without_support_labels_everything_one
    (point : Type) (self : PrunedLabels.KernelSVM point)
    (data : list point) :
  (forall j, nth j (PrunedLabels.savedLabels self) 0 == 0) ->
  data <> [] ->
  PrunedLabels.Classify_labels self data
  = Done (repeat 1%nat (length data)).
Proof.
  intros Hzero Hne.
  set (c := if negb (PrunedLabels.fitIntercept self) then 0
            else 0 + PrunedLabels.intercept self).
  assert (Hs : PrunedLabels.Classify_scores self data
               = map (fun _ => c) data).
  { unfold PrunedLabels.Classify_scores. apply map_ext. intros x. cbv zeta.
    now rewrite predict_skips. }
  unfold PrunedLabels.Classify_labels, PrunedLabels.Classify.
  rewrite Hs, arma_mean_nonempty
    by (destruct data; [congruence | discriminate]).
  cbn [bind]. f_equal. rewrite map_map, <- map_const. apply map_ext.
  intros _. apply threshold_label_spec.
  rewrite arma_sum_const, length_map.
  pose proof (Qnat_length_pos data Hne) as Hpos.
  apply Qle_shift_div_r; [exact Hpos | lra].
Qed.

Lemma model_without_support_labels_everything_one_witness :
  PrunedLabels.Classify_labels
    (PrunedLabels.KernelSVM_new 1 true linear_kernel) [-3; 0; 8]
  = Done [1; 1; 1]%nat.
Proof.
  apply (model_without_support_labels_everything_one Q
           (PrunedLabels.KernelSVM_new 1 true linear_kernel) [-3; 0; 8]).
  - intros [|j]; reflexivity.
  - discriminate.
Defined.

(** ** The labels and the points [Train] reads *)

Lemma remap_labels_short (labels idx : list nat) :
  (exists i, In i idx /\ (length labels <= i)%nat) ->
  PrunedLabels.remap_labels labels idx = LogicError.
Proof.
  induction idx as [|i idx IH]; intros (k & Hin & Hk); [destruct Hin|].
  cbn [PrunedLabels.remap_labels].
  destruct (nth_error labels i) as [l|] eqn:E; [|reflexivity].
  destruct Hin as [->|Hin].
  - apply nth_error_None in Hk. congruence.
  - rewrite IH by eauto. reflexivity.
Qed.

Lemma remap_labels_surplus (labels surplus idx : list nat) :
  (forall i, In i idx -> (i < length labels)%nat) ->
  PrunedLabels.remap_labels (labels ++ surplus) idx
  = PrunedLabels.remap_labels labels idx.
Proof.
  induction idx as [|i idx IH]; intros H; [reflexivity|].
  cbn [PrunedLabels.remap_labels].
  rewrite nth_error_app1 by (apply H; now left).
  rewrite IH by (intros k Hk; apply H; now right). reflexivity.
Qed.

(** X18.  [Train] reads [labels(i)] for every point [i] and no other
    label.  With fewer labels than points the read of the first missing
    label fails (Armadillo's run-time check) before the optimisation
    starts, and no model is returned; labels beyond the last point are
    ignored, so that extending the labels changes nothing in what [Train]
    returns. *)
Theorem labels_read_one_per_point
    (point : Type) (self : PrunedLabels.KernelSVM point) (data : list point)
    (labels surplus : list nat) (max_iter : nat) (tol : Q)
    (rnd : nat -> nat) (pos fuel : nat) :
  ((length labels < length data)%nat ->
   PrunedLabels.Train fuel rnd pos self data labels max_iter tol
   = LogicError)
  /\ ((length data <= length labels)%nat ->
      PrunedLabels.Train fuel rnd pos self data (labels ++ surplus)
        max_iter tol
      = PrunedLabels.Train fuel rnd pos self data labels max_iter tol).
Proof.
  split; intros H; unfold PrunedLabels.Train.
  - rewrite remap_labels_short; [reflexivity|].
    exists (length labels). split; [apply in_seq; lia | lia].
  - rewrite remap_labels_surplus; [reflexivity|].
    intros i Hi. apply in_seq in Hi. lia.
Qed.

Lemma labels_read_one_per_point_witness :
  PrunedLabels.Train 3 counting_rand 0
    (PrunedLabels.KernelSVM_new 1 true linear_kernel) [-1; 1] [0]%nat 1
    (1 # 2) = LogicError
  /\ PrunedLabels.Train 3 counting_rand 0
       (PrunedLabels.KernelSVM_new 1 true linear_kernel) [-1; 1]
       ([0; 1] ++ [5; 7])%nat 1 (1 # 2)
     = PrunedLabels.Train 3 counting_rand 0
         (PrunedLabels.KernelSVM_new 1 true linear_kernel) [-1; 1]
         [0; 1]%nat 1 (1 # 2).
Proof.
  split.
  - apply (proj1 (labels_read_one_per_point Q
                    (PrunedLabels.KernelSVM_new 1 true linear_kernel)
                    [-1; 1] [0]%nat [] 1%nat (1 # 2) counting_rand 0%nat
                    3%nat)).
    simpl. lia.
  - apply (proj2 (labels_read_one_per_point Q
                    (PrunedLabels.KernelSVM_new 1 true linear_kernel)
                    [-1; 1] [0; 1]%nat [5; 7]%nat 1%nat (1 # 2)
                    counting_rand 0%nat 3%nat)).
    simpl. lia.
Defined.

Lemma train_loop_no_point (K : list (list Q)) (y : list Q) (C tol : Q)
    (max_iter : nat) (rnd : nat -> nat) (pickFuel : nat) :
  forall (fuel count : nat) (st : SMO.state),
  (max_iter - count <= fuel)%nat ->
  exists st' count',
    SMO.train_loop 0 K y C tol max_iter rnd fuel pickFuel st count
    = Done (st', count')
    /\ SMO.alpha st' = SMO.alpha st.
Proof.
  induction fuel as [|fuel IH]; intros count st Hf; cbn [SMO.train_loop];
    destruct (Nat.ltb_spec count max_iter) as [Hlt|Hge]; try lia;
    try (exists st, count; split; reflexivity).
  unfold SMO.pass. cbn [seq for_loop bind SMO.changedAlphas Nat.eqb].
  destruct (IH (S count)
              (SMO.mkState (SMO.alpha st) (SMO.intercept st)
                 (SMO.randPos st) 0 (SMO.divisors st)) ltac:(lia))
    as (st' & c' & Hrun & Ha).
  exists st', c'. split; [exact Hrun | exact Ha].
Qed.

(** X19.  On an empty training set the [while] loop makes [max_iter]
    passes over no point and ends; [Train] then takes the mean of the
    empty [alpha], which Armadillo's run-time check refuses: no model is
    returned, whatever the labels and the other arguments. *)
Theorem empty_training_set_fails
    (point : Type) (self : PrunedLabels.KernelSVM point)
    (labels : list nat) (max_iter : nat) (tol : Q)
    (rnd : nat -> nat) (pos fuel : nat) :
  (max_iter <= fuel)%nat ->
  PrunedLabels.Train fuel rnd pos self [] labels max_iter tol = LogicError.
Proof.
  intros Hf. unfold PrunedLabels.Train.
  cbn [length seq PrunedLabels.remap_labels bind arma_zeros repeat].
  destruct (train_loop_no_point
              (kernel_matrix (PrunedLabels.kernel self) [])
              (map inject_Z []) (PrunedLabels.regularization self) tol
              max_iter rnd fuel fuel 0
              (SMO.mkState [] (PrunedLabels.intercept self) pos 0 [])
              ltac:(lia)) as (st' & c' & Hrun & Ha).
  rewrite Hrun. cbn [bind]. cbn [SMO.alpha] in Ha. rewrite Ha. reflexivity.
Qed.

Lemma empty_training_set_fails_witness :
  PrunedLabels.Train 4 counting_rand 0
    (PrunedLabels.KernelSVM_new 1 true linear_kernel) [] [0; 1]%nat 3
    (1 # 10) = LogicError.
Proof.
  apply (empty_training_set_fails Q
           (PrunedLabels.KernelSVM_new 1 true linear_kernel) [0; 1]%nat
           3%nat (1 # 10) counting_rand 0%nat 4%nat).
  lia.
Defined.

(** * The code in binary64 *)

(** ** Runs of the optimisation loop *)

Section Binary64Runs.
Import PrimFloat.
Local Open Scope float_scope.

(** C1.  The bound fails in binary64.  On the three points [1.4], [-1.9]
    and [-0.3] of classes 0, 1 and 0, with [C = 0.5], [tol = 0.01],
    [max_iter = 1], the linear kernel and the values of [rand()] of an
    unseeded GNU C library, [Train] returns a model whose first coefficient
    is [-2^-55], below zero, whichever of the two orders the sums are
    added in: the compensating update of [alpha(i)] is not clipped, and it
    does not land on zero. *)
Theorem coefficient_leaves_bounds :
  exists m,
    Binary64.PrunedLabels.Train Binary64.accu_seq 5 Binary64.glibc_rand 0
      Binary64.leaving_model Binary64.leaving_points Binary64.leaving_labels
      1 Binary64.leaving_tol = Done m
    /\ Binary64.PrunedLabels.Train Binary64.accu_pairs 5 Binary64.glibc_rand
         0 Binary64.leaving_model Binary64.leaving_points
         Binary64.leaving_labels 1 Binary64.leaving_tol = Done m
    /\ Binary64.PrunedLabels.alpha m = [-0x1p-55; 0x1p-1; 0x1p-1]
    /\ (nth 0 (Binary64.PrunedLabels.alpha m) 0 <? 0) = true
    /\ (0 <? Binary64.PrunedLabels.regularization m) = true.
Proof.
  eexists. split; [vm_compute; reflexivity|].
  split; [vm_compute; reflexivity|].
  split; [reflexivity|]. split; reflexivity.
Qed.

Lemma pick_j_two (rnd : nat -> N) (fuel : nat) :
  forall pos i, (i < 2)%nat ->
  Binary64.SMO.pick_j 2 rnd fuel pos i = OutOfFuel
  \/ exists pos', Binary64.SMO.pick_j 2 rnd fuel pos i
                  = Done ((1 - i)%nat, pos').
Proof.
  induction fuel as [|fuel IH]; intros pos i Hi; [left; reflexivity|].
  cbn [Binary64.SMO.pick_j].
  pose proof (N.mod_lt (rnd pos) (N.of_nat 2) ltac:(discriminate)) as Hlt.
  destruct (Nat.eqb_spec (N.to_nat (rnd pos mod N.of_nat 2)) i) as [E|E].
  - apply IH, Hi.
  - right. exists (S pos). change (N.of_nat 2) with 2%N in *.
    f_equal. f_equal. revert Hlt E. generalize (rnd pos mod 2)%N.
    intros r Hlt E. lia.
Qed.

Lemma step_two (accu : list float -> float) (K : list (list float))
    (y : list float) (C tol : float) (rnd : nat -> N) (fuel : nat)
    (a : list float) (b : float) (pos c i : nat) :
  (i < 2)%nat ->
  Binary64.SMO.kkt_violated y C tol (Binary64.SMO.mkState a b pos c) i
    (Binary64.SMO.E_at accu K y (Binary64.SMO.mkState a b pos c) i) = true ->
  Binary64.SMO.step accu 2 K y C tol rnd fuel (Binary64.SMO.mkState a b pos c)
    i = OutOfFuel
  \/ exists pos',
       Binary64.SMO.step accu 2 K y C tol rnd fuel
         (Binary64.SMO.mkState a b pos c) i
       = Done (Binary64.SMO.move accu K y C tol
                 (Binary64.SMO.mkState a b pos' c) i (1 - i)
                 (Binary64.SMO.E_at accu K y (Binary64.SMO.mkState a b pos c)
                    i)).
Proof.
  intros Hi Hk. unfold Binary64.SMO.step. rewrite Hk.
  cbn [Binary64.SMO.randPos Binary64.SMO.alpha Binary64.SMO.intercept
       Binary64.SMO.changedAlphas].
  destruct (pick_j_two rnd fuel pos i Hi) as [E | [pos' E]]; rewrite E;
    cbn [bind]; [left; reflexivity | right; exists pos'; reflexivity].
Qed.

(** A pass over two points that finds both in violation. *)
Lemma pass_two (accu : list float -> float) (K : list (list float))
    (y : list float) (C tol : float) (rnd : nat -> N) (fuel : nat)
    (a a' a'' : list float) (b b' b'' : float) :
  (forall pos pos0 c,
      Binary64.SMO.kkt_violated y C tol (Binary64.SMO.mkState a b pos c) 0
        (Binary64.SMO.E_at accu K y (Binary64.SMO.mkState a b pos c) 0)
      = true
      /\ Binary64.SMO.move accu K y C tol (Binary64.SMO.mkState a b pos c)
           0 1 (Binary64.SMO.E_at accu K y (Binary64.SMO.mkState a b pos0 c)
                  0)
         = Binary64.SMO.mkState a' b' pos (S c)) ->
  (forall pos pos0 c,
      Binary64.SMO.kkt_violated y C tol (Binary64.SMO.mkState a' b' pos c) 1
        (Binary64.SMO.E_at accu K y (Binary64.SMO.mkState a' b' pos c) 1)
      = true
      /\ Binary64.SMO.move accu K y C tol (Binary64.SMO.mkState a' b' pos c)
           1 0 (Binary64.SMO.E_at accu K y
                  (Binary64.SMO.mkState a' b' pos0 c) 1)
         = Binary64.SMO.mkState a'' b'' pos (S c)) ->
  forall pos c,
  Binary64.SMO.pass accu 2 K y C tol rnd fuel (Binary64.SMO.mkState a b pos c)
  = OutOfFuel
  \/ exists pos',
       Binary64.SMO.pass accu 2 K y C tol rnd fuel
         (Binary64.SMO.mkState a b pos c)
       = Done (Binary64.SMO.mkState a'' b'' pos' 2).
Proof.
  intros H0 H1 pos c. unfold Binary64.SMO.pass.
  cbn [seq for_loop Binary64.SMO.alpha Binary64.SMO.intercept
       Binary64.SMO.randPos].
  destruct (step_two accu K y C tol rnd fuel a b pos 0 0 ltac:(lia)
              (proj1 (H0 pos pos 0%nat))) as [E | [pos1 E]];
    cbn [Nat.sub] in E; rewrite E;
    cbn [bind]; [left; reflexivity|].
  rewrite (proj2 (H0 pos1 pos 0%nat)).
  destruct (step_two accu K y C tol rnd fuel a' b' pos1 1 1 ltac:(lia)
              (proj1 (H1 pos1 pos1 1%nat))) as [E1 | [pos2 E1]];
    cbn [Nat.sub] in E1; rewrite E1;
    cbn [bind]; [left; reflexivity|].
  rewrite (proj2 (H1 pos2 pos1 1%nat)). right. exists pos2. reflexivity.
Qed.

Section Stalling.
Variable accu : list float -> float.
Hypothesis accu_order :
  accu = Binary64.accu_seq \/ accu = Binary64.accu_pairs.
Variable rnd : nat -> N.
Variable max_iter : nat.

Local Abbreviation Kst :=
  (Binary64.PrunedLabels.kernel_matrix Binary64.linear_kernel
     Binary64.stalling_points).
Local Abbreviation yst := ([1; -1] : list float).
Local Abbreviation Cst := (0x1.dcd65p+29 : float).
Local Abbreviation first_pass := (Binary64.SMO.mkState [0; 0] 0).
Local Abbreviation half_pass :=
  (Binary64.SMO.mkState [0x1.7d78455a45039p+27; 0x1.7d78455a45039p+27]
     0x1.7701ff671p+15).
Local Abbreviation second_pass :=
  (Binary64.SMO.mkState [0x1.7d783f6463fa1p+27; 0x1.7d783f6463fa1p+27]
     0x1.770202551p+15).
Local Abbreviation later_pass :=
  (Binary64.SMO.mkState [0x1.7d783f6463fa1p+27; 0x1.7d783f6463fa1p+27]
     0x1.7702054318p+15).

Local Ltac by_evaluation :=
  intros; destruct accu_order as [E | E]; rewrite E; split; vm_compute;
  reflexivity.

Lemma first_pass_returns (fuel pos c : nat) :
  Binary64.SMO.pass accu 2 Kst yst Cst Binary64.stalling_tol rnd fuel
    (first_pass pos c) = OutOfFuel
  \/ exists pos',
       Binary64.SMO.pass accu 2 Kst yst Cst Binary64.stalling_tol rnd fuel
         (first_pass pos c) = Done (second_pass pos' 2%nat).
Proof.
  apply (pass_two accu Kst yst Cst Binary64.stalling_tol rnd fuel
           [0; 0] [0x1.7d78425f547edp+27; 0x1.7d78425f547edp+27]
           [0x1.7d783f6463fa1p+27; 0x1.7d783f6463fa1p+27]
           0 1 0x1.770202551p+15); by_evaluation.
Qed.

Lemma second_pass_returns (fuel pos c : nat) :
  Binary64.SMO.pass accu 2 Kst yst Cst Binary64.stalling_tol rnd fuel
    (second_pass pos c) = OutOfFuel
  \/ exists pos',
       Binary64.SMO.pass accu 2 Kst yst Cst Binary64.stalling_tol rnd fuel
         (second_pass pos c) = Done (later_pass pos' 2%nat).
Proof.
  apply (pass_two accu Kst yst Cst Binary64.stalling_tol rnd fuel
           [0x1.7d783f6463fa1p+27; 0x1.7d783f6463fa1p+27]
           [0x1.7d78455a45039p+27; 0x1.7d78455a45039p+27]
           [0x1.7d783f6463fa1p+27; 0x1.7d783f6463fa1p+27]
           0x1.770202551p+15 0x1.7701ff671p+15 0x1.7702054318p+15);
    by_evaluation.
Qed.

(** The state of the third pass is the state every later pass starts
    from and ends in, with two counted changes. *)
Lemma later_pass_returns (fuel pos c : nat) :
  Binary64.SMO.pass accu 2 Kst yst Cst Binary64.stalling_tol rnd fuel
    (later_pass pos c) = OutOfFuel
  \/ exists pos',
       Binary64.SMO.pass accu 2 Kst yst Cst Binary64.stalling_tol rnd fuel
         (later_pass pos c) = Done (later_pass pos' 2%nat).
Proof.
  apply (pass_two accu Kst yst Cst Binary64.stalling_tol rnd fuel
           [0x1.7d783f6463fa1p+27; 0x1.7d783f6463fa1p+27]
           [0x1.7d78455a45039p+27; 0x1.7d78455a45039p+27]
           [0x1.7d783f6463fa1p+27; 0x1.7d783f6463fa1p+27]
           0x1.7702054318p+15 0x1.7701ff671p+15 0x1.7702054318p+15);
    by_evaluation.
Qed.

Lemma later_passes_never_end (pickFuel : nat) :
  forall fuel pos c count, (count <= max_iter)%nat ->
  Binary64.SMO.train_loop accu 2 Kst yst Cst Binary64.stalling_tol (S max_iter)
    rnd fuel pickFuel (later_pass pos c) count = OutOfFuel.
Proof.
  induction fuel as [|fuel IH]; intros pos c count Hc;
    cbn [Binary64.SMO.train_loop];
    (replace (count <? S max_iter)%nat with true
       by (symmetry; apply Nat.ltb_lt; lia)); [reflexivity|].
  destruct (later_pass_returns pickFuel pos c) as [E | [pos' E]]; rewrite E;
    cbn [bind]; [reflexivity|].
  cbn [Binary64.SMO.changedAlphas Nat.eqb]. apply IH. lia.
Qed.

Lemma stalling_loop_never_ends (fuel pickFuel pos : nat) :
  Binary64.SMO.train_loop accu 2 Kst yst Cst Binary64.stalling_tol (S max_iter)
    rnd fuel pickFuel (first_pass pos 0%nat) 0 = OutOfFuel.
Proof.
  destruct fuel as [|fuel]; [reflexivity|]. cbn [Binary64.SMO.train_loop Nat.ltb Nat.leb].
  destruct (first_pass_returns pickFuel pos 0) as [E | [pos1 E]]; rewrite E;
    cbn [bind]; [reflexivity|].
  cbn [Binary64.SMO.changedAlphas Nat.eqb].
  destruct fuel as [|fuel]; [reflexivity|]. cbn [Binary64.SMO.train_loop Nat.ltb Nat.leb].
  destruct (second_pass_returns pickFuel pos1 2) as [E2 | [pos2 E2]];
    rewrite E2; cbn [bind]; [reflexivity|].
  cbn [Binary64.SMO.changedAlphas Nat.eqb].
  apply later_passes_never_end. lia.
Qed.

Lemma stalling_Train_never_returns (fuel pos : nat) :
  Binary64.PrunedLabels.Train accu fuel rnd pos Binary64.stalling_model
    Binary64.stalling_points Binary64.stalling_labels (S max_iter)
    Binary64.stalling_tol = OutOfFuel.
Proof.
  unfold Binary64.PrunedLabels.Train.
  change (Binary64.PrunedLabels.remap_labels Binary64.stalling_labels
            (seq 0 (length Binary64.stalling_points)))
    with (Done yst).
  cbn [bind]. 
  change (length Binary64.stalling_points) with 2%nat.
  change (Binary64.PrunedLabels.kernel Binary64.stalling_model)
    with Binary64.linear_kernel.
  change (Binary64.PrunedLabels.regularization Binary64.stalling_model)
    with Cst.
  change (Binary64.PrunedLabels.intercept Binary64.stalling_model)
    with (0 : float).
  cbn [repeat]. rewrite stalling_loop_never_ends. reflexivity.
Qed.

End Stalling.

(** C2.  The loop does not always end in binary64.  On the two points [2.4]
    and [2.4001] of classes 1 and 0, with [C = 1e9], [tol = 0.001] and the
    linear kernel, [Train] does not return, whatever [max_iter >= 1], the
    stream of [rand()], its position and the fuel are, and whichever of the
    two orders the sums are added in: from the third pass on every pass
    starts from the same coefficients and intercept, counts two changes and
    ends where it started, so that [count] is reset to zero for ever. *)
Theorem training_loop_never_ends
    (rnd : nat -> N) (max_iter fuel pos : nat) :
  Binary64.PrunedLabels.Train Binary64.accu_seq fuel rnd pos
    Binary64.stalling_model Binary64.stalling_points
    Binary64.stalling_labels (S max_iter) Binary64.stalling_tol = OutOfFuel
  /\ Binary64.PrunedLabels.Train Binary64.accu_pairs fuel rnd pos
       Binary64.stalling_model Binary64.stalling_points
       Binary64.stalling_labels (S max_iter) Binary64.stalling_tol
     = OutOfFuel.
Proof.
  split; apply stalling_Train_never_returns; auto.
Qed.

End Binary64Runs.

(** ** The label of a single point *)

Section FloatFacts.
Import PrimFloat SpecFloat FloatOps FloatAxioms.
Local Open Scope Z_scope.

Lemma fexp_unfold (k : Z) : fexp prec emax k = Z.max (k - 53) (-1074).
Proof. reflexivity. Qed.

Lemma round_exact (s : bool) (m : positive) (e : Z) :
  bounded prec emax m e = true ->
  binary_round_aux prec emax s (Z.pos m) e loc_Exact = S754_finite s m e.
Proof.
  intros Hb. unfold bounded, canonical_mantissa in Hb.
  apply andb_true_iff in Hb. destruct Hb as [Hc He].
  apply Z.eqb_eq in Hc.
  unfold binary_round_aux, shr_fexp. cbn [Zdigits2].
  rewrite Hc, Z.sub_diag. cbn [shr shr_record_of_loc shr_m loc_of_shr_record round_nearest_even Zdigits2].
  rewrite Hc, Z.sub_diag. cbn [shr shr_record_of_loc shr_m].
  now rewrite He.
Qed.

Lemma round_doubled (s : bool) (m : positive) (e : Z) :
  bounded prec emax m e = true ->
  binary_round_aux prec emax s (Z.pos m~0) (e - 1) loc_Exact
  = S754_finite s m e.
Proof.
  intros Hb. pose proof Hb as Hb'. unfold bounded, canonical_mantissa in Hb.
  apply andb_true_iff in Hb. destruct Hb as [Hc He].
  apply Z.eqb_eq in Hc.
  unfold binary_round_aux at 1, shr_fexp at 1. cbn [Zdigits2 digits2_pos].
  replace (fexp prec emax (Z.pos (Pos.succ (digits2_pos m)) + (e - 1)) - (e - 1))
    with 1.
  2:{ rewrite Pos2Z.inj_succ.
      replace (Z.succ (Z.pos (digits2_pos m)) + (e - 1))
        with (Z.pos (digits2_pos m) + e) by lia.
      rewrite Hc. lia. }
  cbn [shr iter_pos shr_1 shr_record_of_loc shr_m loc_of_shr_record
       round_nearest_even orb].
  replace (e - 1 + 1) with e by lia.
  unfold shr_fexp. cbn [Zdigits2].
  rewrite Hc, Z.sub_diag. cbn [shr shr_record_of_loc shr_m].
  now rewrite He.
Qed.

Lemma div_eucl_exact (a q : Z) :
  a = q * 4503599627370496 ->
  Z.div_eucl a 4503599627370496 = (q, 0).
Proof.
  intros ->.
  pose proof (Z.div_eucl_eq (q * 4503599627370496) 4503599627370496
                ltac:(discriminate)) as H.
  pose proof (Z.mod_pos_bound (q * 4503599627370496) 4503599627370496
                ltac:(reflexivity)) as Hm.
  unfold Z.modulo in Hm.
  destruct (Z.div_eucl (q * 4503599627370496) 4503599627370496) as [q' r'].
  f_equal; nia.
Qed.

Lemma SFdiv_one (s : bool) (m : positive) (e : Z) :
  bounded prec emax m e = true ->
  SFdiv prec emax (S754_finite s m e)
    (S754_finite false 4503599627370496 (-52))
  = S754_finite s m e.
Proof.
  intros Hb. pose proof Hb as Hb'. unfold bounded, canonical_mantissa in Hb.
  apply andb_true_iff in Hb. destruct Hb as [Hc He].
  apply Z.eqb_eq in Hc. apply Z.leb_le in He.
  rewrite fexp_unfold in Hc.
  unfold SFdiv, SFdiv_core_binary. rewrite xorb_false_r.
  cbn [Zdigits2]. change (Z.pos (digits2_pos 4503599627370496)) with 53.
  rewrite fexp_unfold.
  set (d := Z.pos (digits2_pos m)) in *.
  assert (Hd : 0 < d) by (unfold d; lia).
  set (E := Z.min (Z.max (d + e - (53 + -52) - 53) (-1074)) (e - -52)).
  assert (HE : E = e - 1 \/ E = e) by (unfold E; lia).
  destruct HE as [HE | HE]; rewrite HE.
  - replace (e - -52 - (e - 1)) with 53 by lia.
    rewrite (div_eucl_exact _ (Z.pos m~0))
      by (rewrite Z.shiftl_mul_pow2 by lia; change (2 ^ 53) with 9007199254740992; lia).
    change (new_location 4503599627370496 0) with loc_Exact.
    now apply round_doubled.
  - replace (e - -52 - e) with 52 by lia.
    rewrite (div_eucl_exact _ (Z.pos m))
      by (rewrite Z.shiftl_mul_pow2 by lia; change (2 ^ 52) with 4503599627370496; lia).
    change (new_location 4503599627370496 0) with loc_Exact.
    now apply round_exact.
Qed.

Lemma SFcompare_refl (z : spec_float) :
  z <> S754_nan -> SFcompare z z = Some Eq.
Proof.
  destruct z as [sg | sg | | sg m e]; intros H; try congruence;
    cbn [SFcompare]; try (destruct sg; reflexivity).
  destruct sg; rewrite Z.compare_refl, Pos.compare_cont_refl; reflexivity.
Qed.

Local Open Scope float_scope.

(** A float is one of the five special values or a finite number that is
    not zero. *)
Lemma float_cases (s : float) :
  s = 0 \/ s = neg_zero \/ s = infinity \/ s = neg_infinity \/ s = nan
  \/ exists sg m e, Prim2SF s = S754_finite sg m e.
Proof.
  pose proof (SF2Prim_Prim2SF s) as H.
  destruct (Prim2SF s) as [[|] | [|] | | sg m e] eqn:E; cbn [SF2Prim] in H;
    auto 7.
  do 5 right. eauto.
Qed.

Lemma finite_compares (s : float) (sg : bool) (m : positive) (e : Z) :
  Prim2SF s = S754_finite sg m e ->
  is_nan s = false /\ is_finite s = true
  /\ (s <=? s) = true /\ (s <? s) = false.
Proof.
  intros E.
  assert (Hc : SFcompare (Prim2SF s) (Prim2SF s) = Some Eq)
    by (apply SFcompare_refl; rewrite E; discriminate).
  assert (Hn : is_nan s = false).
  { unfold is_nan. rewrite eqb_spec. unfold SFeqb. now rewrite Hc. }
  split; [exact Hn|]. split; [|split].
  - unfold is_finite. rewrite Hn. unfold is_infinity.
    rewrite eqb_spec, abs_spec, E. reflexivity.
  - rewrite leb_spec. unfold SFleb. now rewrite Hc.
  - rewrite ltb_spec. unfold SFltb. now rewrite Hc.
Qed.

(** A finite number is what it is after adding zero, on either side, and
    after dividing by one. *)
Lemma finite_through_mean (s : float) (sg : bool) (m : positive) (e : Z) :
  Prim2SF s = S754_finite sg m e ->
  (0 + s) / 1 = s /\ (0 + s + 0) / 1 = s.
Proof.
  intros E. pose proof (Prim2SF_valid s) as Hv. rewrite E in Hv.
  cbn [valid_binary] in Hv.
  split; apply Prim2SF_inj;
    rewrite div_spec, ?add_spec, E; change (Prim2SF 0) with (S754_zero false);
    change (Prim2SF 1) with (S754_finite false 4503599627370496 (-52));
    unfold SF64div, SF64add; cbn [SFadd]; now apply SFdiv_one.
Qed.

Lemma mean_of_one (accu : list float -> float) (s : float) :
  accu = Binary64.accu_seq \/ accu = Binary64.accu_pairs ->
  exists t,
    Binary64.arma_mean accu [s] = Done t
    /\ Binary64.threshold_label t s = if is_nan s then 0%nat else 1%nat.
Proof.
  intros Haccu.
  destruct (float_cases s) as [-> | [-> | [-> | [-> | [-> | H]]]]];
    try (destruct Haccu as [-> | ->]; eexists; split; vm_compute;
         reflexivity).
  destruct H as (sg & m & e & E).
  destruct (finite_compares s sg m e E) as (Hn & Hf & Hle & Hlt).
  destruct (finite_through_mean s sg m e E) as [H1 H2].
  exists s. rewrite Hn. split.
  - unfold Binary64.arma_mean. cbn [length].
    change (Binary64.of_nat 1) with 1.
    destruct Haccu as [-> | ->].
    + change (Binary64.accu_seq [s]) with (0 + s). rewrite H1, Hf.
      reflexivity.
    + change (Binary64.accu_pairs [s]) with (0 + s + 0). rewrite H2, Hf.
      reflexivity.
  - unfold Binary64.threshold_label. now rewrite Hle, Hlt.
Qed.

(** C10, amended.  For every model and every point, in binary64 and
    whichever of the two orders the sums are added in, [Classify(point)]
    returns 1 when the score of the point is a number, finite or infinite,
    and 0 when it is NaN: the threshold of a batch of one is the score
    itself, which is at or above itself unless it is NaN, and then neither
    test of the label loop holds. *)
Theorem single_point_label_unless_nan
    (point : Type) (self : Binary64.PrunedLabels.KernelSVM point)
    (x : point) :
  let score := nth 0 (Binary64.PrunedLabels.Classify_scores self [x]) 0 in
  Binary64.PrunedLabels.Classify_point Binary64.accu_seq self x
  = Done (if is_nan score then 0%nat else 1%nat)
  /\ Binary64.PrunedLabels.Classify_point Binary64.accu_pairs self x
     = Done (if is_nan score then 0%nat else 1%nat).
Proof.
  cbv zeta.
  assert (H : forall accu,
             accu = Binary64.accu_seq \/ accu = Binary64.accu_pairs ->
             Binary64.PrunedLabels.Classify_point accu self x
             = Done (if is_nan
                          (nth 0 (Binary64.PrunedLabels.Classify_scores self
                                    [x]) 0)
                     then 0%nat else 1%nat)).
  { intros accu Haccu.
    unfold Binary64.PrunedLabels.Classify_point,
      Binary64.PrunedLabels.Classify_labels, Binary64.PrunedLabels.Classify.
    set (scores := Binary64.PrunedLabels.Classify_scores self [x]).
    assert (Hs : exists s, scores = [s]) by (eexists; reflexivity).
    destruct Hs as [s ->]. cbn [nth].
    destruct (mean_of_one accu s Haccu) as (t & -> & Hl).
    cbn [bind map]. now rewrite Hl. }
  split; apply H; auto.
Qed.

(** C10 as stated fails: the model trained on the points [1], [1.5] and
    [0.2] of classes 1, 0 and 1 with [C = 10] keeps the first two points,
    with coefficients 8 and labels +1 and -1; on the finite point [1e308]
    the two terms of the score overflow to [+infinity] and [-infinity], the
    score is NaN and the label is 0. *)
Lemma single_point_counterexample :
  ~ (forall (data : list float) (labels : list nat) (C : float)
            (fitIntercept : bool) (max_iter : nat) (tol : float)
            (fuel : nat) (rnd : nat -> N) (pos : nat)
            (m : Binary64.PrunedLabels.KernelSVM float) (x : float),
       Binary64.PrunedLabels.Train Binary64.accu_seq fuel rnd pos
         (Binary64.PrunedLabels.KernelSVM_new C fitIntercept
            Binary64.linear_kernel)
         data labels max_iter tol = Done m ->
       Binary64.PrunedLabels.Classify_point Binary64.accu_seq m x
       = Done 1%nat)
  /\ ~ (forall (data : list float) (labels : list nat) (C : float)
               (fitIntercept : bool) (max_iter : nat) (tol : float)
               (fuel : nat) (rnd : nat -> N) (pos : nat)
               (m : Binary64.PrunedLabels.KernelSVM float) (x : float),
          Binary64.PrunedLabels.Train Binary64.accu_pairs fuel rnd pos
            (Binary64.PrunedLabels.KernelSVM_new C fitIntercept
               Binary64.linear_kernel)
            data labels max_iter tol = Done m ->
          Binary64.PrunedLabels.Classify_point Binary64.accu_pairs m x
          = Done 1%nat).
Proof.
  split; intros H;
    specialize (H Binary64.overflowing_points Binary64.overflowing_labels
                  10 true 1%nat Binary64.overflowing_tol 5%nat
                  Binary64.glibc_rand 0%nat _ Binary64.overflowing_query
                  ltac:(vm_compute; reflexivity));
    vm_compute in H; discriminate H.
Qed.

End FloatFacts.

(** ** What holds of the binary64 code whatever the rounding *)

Section Binary64Structure.
Import PrimFloat.
Local Open Scope float_scope.

Variable accu : list float -> float.

(** A pair either leaves the coefficients and the intercept as they are
    and counts nothing, or counts one change. *)
Lemma move_rests_or_counts (K : list (list float)) (y : list float)
    (C tol : float) (st : Binary64.SMO.state) (i j : nat) (Ei : float) :
  let st' := Binary64.SMO.move accu K y C tol st i j Ei in
  length (Binary64.SMO.alpha st') = length (Binary64.SMO.alpha st)
  /\ ((Binary64.SMO.changedAlphas st' = Binary64.SMO.changedAlphas st
       /\ Binary64.SMO.alpha st' = Binary64.SMO.alpha st
       /\ Binary64.SMO.intercept st' = Binary64.SMO.intercept st)
      \/ Binary64.SMO.changedAlphas st'
         = S (Binary64.SMO.changedAlphas st)).
Proof.
  unfold Binary64.SMO.move.
  destruct (Binary64.SMO.bounds_LH y C (Binary64.SMO.alpha st) i j)
    as [L H].
  destruct (L =? H); [cbv zeta; auto|].
  destruct (0 <=? Binary64.SMO.eta_of K i j); [cbv zeta; auto|].
  match goal with |- context [if ?c then _ else _] => destruct c end;
    cbv zeta; cbn [Binary64.SMO.alpha Binary64.SMO.changedAlphas
                   Binary64.SMO.intercept].
  - rewrite !upd_upd, upd_same. auto.
  - rewrite !upd_length. auto.
Qed.

Lemma step_rests_or_counts (n : nat) (K : list (list float))
    (y : list float) (C tol : float) (rnd : nat -> N) (fuel : nat)
    (st st' : Binary64.SMO.state) (i : nat) :
  Binary64.SMO.step accu n K y C tol rnd fuel st i = Done st' ->
  length (Binary64.SMO.alpha st') = length (Binary64.SMO.alpha st)
  /\ ((Binary64.SMO.changedAlphas st' = Binary64.SMO.changedAlphas st
       /\ Binary64.SMO.alpha st' = Binary64.SMO.alpha st
       /\ Binary64.SMO.intercept st' = Binary64.SMO.intercept st)
      \/ Binary64.SMO.changedAlphas st'
         = S (Binary64.SMO.changedAlphas st)).
Proof.
  unfold Binary64.SMO.step. cbv zeta.
  destruct (Binary64.SMO.kkt_violated _ _ _ _ _ _).
  - destruct (Binary64.SMO.pick_j n rnd fuel (Binary64.SMO.randPos st) i)
      as [[j pos]| |]; cbn [bind]; try discriminate.
    intros H. inversion H.
    apply (move_rests_or_counts K y C tol
             (Binary64.SMO.mkState (Binary64.SMO.alpha st)
                (Binary64.SMO.intercept st) pos
                (Binary64.SMO.changedAlphas st)) i j).
  - intros H. inversion H. auto.
Qed.

Lemma pass_rests_or_counts (n : nat) (K : list (list float))
    (y : list float) (C tol : float) (rnd : nat -> N) (fuel : nat)
    (st st' : Binary64.SMO.state) :
  Binary64.SMO.pass accu n K y C tol rnd fuel st = Done st' ->
  length (Binary64.SMO.alpha st') = length (Binary64.SMO.alpha st)
  /\ (Binary64.SMO.changedAlphas st' = 0%nat ->
      Binary64.SMO.alpha st' = Binary64.SMO.alpha st
      /\ Binary64.SMO.intercept st' = Binary64.SMO.intercept st).
Proof.
  unfold Binary64.SMO.pass. intros H.
  apply (for_loop_invariant
           (fun s => length (Binary64.SMO.alpha s)
                     = length (Binary64.SMO.alpha st)
                     /\ (Binary64.SMO.changedAlphas s = 0%nat ->
                         Binary64.SMO.alpha s = Binary64.SMO.alpha st
                         /\ Binary64.SMO.intercept s
                            = Binary64.SMO.intercept st))) in H.
  - exact H.
  - intros i s s' _ [Hl Hq] Hs.
    apply step_rests_or_counts in Hs.
    destruct Hs as [Hl' [(Hc & Ha & Hb) | Hc]].
    + split; [congruence|]. intros H0. rewrite Ha, Hb. apply Hq. congruence.
    + split; [congruence|]. intros H0. rewrite H0 in Hc. discriminate.
  - cbn [Binary64.SMO.alpha Binary64.SMO.intercept
         Binary64.SMO.changedAlphas]. auto.
Qed.

Lemma train_loop_keeps_length (n : nat) (K : list (list float))
    (y : list float) (C tol : float) (max_iter : nat) (rnd : nat -> N)
    (pickFuel fuel : nat) :
  forall st count st' count',
  Binary64.SMO.train_loop accu n K y C tol max_iter rnd fuel pickFuel st
    count = Done (st', count') ->
  length (Binary64.SMO.alpha st') = length (Binary64.SMO.alpha st).
Proof.
  induction fuel as [|fuel IH]; intros st count st' count' H;
    cbn [Binary64.SMO.train_loop] in H;
    destruct (count <? max_iter)%nat; try discriminate;
    try (inversion H; reflexivity).
  destruct (Binary64.SMO.pass accu n K y C tol rnd pickFuel st)
    as [s1| |] eqn:Ep; cbn [bind] in H; try discriminate.
  apply IH in H. apply pass_rests_or_counts in Ep. destruct Ep. congruence.
Qed.

(** X3.  In binary64, whichever order the sums are added in: a pass of the
    [for] loop that ends with [changedAlphas == 0] has left every
    coefficient and the intercept as they were.  The passes that [count]
    counts are passes that changed nothing. *)
Theorem quiet_pass_changes_nothing (n : nat) (K : list (list float))
    (y : list float) (C tol : float) (rnd : nat -> N) (fuel : nat)
    (st st' : Binary64.SMO.state) :
  Binary64.SMO.pass accu n K y C tol rnd fuel st = Done st' ->
  Binary64.SMO.changedAlphas st' = 0%nat ->
  Binary64.SMO.alpha st' = Binary64.SMO.alpha st
  /\ Binary64.SMO.intercept st' = Binary64.SMO.intercept st.
Proof.
  intros Hp Hq. destruct (pass_rests_or_counts n K y C tol rnd fuel st st' Hp)
    as [_ H]. exact (H Hq).
Qed.

Lemma arma_mean_inv (v : list float) (threshold : float) :
  Binary64.arma_mean accu v = Done threshold -> v <> [].
Proof. destruct v; [discriminate | discriminate]. Qed.

Lemma threshold_label_is_binary (threshold score : float) :
  Binary64.threshold_label threshold score = 0%nat
  \/ Binary64.threshold_label threshold score = 1%nat.
Proof.
  unfold Binary64.threshold_label.
  destruct (threshold <=? score), (score <? threshold); auto.
Qed.

(** X4.  In binary64, whichever order the sums are added in and whatever
    the model: when [Classify(data, labels, scores)] returns, the batch is
    not empty, there is one label and one score per query, and every label
    is 0 or 1. *)
Theorem batch_labels_are_binary (point : Type)
    (self : Binary64.PrunedLabels.KernelSVM point) (data : list point)
    (labels : list nat) (scores : list float) :
  Binary64.PrunedLabels.Classify accu self data = Done (labels, scores) ->
  data <> []
  /\ scores = Binary64.PrunedLabels.Classify_scores self data
  /\ length scores = length data
  /\ length labels = length data
  /\ Forall (fun l => l = 0%nat \/ l = 1%nat) labels.
Proof.
  unfold Binary64.PrunedLabels.Classify. cbv zeta. intros H.
  destruct (Binary64.arma_mean accu
              (Binary64.PrunedLabels.Classify_scores self data))
    as [threshold| |] eqn:Em; cbn [bind] in H; try discriminate.
  inversion H; subst labels scores.
  assert (Hlen : length (Binary64.PrunedLabels.Classify_scores self data)
                 = length data)
    by (unfold Binary64.PrunedLabels.Classify_scores; apply length_map).
  split.
  { intros E. apply arma_mean_inv in Em. apply Em. subst data. reflexivity. }
  split; [reflexivity|]. split; [exact Hlen|].
  split; [now rewrite length_map|].
  apply Forall_map, Forall_forall. intros s _.
  apply threshold_label_is_binary.
Qed.

Lemma remap_labels_entries (labels idx : list nat) (tl : list float) :
  Binary64.PrunedLabels.remap_labels labels idx = Done tl ->
  length tl = length idx
  /\ forall k i, nth_error idx k = Some i ->
       exists l, nth_error labels i = Some l
                 /\ nth k tl 0 = if (l =? 0)%nat then -1 else 1.
Proof.
  revert tl. induction idx as [|i0 idx IH]; intros tl H;
    cbn [Binary64.PrunedLabels.remap_labels] in H.
  - inversion H. split; [reflexivity|]. intros [|k] i Hk; discriminate.
  - destruct (nth_error labels i0) as [l0|] eqn:E0; [|discriminate].
    destruct (Binary64.PrunedLabels.remap_labels labels idx) as [tl'| |];
      cbn [bind] in H; try discriminate.
    inversion H; subst tl. destruct (IH tl' eq_refl) as [Hl Hn].
    split; [cbn [length]; now rewrite Hl|].
    intros [|k] i Hk; cbn [nth_error nth] in *.
    + inversion Hk; subst i. exists l0. auto.
    + apply Hn, Hk.
Qed.

Lemma prune_labels_entry (threshold : float) (a tl : list float) (i : nat) :
  (i < length a)%nat ->
  nth i (Binary64.PrunedLabels.prune_labels threshold a tl) 0
  = if threshold <? nth i a 0 then nth i tl 0 else 0.
Proof.
  intros Hi. unfold Binary64.PrunedLabels.prune_labels.
  rewrite (nth_indep _ 0
             ((fun k => if threshold <? nth k a 0 then nth k tl 0 else 0)
                0%nat))
    by (now rewrite length_map, length_seq).
  rewrite (map_nth (fun k => if threshold <? nth k a 0 then nth k tl 0 else 0)).
  now rewrite seq_nth.
Qed.

(** X13.  In binary64, whichever order the sums are added in: a model
    that [Train] returns holds one coefficient, one -1/+1 label and one
    saved label per training point.  The saved label of a point is its
    -1/+1 label where its coefficient exceeds [arma::mean(alpha)] as
    computed, and 0 elsewhere. *)
Theorem saved_labels_follow_mean_alpha (point : Type)
    (self m : Binary64.PrunedLabels.KernelSVM point) (data : list point)
    (labels : list nat) (max_iter : nat) (tol : float) (rnd : nat -> N)
    (pos fuel : nat) :
  Binary64.PrunedLabels.Train accu fuel rnd pos self data labels max_iter
    tol = Done m ->
  exists threshold,
    Binary64.arma_mean accu (Binary64.PrunedLabels.alpha m) = Done threshold
    /\ Binary64.PrunedLabels.trainingData m = data
    /\ length (Binary64.PrunedLabels.alpha m) = length data
    /\ length (Binary64.PrunedLabels.trainLabels m) = length data
    /\ length (Binary64.PrunedLabels.savedLabels m) = length data
    /\ forall i, (i < length data)%nat ->
         (exists l, nth_error labels i = Some l
                    /\ nth i (Binary64.PrunedLabels.trainLabels m) 0
                       = if (l =? 0)%nat then -1 else 1)
         /\ nth i (Binary64.PrunedLabels.savedLabels m) 0
            = if threshold <? nth i (Binary64.PrunedLabels.alpha m) 0
              then nth i (Binary64.PrunedLabels.trainLabels m) 0
              else 0.
Proof.
  unfold Binary64.PrunedLabels.Train. cbv zeta. intros H.
  destruct (Binary64.PrunedLabels.remap_labels labels (seq 0 (length data)))
    as [tl| |] eqn:Etl; cbn [bind] in H; try discriminate.
  destruct (Binary64.SMO.train_loop _ _ _ _ _ _ _ _ _ _ _ _)
    as [[st c]| |] eqn:Eloop; cbn [bind] in H; try discriminate.
  destruct (Binary64.arma_mean accu (Binary64.SMO.alpha st))
    as [threshold| |] eqn:Em; cbn [bind] in H; try discriminate.
  inversion H; subst m; clear H.
  cbn [Binary64.PrunedLabels.alpha Binary64.PrunedLabels.trainLabels
       Binary64.PrunedLabels.savedLabels Binary64.PrunedLabels.trainingData].
  apply train_loop_keeps_length in Eloop.
  cbn [Binary64.SMO.alpha] in Eloop. rewrite repeat_length in Eloop.
  destruct (remap_labels_entries _ _ _ Etl) as [Hl Hn].
  rewrite length_seq in Hl.
  exists threshold. split; [exact Em|]. split; [reflexivity|].
  split; [exact Eloop|]. split; [exact Hl|].
  split.
  { unfold Binary64.PrunedLabels.prune_labels.
    now rewrite length_map, length_seq. }
  intros i Hi. split.
  - apply (Hn i i). rewrite (nth_error_nth' _ 0%nat)
      by (now rewrite length_seq).
    now rewrite seq_nth.
  - apply prune_labels_entry. now rewrite Eloop.
Qed.

Lemma predict_skips_all (point : Type)
    (self : Binary64.PrunedLabels.KernelSVM point) (x : point) :
  (forall j, (nth j (Binary64.PrunedLabels.savedLabels self) 0 =? 0) = true) ->
  forall idx prediction,
    Binary64.PrunedLabels.predict self x idx prediction = prediction.
Proof.
  intros Hz idx. induction idx as [|j idx IH]; intros prediction;
    cbn [Binary64.PrunedLabels.predict]; [reflexivity|].
  rewrite Hz. apply IH.
Qed.

(** X17.  In binary64: a model all of whose saved labels are zero gives
    every query the same score, [0 + intercept] when it fits an intercept
    and 0 when it does not.  The model of the constructor that does not
    train is such a model. *)
Theorem model_without_support_scores_alike (point : Type)
    (self : Binary64.PrunedLabels.KernelSVM point) (data : list point) :
  (forall j, (nth j (Binary64.PrunedLabels.savedLabels self) 0 =? 0) = true) ->
  Binary64.PrunedLabels.Classify_scores self data
  = map (fun _ => if negb (Binary64.PrunedLabels.fitIntercept self) then 0
                  else 0 + Binary64.PrunedLabels.intercept self) data.
Proof.
  intros Hz. unfold Binary64.PrunedLabels.Classify_scores.
  apply map_ext. intros x. cbv zeta.
  now rewrite (predict_skips_all point self x Hz).
Qed.

End Binary64Structure.

Section Binary64StructureRuns.
Import PrimFloat.
Local Open Scope float_scope.

Lemma quiet_pass_changes_nothing_witness :
  exists st',
    Binary64.SMO.train_loop Binary64.accu_seq 3
      (Binary64.PrunedLabels.kernel_matrix Binary64.linear_kernel
         Binary64.leaving_points) [-1; 1; -1] 0x1p-1 Binary64.leaving_tol 1
      Binary64.glibc_rand 5 5 (Binary64.SMO.mkState [0; 0; 0] 0 0 0) 0
    = Done (Binary64.SMO.mkState [-0x1p-55; 0x1p-1; 0x1p-1]
              (-0x1.5da54c27e8278p-2) 9 0, 1%nat)
    /\ Binary64.SMO.pass Binary64.accu_seq 3
         (Binary64.PrunedLabels.kernel_matrix Binary64.linear_kernel
            Binary64.leaving_points) [-1; 1; -1] 0x1p-1 Binary64.leaving_tol
         Binary64.glibc_rand 5
         (Binary64.SMO.mkState [-0x1p-55; 0x1p-1; 0x1p-1]
            (-0x1.5da54c27e8278p-2) 9 0) = Done st'
    /\ Binary64.SMO.changedAlphas st' = 0%nat
    /\ Binary64.SMO.alpha st' = [-0x1p-55; 0x1p-1; 0x1p-1]
    /\ Binary64.SMO.intercept st' = -0x1.5da54c27e8278p-2.
Proof.
  eexists. split; [vm_compute; reflexivity|].
  split; [vm_compute; reflexivity|]. split; [reflexivity|].
  apply (quiet_pass_changes_nothing Binary64.accu_seq 3
           (Binary64.PrunedLabels.kernel_matrix Binary64.linear_kernel
              Binary64.leaving_points) [-1; 1; -1] 0x1p-1
           Binary64.leaving_tol Binary64.glibc_rand 5
           (Binary64.SMO.mkState [-0x1p-55; 0x1p-1; 0x1p-1]
              (-0x1.5da54c27e8278p-2) 9 0)).
  - vm_compute. reflexivity.
  - reflexivity.
Defined.

Lemma batch_labels_are_binary_witness :
  exists m labels scores,
    Binary64.PrunedLabels.Train Binary64.accu_seq 5 Binary64.glibc_rand 0
      Binary64.leaving_model Binary64.leaving_points Binary64.leaving_labels
      1 Binary64.leaving_tol = Done m
    /\ Binary64.PrunedLabels.Classify Binary64.accu_seq m [-8; -8; -8]
       = Done (labels, scores)
    /\ Binary64.PrunedLabels.Classify Binary64.accu_pairs m [-8; -8; -8]
       = Done (labels, scores)
    /\ labels = [0; 0; 0]%nat
    /\ [-8; -8; -8] <> []
    /\ scores = Binary64.PrunedLabels.Classify_scores m [-8; -8; -8]
    /\ length scores = 3%nat
    /\ length labels = 3%nat
    /\ Forall (fun l => l = 0%nat \/ l = 1%nat) labels.
Proof.
  eexists. eexists. eexists. split; [vm_compute; reflexivity|].
  split; [vm_compute; reflexivity|]. split; [vm_compute; reflexivity|].
  split; [reflexivity|].
  apply (batch_labels_are_binary Binary64.accu_seq float).
  vm_compute. reflexivity.
Defined.

Lemma saved_labels_follow_mean_alpha_witness :
  exists m,
    Binary64.PrunedLabels.Train Binary64.accu_seq 5 Binary64.glibc_rand 0
      Binary64.leaving_model Binary64.leaving_points Binary64.leaving_labels
      1 Binary64.leaving_tol = Done m
    /\ Binary64.PrunedLabels.savedLabels m = [0; 1; -1]
    /\ exists threshold,
         Binary64.arma_mean Binary64.accu_seq (Binary64.PrunedLabels.alpha m)
         = Done threshold
         /\ Binary64.PrunedLabels.trainingData m = Binary64.leaving_points
         /\ length (Binary64.PrunedLabels.alpha m) = 3%nat
         /\ length (Binary64.PrunedLabels.trainLabels m) = 3%nat
         /\ length (Binary64.PrunedLabels.savedLabels m) = 3%nat
         /\ forall i, (i < 3)%nat ->
              (exists l, nth_error Binary64.leaving_labels i = Some l
                         /\ nth i (Binary64.PrunedLabels.trainLabels m) 0
                            = if (l =? 0)%nat then -1 else 1)
              /\ nth i (Binary64.PrunedLabels.savedLabels m) 0
                 = if threshold <? nth i (Binary64.PrunedLabels.alpha m) 0
                   then nth i (Binary64.PrunedLabels.trainLabels m) 0
                   else 0.
Proof.
  eexists. split; [vm_compute; reflexivity|]. split; [reflexivity|].
  apply (saved_labels_follow_mean_alpha Binary64.accu_seq float
           Binary64.leaving_model _ Binary64.leaving_points
           Binary64.leaving_labels 1 Binary64.leaving_tol Binary64.glibc_rand
           0 5).
  vm_compute. reflexivity.
Defined.

Lemma model_without_support_scores_alike_witness :
  Binary64.PrunedLabels.Classify_scores
    (Binary64.PrunedLabels.KernelSVM_new 1 true Binary64.linear_kernel)
    [-3; 0; 8] = [0; 0; 0]
  /\ Binary64.PrunedLabels.Classify_labels Binary64.accu_seq
       (Binary64.PrunedLabels.KernelSVM_new 1 true Binary64.linear_kernel)
       [-3; 0; 8] = Done [1; 1; 1]%nat
  /\ Binary64.PrunedLabels.Classify_labels Binary64.accu_pairs
       (Binary64.PrunedLabels.KernelSVM_new 1 true Binary64.linear_kernel)
       [-3; 0; 8] = Done [1; 1; 1]%nat.
Proof.
  split; [|split; vm_compute; reflexivity].
  refine (model_without_support_scores_alike float
            (Binary64.PrunedLabels.KernelSVM_new 1 true
               Binary64.linear_kernel) [-3; 0; 8] _).
  intros [|j]; reflexivity.
Defined.

End Binary64StructureRuns.
